(** * Reverse sync (Google Sheets -> Shopify): a shallow embedding

    This development embeds [reverse-sync.mjs] (the scheduled job that
    pushes [Desired_Available] edits of the [Truth_Table] sheet to
    Shopify under a compare-and-set precondition) and settles the
    properties its specification states about it.

    Layout:
    - [JS]       the ECMAScript built-ins the job relies on
                 ([String], [trim], [Number], [Number.isFinite],
                 [Math.trunc], [slice], [JSON.stringify] of user errors);
    - [Sheet]    the row store: a grid of cells, [values.get] and
                 [values.batchUpdate];
    - [Shop]     the typed GraphQL boundary of the Shopify Admin API;
    - [World]    the calls that leave the process, their trace, and the
                 monad of an [async] function (world passing, errors);
    - [ReverseSync] the job itself, function by function;
    - [Outsides], [Samples] concrete shops, sheets and environments on
                 which the job is run;
    - [Terms]    the vocabulary of the statements;
    - the theorems: the candidate scan, the push of one candidate, the
      outcome records, the bulk writes, the sheet after a run. *)

From Stdlib Require Import ZArith QArith Qround Qabs String Ascii List Lia Bool.
From stdpp Require Import base list gmap strings pretty.
Import ListNotations.

Local Open Scope string_scope.
Local Open Scope nat_scope.

(* ===================================================================== *)
(** ** ECMAScript built-ins *)
(* ===================================================================== *)

Module JS.

(** A Number is an IEEE binary64 value.  A finite one is carried by its
    exact rational value; the two zeros are identified (the job only
    compares with [!==], truncates and serialises numbers, and none of
    these tells [-0] from [0]). *)
Inductive num : Type :=
| NaN
| PosInf
| NegInf
| Fin (q : Q).

(** [Number.isFinite] *)
Definition isFinite (n : num) : bool :=
  match n with Fin _ => true | _ => false end.

(** [Math.trunc] on a finite value: rounding toward zero. *)
Definition trunc (q : Q) : Z := Z.quot (Qnum q) (Zpos (Qden q)).

(** *** Rounding an exact rational to binary64 (round to nearest, ties to
    even), as [Number(string)] does with the mathematical value of a
    literal. *)

(** [floor (log2 (n/d))] for positive [n], [d]. *)
Definition ilog2 (n d : Z) : Z :=
  let e0 := (Z.log2 n - Z.log2 d)%Z in
  let ge :=
    if (0 <=? e0)%Z then (d * 2 ^ e0 <=? n)%Z else (d <=? n * 2 ^ (- e0))%Z in
  if ge then e0 else (e0 - 1)%Z.

(** nearest integer to [n/d] ([d > 0], [n >= 0]), ties to even *)
Definition round_half_even (n d : Z) : Z :=
  let q := (n / d)%Z in
  let r := (n mod d)%Z in
  match (2 * r ?= d)%Z with
  | Lt => q
  | Gt => (q + 1)%Z
  | Eq => if Z.even q then q else (q + 1)%Z
  end.

(** [m * 2^p] as a rational *)
Definition scale2 (m p : Z) : Q :=
  if (0 <=? p)%Z then inject_Z (m * 2 ^ p)
  else Qred (Qmake m (Z.to_pos (2 ^ (- p)))).

Definition round64_pos (n d : Z) : option Q :=
  let e := Z.max (ilog2 n d) (-1022) in
  let p := (e - 52)%Z in
  let m :=
    if (0 <=? p)%Z then round_half_even n (d * 2 ^ p)
    else round_half_even (n * 2 ^ (- p)) d in
  (* m * 2^p >= 2^1024 overflows to Infinity *)
  if (0 <=? p)%Z && (2 ^ 1024 <=? m * 2 ^ p)%Z then None
  else Some (scale2 m p).

Definition round64 (q : Q) : num :=
  match Qnum q with
  | Z0 => Fin 0
  | Zpos n =>
      match round64_pos (Zpos n) (Zpos (Qden q)) with
      | Some v => Fin v
      | None => PosInf
      end
  | Zneg n =>
      match round64_pos (Zpos n) (Zpos (Qden q)) with
      | Some v => Fin (Qopp v)
      | None => NegInf
      end
  end.

(** *** Strings.  A JS string is a sequence of 16-bit code units.  It is
    carried by the [string] that holds its UTF-8 encoding (what a literal
    of this file holds): one byte below 128 for a code unit below 128, a
    lead byte and its continuation bytes for the others.  A three-byte
    sequence in the surrogate range is that one code unit, and a byte that
    begins no well-formed sequence is the code unit of its own value (a
    byte 160 on its own is U+00A0).  Every [string] so denotes one JS
    string, and a [string] of bytes below 128 is the only carrier of the
    JS string it denotes, so [===] against an ASCII literal is equality of
    carriers. *)

Definition byte (c : ascii) : N := N_of_ascii c.

(** a continuation byte, 10xxxxxx *)
Definition is_cont (c : ascii) : bool :=
  (128 <=? byte c)%N && (byte c <=? 191)%N.

(** the code point of a two-, three- and four-byte sequence *)
Definition point2 (b0 b1 : ascii) : N :=
  ((byte b0 - 192) * 64 + (byte b1 - 128))%N.

Definition point3 (b0 b1 b2 : ascii) : N :=
  ((byte b0 - 224) * 4096 + (byte b1 - 128) * 64 + (byte b2 - 128))%N.

Definition point4 (b0 b1 b2 b3 : ascii) : N :=
  ((byte b0 - 240) * 262144 + (byte b1 - 128) * 4096 +
   (byte b2 - 128) * 64 + (byte b3 - 128))%N.

(** The number of bytes of the character that begins with [b0], given the
    bytes that follow it: 2, 3 or 4 for a lead byte followed by its
    continuation bytes (shortest encoding only, code points up to
    U+10FFFF), 1 for a byte below 128 and for a byte that begins no such
    sequence. *)
Definition width (b0 : ascii) (rest : string) : nat :=
  match rest with
  | String b1 r1 =>
      if (194 <=? byte b0)%N && (byte b0 <=? 223)%N then
        if is_cont b1 then 2 else 1
      else
        match r1 with
        | String b2 r2 =>
            if (224 <=? byte b0)%N && (byte b0 <=? 239)%N then
              if is_cont b1 && is_cont b2 && (2048 <=? point3 b0 b1 b2)%N
              then 3 else 1
            else
              match r2 with
              | String b3 _ =>
                  if (240 <=? byte b0)%N && (byte b0 <=? 244)%N &&
                     is_cont b1 && is_cont b2 && is_cont b3 &&
                     (65536 <=? point4 b0 b1 b2 b3)%N &&
                     (point4 b0 b1 b2 b3 <=? 1114111)%N
                  then 4 else 1
              | EmptyString => 1
              end
        | EmptyString => 1
        end
  | EmptyString => 1
  end.

(** The characters of a text, each with the bytes that carry it and its
    code point.  A code point above U+FFFF is two code units (a surrogate
    pair), any other is one. *)
Fixpoint chars (s : string) : list (string * N) :=
  match s with
  | EmptyString => []
  | String b0 r0 =>
      match width b0 r0, r0 with
      | 2, String b1 r1 =>
          (String b0 (String b1 EmptyString), point2 b0 b1) :: chars r1
      | 3, String b1 (String b2 r2) =>
          (String b0 (String b1 (String b2 EmptyString)), point3 b0 b1 b2)
            :: chars r2
      | 4, String b1 (String b2 (String b3 r3)) =>
          (String b0 (String b1 (String b2 (String b3 EmptyString))),
           point4 b0 b1 b2 b3) :: chars r3
      | _, _ => (String b0 EmptyString, byte b0) :: chars r0
      end
  end.

(** the text a list of characters carries *)
Fixpoint text (cs : list (string * N)) : string :=
  match cs with
  | [] => EmptyString
  | c :: r => fst c ++ text r
  end.

Definition units (c : string * N) : nat :=
  if (snd c <? 65536)%N then 1 else 2.

Fixpoint count_units (cs : list (string * N)) : nat :=
  match cs with
  | [] => 0
  | c :: r => units c + count_units r
  end.

(** [s.length]: the number of code units *)
Definition length (s : string) : nat := count_units (chars s).

(** WhiteSpace and LineTerminator, what [trim] and [Number] strip: TAB, LF,
    VT, FF, CR, SP, U+00A0, U+1680, U+2000 to U+200A, U+2028, U+2029,
    U+202F, U+205F, U+3000 and U+FEFF. *)
Definition is_space (p : N) : bool :=
  ((9 <=? p) && (p <=? 13) || (p =? 32) || (p =? 160) || (p =? 5760) ||
   (8192 <=? p) && (p <=? 8202) || (p =? 8232) || (p =? 8233) ||
   (p =? 8239) || (p =? 8287) || (p =? 12288) || (p =? 65279))%N.

Fixpoint drop_spaces (cs : list (string * N)) : list (string * N) :=
  match cs with
  | c :: r => if is_space (snd c) then drop_spaces r else cs
  | [] => []
  end.

Definition trimStart (s : string) : string := text (drop_spaces (chars s)).

(** [String.prototype.trim] *)
Definition trim (s : string) : string :=
  text (rev (drop_spaces (rev (drop_spaces (chars s))))).

(** The first of the two code units of a code point above U+FFFF (its
    high surrogate), as the three bytes that carry it. *)
Definition high_surrogate (p : N) : string :=
  let h := (55296 + ((p - 65536) / 1024) mod 1024)%N in
  String (ascii_of_N (224 + h / 4096))
    (String (ascii_of_N (128 + (h / 64) mod 64))
       (String (ascii_of_N (128 + h mod 64)) EmptyString)).

(** the first [n] code units of a list of characters; a cut inside a
    surrogate pair keeps its first half *)
Fixpoint take_units (n : nat) (cs : list (string * N)) {struct cs} : string :=
  match n, cs with
  | S k, c :: r =>
      match units c, k with
      | 1, _ => fst c ++ take_units k r
      | _, S k' => fst c ++ take_units k' r
      | _, O => high_surrogate (snd c)
      end
  | _, _ => EmptyString
  end.

(** [String.prototype.slice(0, n)] *)
Definition slice0 (n : nat) (s : string) : string := take_units n (chars s).

Arguments slice0 : simpl never.

Definition is_digit (c : ascii) : bool :=
  (48 <=? nat_of_ascii c) && (nat_of_ascii c <=? 57).

Definition digit_val (c : ascii) : Z := Z.of_nat (nat_of_ascii c - 48).

(** leading decimal digits and the remainder *)
Fixpoint span_digits (s : string) : string * string :=
  match s with
  | String c r =>
      if is_digit c then let '(d, t) := span_digits r in (String c d, t)
      else (EmptyString, s)
  | EmptyString => (EmptyString, EmptyString)
  end.

Fixpoint digits_value (s : string) (acc : Z) : Z :=
  match s with
  | String c r => digits_value r (acc * 10 + digit_val c)%Z
  | EmptyString => acc
  end.

(** value of a digit of radix up to 16, if it is one *)
Definition radix_digit (c : ascii) : option Z :=
  let n := nat_of_ascii c in
  if (48 <=? n) && (n <=? 57) then Some (Z.of_nat (n - 48))
  else if (97 <=? n) && (n <=? 102) then Some (Z.of_nat (n - 87))
  else if (65 <=? n) && (n <=? 70) then Some (Z.of_nat (n - 55))
  else None.

Fixpoint radix_value (radix : Z) (s : string) (acc : Z) : option Z :=
  match s with
  | EmptyString => Some acc
  | String c r =>
      match radix_digit c with
      | Some d =>
          if (d <? radix)%Z then radix_value radix r (acc * radix + d)%Z
          else None
      | None => None
      end
  end.

(** [mant * 10^k] as a rational *)
Definition scale10 (mant k : Z) : Q :=
  if (0 <=? k)%Z then inject_Z (mant * 10 ^ k)
  else Qmake mant (Z.to_pos (10 ^ (- k))).

(** ExponentPart_opt followed by the end of the literal *)
Definition parse_exponent (s : string) : option Z :=
  match s with
  | EmptyString => Some 0%Z
  | String c r =>
      if (nat_of_ascii c =? 101) || (nat_of_ascii c =? 69) then
        let '(sg, r') :=
          match r with
          | String "+" t => (1%Z, t)
          | String "-" t => ((-1)%Z, t)
          | _ => (1%Z, r)
          end in
        match span_digits r' with
        | (String _ _ as ds, EmptyString) => Some (sg * digits_value ds 0)%Z
        | _ => None
        end
      else None
  end.

(** StrUnsignedDecimalLiteral other than [Infinity] *)
Definition parse_unsigned_decimal (s : string) : option Q :=
  let '(ip, r1) := span_digits s in
  let '(dot, fp, r2) :=
    match r1 with
    | String "." t => let '(f, t') := span_digits t in (true, f, t')
    | _ => (false, EmptyString, r1)
    end in
  match ip, fp with
  | EmptyString, EmptyString => None
  | _, _ =>
      match parse_exponent r2 with
      | Some ex =>
          Some (scale10 (digits_value (ip ++ fp) 0)
                        (ex - Z.of_nat (String.length fp)))
      | None => None
      end
  end.

Definition parse_decimal (s : string) : num :=
  let '(neg, body) :=
    match s with
    | String "+" t => (false, t)
    | String "-" t => (true, t)
    | _ => (false, s)
    end in
  if String.eqb body "Infinity" then (if neg then NegInf else PosInf)
  else
    match parse_unsigned_decimal body with
    | Some q => round64 (if neg then Qopp q else q)
    | None => NaN
    end.

Definition parse_radix (radix : Z) (ds : string) : num :=
  match ds with
  | EmptyString => NaN
  | _ =>
      match radix_value radix ds 0 with
      | Some v => round64 (inject_Z v)
      | None => NaN
      end
  end.

(** [Number(s)] for a string [s] (StringToNumber): surrounding white space
    is ignored, the empty literal is [0], then a binary, octal or hex
    integer literal or a signed decimal literal; anything else is [NaN]. *)
Definition Number (s : string) : num :=
  match trim s with
  | EmptyString => Fin 0
  | String "0" (String "x" ds) | String "0" (String "X" ds) => parse_radix 16 ds
  | String "0" (String "o" ds) | String "0" (String "O" ds) => parse_radix 8 ds
  | String "0" (String "b" ds) | String "0" (String "B" ds) => parse_radix 2 ds
  | t => parse_decimal t
  end.

(** *** [Number::toString] (radix 10): the shortest decimal digit string
    [s] (with [k] digits) and exponent [n] such that [s * 10^(n-k)] reads
    back as the same Number; the closest one when several exist. *)

Definition dec (z : Z) : string := pretty z.

Fixpoint zeros (n : nat) : string :=
  match n with O => EmptyString | S k => String "0" (zeros k) end.

(** smallest [j >= j0] with [q * 10^j >= 1], searched over [fuel] steps *)
Fixpoint first_unit (fuel : nat) (q : Q) (j : Z) : Z :=
  match fuel with
  | O => j
  | S f =>
      if Qle_bool 1 (Qmult q (inject_Z (10 ^ j))) then j
      else first_unit f q (j + 1)%Z
  end.

(** [n0] with [10^(n0-1) <= q < 10^n0], for [q > 0] *)
Definition dec_exponent (q : Q) : Z :=
  if Qle_bool 1 q then Z.of_nat (String.length (dec (Qfloor q)))
  else (1 - first_unit 400 q 1)%Z.

Definition digits_ok (q : Q) (k n s : Z) : bool :=
  (10 ^ (k - 1) <=? s)%Z && (s <? 10 ^ k)%Z &&
  match round64 (scale10 s (n - k)) with
  | Fin v => Qeq_bool v q
  | _ => false
  end.

Definition dist (q : Q) (k : Z) (c : Z * Z) : Q :=
  Qabs (Qminus (scale10 (snd c) (fst c - k)) q).

(** the better of two candidates [(n, s)]: nearer to [q], even on a tie *)
Definition nearer (q : Q) (k : Z) (a b : Z * Z) : Z * Z :=
  match Qcompare (dist q k a) (dist q k b) with
  | Lt => a
  | Gt => b
  | Eq => if Z.even (snd a) then a else b
  end.

Definition candidates_at (q : Q) (k : Z) : list (Z * Z) :=
  let n0 := dec_exponent q in
  flat_map
    (fun n =>
       let f := Qfloor (Qmult q (scale10 1 (k - n))) in
       filter (fun c => digits_ok q k (fst c) (snd c))
              [(n, f); (n, (f + 1)%Z)])
    [n0; (n0 + 1)%Z].

Fixpoint shortest_digits (fuel : nat) (q : Q) (k : Z) : Z * Z * Z :=
  match candidates_at q k with
  | c :: cs =>
      let best := fold_left (nearer q k) cs c in (k, fst best, snd best)
  | [] =>
      match fuel with
      | S f => shortest_digits f q (k + 1)%Z
      | O => (k, dec_exponent q,
              Qfloor (Qmult q (scale10 1 (k - dec_exponent q))))
      end
  end.

Definition format_digits (k n : Z) (ds : string) : string :=
  if (k <=? n)%Z && (n <=? 21)%Z then ds ++ zeros (Z.to_nat (n - k))
  else if (0 <? n)%Z && (n <=? 21)%Z then
    slice0 (Z.to_nat n) ds ++ "." ++
    String.substring (Z.to_nat n) (Z.to_nat (k - n)) ds
  else if (-6 <? n)%Z && (n <=? 0)%Z then
    "0." ++ zeros (Z.to_nat (- n)) ++ ds
  else
    let e := (n - 1)%Z in
    let es := (if (0 <=? e)%Z then "+" else "-") ++ dec (Z.abs e) in
    match ds with
    | String d EmptyString => String d EmptyString ++ "e" ++ es
    | String d r => String d EmptyString ++ "." ++ r ++ "e" ++ es
    | EmptyString => EmptyString
    end.

Definition toString_pos (q : Q) : string :=
  let '(k, n, s) := shortest_digits 16 q 1 in
  format_digits k n (dec s).

Definition Number_toString (x : num) : string :=
  match x with
  | NaN => "NaN"
  | PosInf => "Infinity"
  | NegInf => "-Infinity"
  | Fin q =>
      match Qnum q with
      | Z0 => "0"
      | Zpos _ => toString_pos q
      | Zneg _ => "-" ++ toString_pos (Qopp q)
      end
  end.

(** *** Values a sheet cell can hold (the Sheets API renders a cell with
    [UNFORMATTED_VALUE] as a boolean, a number or a string); [row[i]] past
    the end of a row is [undefined]. *)
Inductive value : Type :=
| VUndefined
| VNull
| VBool (b : bool)
| VNum (n : num)
| VStr (s : string).

(** [String(v)] *)
Definition String_ (v : value) : string :=
  match v with
  | VUndefined => "undefined"
  | VNull => "null"
  | VBool true => "true"
  | VBool false => "false"
  | VNum n => Number_toString n
  | VStr s => s
  end.

(** ToBoolean, as in [row[9] ? ... : ...] *)
Definition truthy (v : value) : bool :=
  match v with
  | VUndefined | VNull => false
  | VBool b => b
  | VNum (Fin q) => negb (Qeq_bool q 0)
  | VNum NaN => false
  | VNum _ => true
  | VStr s => negb (String.eqb s EmptyString)
  end.

(** [k >= x] for an array length [k] and a Number [x] *)
Definition length_ge (k : nat) (x : num) : bool :=
  match x with
  | NaN => false
  | PosInf => false
  | NegInf => true
  | Fin q => Qle_bool q (inject_Z (Z.of_nat k))
  end.

(** *** [JSON.stringify] of strings (QuoteJSONString) *)

Definition dquote : ascii := ascii_of_nat 34.
Definition backslash : ascii := ascii_of_nat 92.

Definition hex_digit (n : nat) : ascii :=
  if n <? 10 then ascii_of_nat (48 + n) else ascii_of_nat (87 + n).

Definition json_escape_char (c : ascii) : string :=
  let n := nat_of_ascii c in
  if n =? 34 then String backslash (String dquote EmptyString)
  else if n =? 92 then String backslash (String backslash EmptyString)
  else if n =? 8 then String backslash "b"
  else if n =? 12 then String backslash "f"
  else if n =? 10 then String backslash "n"
  else if n =? 13 then String backslash "r"
  else if n =? 9 then String backslash "t"
  else if n <? 32 then
    String backslash
      ("u00" ++ String (hex_digit (n / 16)) (String (hex_digit (n mod 16)) EmptyString))
  else String c EmptyString.

Definition is_high (p : N) : bool := (55296 <=? p)%N && (p <=? 56319)%N.
Definition is_low (p : N) : bool := (56320 <=? p)%N && (p <=? 57343)%N.

(** the escape of a surrogate that has no partner: [\uXXXX], lower case *)
Definition unicode_escape (p : N) : string :=
  let d (k : N) := hex_digit (N.to_nat ((p / k) mod 16)) in
  String backslash
    (String "u" (String (d 4096%N) (String (d 256%N) (String (d 16%N)
       (String (d 1%N) EmptyString))))).

Fixpoint json_escape_chars (cs : list (string * N)) : string :=
  match cs with
  | [] => EmptyString
  | (b, p) :: r =>
      if is_high p then
        match r with
        | (b', p') :: r' =>
            if is_low p' then b ++ b' ++ json_escape_chars r'
            else unicode_escape p ++ json_escape_chars r
        | [] => unicode_escape p
        end
      else if is_low p then unicode_escape p ++ json_escape_chars r
      else if (p <? 128)%N then json_escape_char (ascii_of_N p) ++ json_escape_chars r
      else b ++ json_escape_chars r
  end.

Definition json_escape (s : string) : string := json_escape_chars (chars s).

Definition json_string (s : string) : string :=
  String dquote (json_escape s) ++ String dquote EmptyString.

Fixpoint json_join (xs : list string) : string :=
  match xs with
  | [] => EmptyString
  | [x] => x
  | x :: r => x ++ "," ++ json_join r
  end.

Definition json_array (xs : list string) : string := "[" ++ json_join xs ++ "]".

(** *** Error objects: what [throw new Error(msg)] and a rejected [fetch]
    carry. *)
Record Exn : Type := { exn_name : string; exn_message : string }.

(** [new Error(msg)] *)
Definition Error (msg : string) : Exn := {| exn_name := "Error"; exn_message := msg |}.

(** [Error.prototype.toString] *)
Definition Exn_toString (e : Exn) : string :=
  match exn_name e, exn_message e with
  | n, EmptyString => n
  | EmptyString, m => m
  | n, m => n ++ ": " ++ m
  end.

(** [String(err?.message || err)] *)
Definition message_or_self (e : Exn) : string :=
  match exn_message e with
  | EmptyString => Exn_toString e
  | m => m
  end.

End JS.

(* ===================================================================== *)
(** ** The row store *)
(* ===================================================================== *)

Module Sheet.

(** One tab of the spreadsheet, as [values.get] renders it: an array of
    rows, each an array of cell values; a cleared cell reads as the empty
    string.  (The API leaves out the empty cells that end a row; the job
    reads an absent cell and an empty one alike.) *)
Abbreviation row := (list JS.value) (only parsing).
Abbreviation grid := (list (list JS.value)) (only parsing).

Definition blank : JS.value := JS.VStr EmptyString.

(** [row[i]] *)
Definition cell (r : row) (i : nat) : JS.value :=
  match r !! i with
  | Some v => v
  | None => JS.VUndefined
  end.

(** One entry of a [batchUpdate] request: the A1 range
    [`${sheet}!${col}${rowIndex}`] of a single cell and its new value
    ([values: [[v]]]). *)
Record ValueRange : Type := {
  vr_sheet : string;
  vr_col : string;
  vr_row : nat;
  vr_value : JS.value
}.

(** the A1 text the job builds with its template literal *)
Definition range_a1 (u : ValueRange) : string :=
  vr_sheet u ++ "!" ++ vr_col u ++ JS.dec (Z.of_nat (vr_row u)).

(** zero-based index of a column given by letters ([A] = 0, [Z] = 25,
    [AA] = 26) *)
Fixpoint col_number (s : string) (acc : nat) : nat :=
  match s with
  | EmptyString => acc
  | String c r => col_number r (acc * 26 + (nat_of_ascii c - 64))
  end.

Definition col_index (s : string) : nat := col_number s 0 - 1.

(** [xs] extended with blanks to at least [n] cells *)
Definition pad (n : nat) (xs : row) : row :=
  (xs ++ replicate (n - length xs) blank)%list.

Definition write_row (r : row) (c : nat) (v : JS.value) : row :=
  <[c := v]> (pad (S c) r).

(** writing one cell; sheet rows are 1-based, a write below the last row
    extends the grid *)
Definition write_cell (g : grid) (u : ValueRange) : grid :=
  match vr_row u with
  | O => g
  | S i =>
      let g' := (g ++ replicate (S i - length g) [])%list in
      match g' !! i with
      | Some r => <[i := write_row r (col_index (vr_col u)) (vr_value u)]> g'
      | None => g'
      end
  end.

(** [values.batchUpdate] with [valueInputOption: RAW]: the entries are
    applied in order *)
Definition apply_updates (g : grid) (us : list ValueRange) : grid :=
  fold_left write_cell us g.

(** [res.data.values]: absent when the range holds no value *)
Definition values (g : grid) : option grid :=
  match g with
  | [] => None
  | _ => Some g
  end.

End Sheet.

(* ===================================================================== *)
(** ** The Shopify Admin GraphQL boundary *)
(* ===================================================================== *)

Module Shop.

(** [userErrors { code field message }] *)
Record UserError : Type := {
  code : option string;
  field : option (list string);
  message : string
}.

(** [inventorySetQuantities { inventoryAdjustmentGroup {...} userErrors }];
    the adjustment group is returned to the caller and never inspected. *)
Record SetPayload : Type := {
  inventoryAdjustmentGroup : option string;
  userErrors : option (list UserError)
}.

(** [data] of the [InventorySet] mutation *)
Record SetData : Type := { inventorySetQuantities : option SetPayload }.

(** [quantities(names: [available]) { name quantity }] *)
Record Quantity : Type := { name : string; quantity : option Z }.

Record InventoryLevel : Type := {
  id : string;
  quantities : option (list Quantity)
}.

(** [data] of the [GetInventoryLevel] query *)
Record LevelData : Type := { inventoryLevel : option InventoryLevel }.

(** [variables.input.quantities[0]] of the mutation; [name], [reason] and
    [referenceDocumentUri] are constants of the source. *)
Record SetInput : Type := {
  in_name : string;
  in_reason : string;
  in_referenceDocumentUri : string;
  in_inventoryItemId : string;
  in_locationId : option string;
  in_quantity : Z;
  in_compareQuantity : Z
}.

(** What one HTTP exchange of [shopifyGraphql] comes to: [fetch] rejects;
    the status is not ok ([body] is [JSON.stringify(json)]); the body
    carries top-level GraphQL [errors] ([errors] is their
    [JSON.stringify]); or it carries [data] (possibly absent). *)
Inductive Http (D : Type) : Type :=
| FetchRejects (e : JS.Exn)
| NotOk (status : Z) (body : string)
| GraphqlErrors (errors : string)
| Data (d : option D).

Arguments FetchRejects {D} e.
Arguments NotOk {D} status body.
Arguments GraphqlErrors {D} errors.
Arguments Data {D} d.

(** [data?.inventorySetQuantities] *)
Definition payload_of (data : option SetData) : option SetPayload :=
  match data with
  | Some d => inventorySetQuantities d
  | None => None
  end.

(** [payload?.userErrors || []] *)
Definition userErrors_of (payload : option SetPayload) : list UserError :=
  match payload with
  | Some {| userErrors := Some es |} => es
  | _ => []
  end.

(** [data?.inventoryLevel?.quantities?.find((x) => x.name === available)?.quantity],
    when it is a number *)
Definition available_of (data : option LevelData) : option Z :=
  match data with
  | Some {| inventoryLevel := Some {| quantities := Some qs |} |} =>
      match find (fun x => String.eqb (name x) "available") qs with
      | Some x => quantity x
      | None => None
      end
  | _ => None
  end.

Definition json_opt_string (o : option string) : string :=
  match o with
  | Some s => JS.json_string s
  | None => "null"
  end.

(** [JSON.stringify] of one user error, keys in selection order *)
Definition json_userError (e : UserError) : string :=
  "{" ++ JS.json_string "code" ++ ":" ++ json_opt_string (code e) ++ "," ++
  JS.json_string "field" ++ ":" ++
  match field e with
  | Some fs => JS.json_array (map JS.json_string fs)
  | None => "null"
  end ++ "," ++
  JS.json_string "message" ++ ":" ++ JS.json_string (message e) ++ "}".

Definition json_userErrors (es : list UserError) : string :=
  JS.json_array (map json_userError es).

End Shop.

(* ===================================================================== *)
(** ** The world outside the process and the effects of the job *)
(* ===================================================================== *)

Module World.

(** The two GraphQL documents the job posts. *)
Inductive Query : Type :=
| InventorySet (input : Shop.SetInput)
| GetInventoryLevel (inventoryItemId : string) (locationId : option string).

(** Calls that leave the process, in the order they are issued. *)
Inductive Event : Type :=
| SheetsGet (spreadsheetId : option string) (range : string)
| SheetsBatchUpdate (spreadsheetId : option string) (data : list Sheet.ValueRange)
| Fetch (url token : string) (q : Query).

(** Everything the job does not control: how Shopify answers, whether a
    Sheets call rejects, what the clock reads.  [ostate] is the hidden
    state of that outside; every call may change it. *)
Class Outside : Type := {
  ostate : Type;
  fetch_set : ostate -> string -> string -> Shop.SetInput ->
              ostate * Shop.Http Shop.SetData;
  fetch_level : ostate -> string -> string -> string -> option string ->
                ostate * Shop.Http Shop.LevelData;
  sheets_call : ostate -> ostate * option JS.Exn;
  clock : ostate -> string
}.

Section Effects.
Context {O : Outside}.

Record world : Type := {
  out : ostate;
  sheet : Sheet.grid;
  trace : list Event
}.

(** An [async] function: it may change the world and either throws or
    returns. *)
Definition M (A : Type) : Type := world -> (JS.Exn + A) * world.

Definition ret {A} (a : A) : M A := fun w => (inr a, w).

Definition bind {A B} (c : M A) (k : A -> M B) : M B :=
  fun w =>
    match c w with
    | (inr a, w') => k a w'
    | (inl e, w') => (inl e, w')
    end.

Definition throw {A} (e : JS.Exn) : M A := fun w => (inl e, w).

(** a computed outcome: a thrown error or a value *)
Definition lift {A} (r : JS.Exn + A) : M A := fun w => (r, w).

(** [try { c } catch (err) { h err }] *)
Definition try_catch {A} (c : M A) (h : JS.Exn -> M A) : M A :=
  fun w =>
    match c w with
    | (inr a, w') => (inr a, w')
    | (inl e, w') => h e w'
    end.

Definition log (ev : Event) : M unit :=
  fun w => (inr tt, {| out := out w; sheet := sheet w; trace := trace w ++ [ev] |}).

(** [new Date().toISOString()] *)
Definition nowIso : M string := fun w => (inr (clock (out w)), w).

(** [sheets.spreadsheets.values.get] *)
Definition values_get (spreadsheetId : option string) (range : string)
  : M (option Sheet.grid) :=
  fun w =>
    let w1 := {| out := out w; sheet := sheet w;
                 trace := trace w ++ [SheetsGet spreadsheetId range] |} in
    match sheets_call (out w1) with
    | (o, Some e) => (inl e, {| out := o; sheet := sheet w1; trace := trace w1 |})
    | (o, None) =>
        (inr (Sheet.values (sheet w1)),
         {| out := o; sheet := sheet w1; trace := trace w1 |})
    end.

(** [sheets.spreadsheets.values.batchUpdate]: all entries are written, or
    the call rejects and none is. *)
Definition values_batchUpdate (spreadsheetId : option string)
  (data : list Sheet.ValueRange) : M unit :=
  fun w =>
    let w1 := {| out := out w; sheet := sheet w;
                 trace := trace w ++ [SheetsBatchUpdate spreadsheetId data] |} in
    match sheets_call (out w1) with
    | (o, Some e) => (inl e, {| out := o; sheet := sheet w1; trace := trace w1 |})
    | (o, None) =>
        (inr tt,
         {| out := o; sheet := Sheet.apply_updates (sheet w1) data;
            trace := trace w1 |})
    end.

(** [fetch(url, { method: POST, headers, body })] followed by
    [resp.json()], for each of the two documents *)
Definition post_set (url token : string) (input : Shop.SetInput)
  : M (Shop.Http Shop.SetData) :=
  fun w =>
    let '(o, r) := fetch_set (out w) url token input in
    (inr r, {| out := o; sheet := sheet w;
               trace := trace w ++ [Fetch url token (InventorySet input)] |}).

Definition post_level (url token : string) (item : string) (loc : option string)
  : M (Shop.Http Shop.LevelData) :=
  fun w =>
    let '(o, r) := fetch_level (out w) url token item loc in
    (inr r, {| out := o; sheet := sheet w;
               trace := trace w ++ [Fetch url token (GetInventoryLevel item loc)] |}).

End Effects.

Notation "'let*' x ':=' c 'in' k" := (bind c (fun x => k))
  (at level 10, x name, c at level 100, k at level 200).

End World.

(* ===================================================================== *)
(** ** reverse-sync.mjs *)
(* ===================================================================== *)

(** The functions of the source, in its order and under its names.  What
    is left out has no bearing on the sheet or the shop: the console
    output, and [getSheetsClient], which builds the API client without
    calling out. *)
Module ReverseSync.
Import World.

(** [a || b] on an environment variable: the empty string is falsy *)
Definition or_default (v : option string) (d : string) : string :=
  match v with
  | Some (String _ _ as s) => s
  | _ => d
  end.

(** column letters *)
Record Columns : Type := {
  desired : string;
  available : string;
  status : string;
  lastPushedAt : string;
  lastError : string;
  inventoryItemId : string
}.

Record Config : Type := {
  spreadsheetId : option string;
  sheetName : string;
  col : Columns;
  maxRowsPerRun : JS.num;
  shopDomain : option string;
  locationId : option string;
  token : option string
}.

(** [const CONFIG = {...}], evaluated from [process.env] when the module
    is loaded *)
Definition CONFIG (env : gmap string string) : Config := {|
  spreadsheetId := env !! "SPREADSHEET_ID";
  sheetName := or_default (env !! "SHEET_NAME") "Truth_Table";
  col := {| desired := "E"; available := "F"; status := "G";
            lastPushedAt := "H"; lastError := "I"; inventoryItemId := "J" |};
  maxRowsPerRun := JS.Number (or_default (env !! "MAX_ROWS_PER_RUN") "50");
  shopDomain := env !! "SHOPIFY_STORE_DOMAIN";
  locationId := env !! "SHOPIFY_LOCATION_ID";
  token := env !! "SHOPIFY_ADMIN_TOKEN"
|}.

(** [normalizeInt] *)
Definition normalizeInt (value : JS.value) : option Z :=
  match value with
  | JS.VNull | JS.VUndefined => None
  | _ =>
      let s := JS.trim (JS.String_ value) in
      match s with
      | EmptyString => None
      | _ =>
          match JS.Number s with
          | JS.Fin n => Some (JS.trunc n)
          | _ => None
          end
      end
  end.

Record Candidate : Type := {
  rowIndex1Based : nat;
  c_inventoryItemId : string;
  c_desired : Z;
  c_available : Z
}.

(** the body of the scan loop up to the comparison: the candidate row [i]
    would contribute, if any *)
Definition candidate_of (i : nat) (row : Sheet.row) : option Candidate :=
  let desired := normalizeInt (Sheet.cell row 4) in
  let available := normalizeInt (Sheet.cell row 5) in
  let invItemGid :=
    if JS.truthy (Sheet.cell row 9)
    then Some (JS.trim (JS.String_ (Sheet.cell row 9))) else None in
  match invItemGid with
  | None | Some EmptyString => None
  | Some gid =>
      match desired, available with
      | Some d, Some a =>
          if (d =? a)%Z then None
          else Some {| rowIndex1Based := i + 1; c_inventoryItemId := gid;
                       c_desired := d; c_available := a |}
      | _, _ => None
      end
  end.

(** [for (let i = ...; i < rows.length; i++) {...}] over the rows from
    index [i] on, with the candidates pushed so far *)
Fixpoint scan_from (maxRows : JS.num) (i : nat) (rows : list Sheet.row)
  (candidates : list Candidate) : list Candidate :=
  match rows with
  | [] => candidates
  | row :: rest =>
      match candidate_of i row with
      | None => scan_from maxRows (S i) rest candidates
      | Some c =>
          let candidates' := (candidates ++ [c])%list in
          if JS.length_ge (length candidates') maxRows then candidates'
          else scan_from maxRows (S i) rest candidates'
      end
  end.

(** the candidate scan of [main]: the loop starts at index 1, below the
    header row *)
Definition scan (maxRows : JS.num) (rows : Sheet.grid) : list Candidate :=
  scan_from maxRows 1 (drop 1 rows) [].

Section Job.
Context {O : Outside}.
Variable env : gmap string string.

(** [requireEnv] *)
Definition requireEnv (name : string) : M string :=
  match env !! name with
  | Some (String _ _ as v) => ret v
  | _ => throw (JS.Error ("Missing env var: " ++ name))
  end.

(** the checks [shopifyGraphql] makes on the response: [!resp.ok],
    [json.errors?.length], else [json.data] *)
Definition response_data {D : Type} (resp : Shop.Http D) : JS.Exn + option D :=
  match resp with
  | Shop.FetchRejects e => inl e
  | Shop.NotOk status body =>
      inl (JS.Error ("Shopify HTTP " ++ JS.dec status ++ ": " ++ JS.slice0 500 body))
  | Shop.GraphqlErrors errors =>
      inl (JS.Error ("Shopify GraphQL errors: " ++ JS.slice0 500 errors))
  | Shop.Data d => inr d
  end.

Definition graphql_url (shopDomain : string) : string :=
  "https://" ++ shopDomain ++ "/admin/api/2025-10/graphql.json".

(** [shopifyGraphql], once the exchange [post] for the document is fixed *)
Definition shopifyGraphql {D : Type}
  (post : string -> string -> M (Shop.Http D)) : M (option D) :=
  let* shopDomain := requireEnv "SHOPIFY_STORE_DOMAIN" in
  let* token := requireEnv "SHOPIFY_ADMIN_TOKEN" in
  let url := graphql_url shopDomain in
  let* resp := post url token in
  lift (response_data resp).

(** [getCurrentAvailableQuantity] *)
Definition getCurrentAvailableQuantity (inventoryItemId : string)
  (locationId : option string) : M Z :=
  let* data :=
    shopifyGraphql (fun url token => post_level url token inventoryItemId locationId) in
  let q := Shop.available_of data in
  match q with
  | Some n => ret n
  | None =>
      throw (JS.Error
        "Could not read current Shopify available quantity (inventoryLevel/quantities).")
  end.

(** [variables.input] of [runOnce] *)
Definition set_input (inventoryItemId : string) (locationId : option string)
  (quantity cmpQty : Z) : Shop.SetInput := {|
  Shop.in_name := "available";
  Shop.in_reason := "correction";
  Shop.in_referenceDocumentUri := "holytea://reverse-sync/google-sheets";
  Shop.in_inventoryItemId := inventoryItemId;
  Shop.in_locationId := locationId;
  Shop.in_quantity := quantity;
  Shop.in_compareQuantity := cmpQty |}.

(** [runOnce] inside [shopifyInventorySetAvailable] *)
Definition runOnce (inventoryItemId : string) (locationId : option string)
  (quantity cmpQty : Z) : M (option Shop.SetPayload * list Shop.UserError) :=
  let input := set_input inventoryItemId locationId quantity cmpQty in
  let* data := shopifyGraphql (fun url token => post_set url token input) in
  let payload := Shop.payload_of data in
  let userErrors := Shop.userErrors_of payload in
  ret (payload, userErrors).

Definition is_stale (e : Shop.UserError) : bool :=
  match Shop.code e with
  | Some c => String.eqb c "COMPARE_QUANTITY_STALE"
  | None => false
  end.

(** [shopifyInventorySetAvailable] *)
Definition shopifyInventorySetAvailable (inventoryItemId : string)
  (locationId : option string) (quantity compareQuantity : Z)
  : M (option Shop.SetPayload) :=
  let* _ := requireEnv "SHOPIFY_STORE_DOMAIN" in
  let* _ := requireEnv "SHOPIFY_ADMIN_TOKEN" in
  let* _ := requireEnv "SHOPIFY_LOCATION_ID" in
  (* Attempt #1 using sheet-known compareQuantity *)
  let* r1 := runOnce inventoryItemId locationId quantity compareQuantity in
  let* r :=
    match snd r1 with
    | [] => ret r1
    | _ :: _ =>
        match find is_stale (snd r1) with
        | Some _ =>
            (* Attempt #2: refresh compareQuantity from Shopify and retry once *)
            let* current := getCurrentAvailableQuantity inventoryItemId locationId in
            runOnce inventoryItemId locationId quantity current
        | None => ret r1
        end
    end in
  match snd r with
  | _ :: _ =>
      throw (JS.Error ("Shopify userErrors: " ++
                       JS.slice0 500 (Shop.json_userErrors (snd r))))
  | [] => ret (fst r)
  end.

Definition at_cell (column : string) (c : Candidate) (v : JS.value)
  : Sheet.ValueRange :=
  {| Sheet.vr_sheet := sheetName (CONFIG env);
     Sheet.vr_col := column;
     Sheet.vr_row := rowIndex1Based c;
     Sheet.vr_value := v |}.

(** the records pushed to [updates] after a successful set *)
Definition success_updates (c : Candidate) (now : string) : list Sheet.ValueRange :=
  [ at_cell (status (col (CONFIG env))) c Sheet.blank;
    at_cell (lastPushedAt (col (CONFIG env))) c (JS.VStr now);
    at_cell (lastError (col (CONFIG env))) c Sheet.blank;
    at_cell (desired (col (CONFIG env))) c Sheet.blank ].

(** the records pushed to [updates] in the [catch] branch *)
Definition error_updates (c : Candidate) (err : JS.Exn) : list Sheet.ValueRange :=
  let msg := JS.slice0 450 (JS.message_or_self err) in
  [ at_cell (status (col (CONFIG env))) c (JS.VStr "ERROR");
    at_cell (lastError (col (CONFIG env))) c (JS.VStr msg) ].

(** one iteration of [for (const c of candidates) { try {...} catch {...} }] *)
Definition process_one (c : Candidate) : M (list Sheet.ValueRange) :=
  try_catch
    (let* _ := shopifyInventorySetAvailable (c_inventoryItemId c)
                 (locationId (CONFIG env)) (c_desired c) (c_available c) in
     let* now := nowIso in
     ret (success_updates c now))
    (fun err => ret (error_updates c err)).

Fixpoint process (candidates : list Candidate) (updates : list Sheet.ValueRange)
  : M (list Sheet.ValueRange) :=
  match candidates with
  | [] => ret updates
  | c :: rest =>
      let* us := process_one c in
      process rest (updates ++ us)%list
  end.

Definition pending_updates (candidates : list Candidate) : list Sheet.ValueRange :=
  map (fun c => at_cell (status (col (CONFIG env))) c (JS.VStr "PENDING")) candidates.

(** [main] *)
Definition main : M unit :=
  let* _ := requireEnv "SPREADSHEET_ID" in
  let* _ := requireEnv "SHOPIFY_STORE_DOMAIN" in
  let* _ := requireEnv "SHOPIFY_LOCATION_ID" in
  let* _ := requireEnv "SHOPIFY_ADMIN_TOKEN" in
  let range := sheetName (CONFIG env) ++ "!A:Z" in
  let* res := values_get (spreadsheetId (CONFIG env)) range in
  let rows := match res with Some v => v | None => [] end in
  if length rows <? 2 then ret tt
  else
    let candidates := scan (maxRowsPerRun (CONFIG env)) rows in
    match candidates with
    | [] => ret tt
    | _ :: _ =>
        (* Mark PENDING first *)
        let* _ := values_batchUpdate (spreadsheetId (CONFIG env))
                    (pending_updates candidates) in
        (* Process one-by-one *)
        let* updates := process candidates [] in
        (* Write back statuses/errors in one batch *)
        values_batchUpdate (spreadsheetId (CONFIG env)) updates
    end.

(** [main().catch(err => { ...; process.exitCode = 1 })]: the exit code
    of the process and the world it leaves *)
Definition run (w : world) : Z * world :=
  match main w with
  | (inr _, w') => (0%Z, w')
  | (inl _, w') => (1%Z, w')
  end.

End Job.
End ReverseSync.

(* ===================================================================== *)
(** ** Two concrete outsides *)
(* ===================================================================== *)

Module Outsides.
Import World.

(** the answer of an accepted mutation *)
Definition accepted : Shop.Http Shop.SetData :=
  Shop.Data (Some {| Shop.inventorySetQuantities :=
    Some {| Shop.inventoryAdjustmentGroup := Some "correction";
            Shop.userErrors := Some [] |} |}).

(** the answer of a mutation rejected with one user error *)
Definition rejected (code : string) (msg : string) : Shop.Http Shop.SetData :=
  Shop.Data (Some {| Shop.inventorySetQuantities :=
    Some {| Shop.inventoryAdjustmentGroup := None;
            Shop.userErrors :=
              Some [ {| Shop.code := Some code;
                        Shop.field := Some ["input"; "quantities"; "0"; "compareQuantity"];
                        Shop.message := msg |} ] |} |}).

Definition stale : Shop.Http Shop.SetData :=
  rejected "COMPARE_QUANTITY_STALE" "The compareQuantity argument is stale.".

(** the answer of the level query for a live quantity *)
Definition level (q : Z) : Shop.Http Shop.LevelData :=
  Shop.Data (Some {| Shop.inventoryLevel :=
    Some {| Shop.id := "gid://shopify/InventoryLevel/1";
            Shop.quantities :=
              Some [ {| Shop.name := "available"; Shop.quantity := Some q |} ] |} |}).

(** *** A scripted outside: every call consumes the next scripted answer
    of its kind; when a script is exhausted the mutation is accepted, the
    level query finds nothing and the Sheets call goes through. *)
Record script : Type := {
  set_answers : list (Shop.Http Shop.SetData);
  level_answers : list (Shop.Http Shop.LevelData);
  sheets_answers : list (option JS.Exn);
  time : string
}.

Definition Scripted : Outside := {|
  ostate := script;
  fetch_set s _ _ _ :=
    match set_answers s with
    | a :: r =>
        ({| set_answers := r; level_answers := level_answers s;
            sheets_answers := sheets_answers s; time := time s |}, a)
    | [] => (s, accepted)
    end;
  fetch_level s _ _ _ _ :=
    match level_answers s with
    | a :: r =>
        ({| set_answers := set_answers s; level_answers := r;
            sheets_answers := sheets_answers s; time := time s |}, a)
    | [] => (s, Shop.Data None)
    end;
  sheets_call s :=
    match sheets_answers s with
    | a :: r =>
        ({| set_answers := set_answers s; level_answers := level_answers s;
            sheets_answers := r; time := time s |}, a)
    | [] => (s, None)
    end;
  clock s := time s
|}.

(** *** A shop that owns the live quantities and enforces the
    compare-and-set itself; nobody else changes them. *)
Definition Cas : Outside := {|
  ostate := gmap string Z;
  fetch_set live _ _ input :=
    match live !! Shop.in_inventoryItemId input with
    | Some q =>
        if (q =? Shop.in_compareQuantity input)%Z
        then (<[Shop.in_inventoryItemId input := Shop.in_quantity input]> live, accepted)
        else (live, stale)
    | None => (live, rejected "INVALID_INVENTORY_ITEM" "The inventory item does not exist.")
    end;
  fetch_level live _ _ item _ :=
    match live !! item with
    | Some q => (live, level q)
    | None => (live, Shop.Data (Some {| Shop.inventoryLevel := None |}))
    end;
  sheets_call live := (live, None);
  clock _ := "2025-01-01T00:00:00.000Z"
|}.

(** the environment of a deployed job *)
Definition env0 : gmap string string :=
  <["SPREADSHEET_ID" := "sheet-1"]>
  (<["SHOPIFY_STORE_DOMAIN" := "holy-tea-amsterdam.myshopify.com"]>
  (<["SHOPIFY_LOCATION_ID" := "gid://shopify/Location/66678325498"]>
  (<["SHOPIFY_ADMIN_TOKEN" := "shpat_token"]> ∅))).

Definition header : Sheet.row :=
  map JS.VStr ["Category"; "Product"; "Variant"; "SKU"; "Desired_Available";
               "Available"; "ReverseSync_Status"; "ReverseSync_LastPushedAt";
               "ReverseSync_LastError"; "InventoryItem_ID"].

(** a data row with the given desired, available and item id cells *)
Definition data_row (desired available : JS.value) (item : string) : Sheet.row :=
  [JS.VStr "Tea"; JS.VStr "Sencha"; JS.VStr "100g"; JS.VStr "SKU-1";
   desired; available; Sheet.blank; Sheet.blank; Sheet.blank; JS.VStr item].

Definition int (z : Z) : JS.value := JS.VNum (JS.Fin (inject_Z z)).

End Outsides.

(* ===================================================================== *)
(** ** Vocabulary of the statements *)
(* ===================================================================== *)

Module Terms.
Import World ReverseSync.

(** the candidates of all rows from index [i] on, with no cap *)
Fixpoint eligible_from (i : nat) (rows : list Sheet.row) : list Candidate :=
  match rows with
  | [] => []
  | row :: rest =>
      match candidate_of i row with
      | Some c => c :: eligible_from (S i) rest
      | None => eligible_from (S i) rest
      end
  end.

(** the eligible rows of a sheet, header excluded *)
Definition eligible (rows : Sheet.grid) : list Candidate :=
  eligible_from 1 (drop 1 rows).

(** the number of pushes after which the scan loop breaks, if it ever
    does: the test [candidates.length >= maxRowsPerRun] is first made
    with length 1 *)
Definition effective_cap (maxRows : JS.num) : option nat :=
  match maxRows with
  | JS.NaN | JS.PosInf => None
  | JS.NegInf => Some 1
  | JS.Fin q => Some (Nat.max 1 (Z.to_nat (Qceiling q)))
  end.

Definition take_opt {A} (o : option nat) (l : list A) : list A :=
  match o with
  | Some n => take n l
  | None => l
  end.

(** the loop has not broken after any of the first [k] pushes *)
Definition cap_open (maxRows : JS.num) (k : nat) : Prop :=
  forall j, 1 <= j <= k -> JS.length_ge j maxRows = false.

(** Following the words of the specification (section 3): a cell is a
    well-formed integer when it is a whole number, or text made of an
    optional sign and decimal digits. *)
Definition well_formed_integer (v : JS.value) : option Z :=
  match v with
  | JS.VNum (JS.Fin q) =>
      if Qeq_bool q (inject_Z (Qfloor q)) then Some (Qfloor q) else None
  | JS.VStr s =>
      let t := JS.trim s in
      let '(neg, body) :=
        match t with
        | String "-" r => (true, r)
        | String "+" r => (false, r)
        | _ => (false, t)
        end in
      match JS.span_digits body with
      | (String _ _ as ds, EmptyString) =>
          Some (if neg then - JS.digits_value ds 0 else JS.digits_value ds 0)%Z
      | _ => None
      end
  | _ => None
  end.

(** Following the words of the specification: a row is a sync candidate
    iff its item id is present and both quantities are present,
    well-formed integers and unequal. *)
Definition spec_candidate (row : Sheet.row) : bool :=
  match Sheet.cell row 9 with
  | JS.VStr (String _ _) | JS.VNum _ =>
      match well_formed_integer (Sheet.cell row 4),
            well_formed_integer (Sheet.cell row 5) with
      | Some d, Some a => negb (d =? a)%Z
      | _, _ => false
      end
  | _ => false
  end.



Definition returns {A} (r : JS.Exn + A) : Prop :=
  match r with inr _ => True | inl _ => False end.

Definition throws {A} (r : JS.Exn + A) : Prop :=
  match r with inl _ => True | inr _ => False end.

(** the environment carries a non-empty value for the variable *)
Definition env_has (env : gmap string string) (name v : string) : Prop :=
  env !! name = Some v /\ v <> EmptyString.

Definition env_lacks (env : gmap string string) (name : string) : Prop :=
  env !! name = None \/ env !! name = Some EmptyString.

(** the variables [main] requires before anything else, in order *)
Definition required : list string :=
  ["SPREADSHEET_ID"; "SHOPIFY_STORE_DOMAIN"; "SHOPIFY_LOCATION_ID";
   "SHOPIFY_ADMIN_TOKEN"].

Definition env_ready (env : gmap string string) : Prop :=
  Forall (fun n => exists v, env_has env n v) required.

Definition is_fetch_ev (ev : Event) : Prop :=
  match ev with Fetch _ _ _ => True | _ => False end.

Section WithOutside.
Context {O : Outside}.

(** the push of a candidate, as [main] issues it *)
Definition push (env : gmap string string) (c : Candidate)
  : M (option Shop.SetPayload) :=
  shopifyInventorySetAvailable env (c_inventoryItemId c) (locationId (CONFIG env))
    (c_desired c) (c_available c).

(** the records of one processed candidate in the outcome batch: those of
    a push that returned, or those of a push that threw *)
Definition outcome (env : gmap string string) (c : Candidate)
  (g : list Sheet.ValueRange) : Prop :=
  (exists w p w1, push env c w = (inr p, w1) /\
                  g = success_updates env c (clock (out w1))) \/
  (exists w err w1, push env c w = (inl err, w1) /\
                    g = error_updates env c err).

(** a computation that leaves the sheet alone and only talks to the shop *)
Definition fetch_only {A} (c : M A) : Prop :=
  forall w res w', c w = (res, w') ->
    sheet w' = sheet w /\
    exists evs, trace w' = (trace w ++ evs)%list /\ Forall is_fetch_ev evs.

(** the world right after the read of the sheet *)
Definition after_get (env : gmap string string) (w : world) (o : ostate) : world :=
  {| out := o; sheet := sheet w;
     trace := trace w ++
       [SheetsGet (spreadsheetId (CONFIG env)) (sheetName (CONFIG env) ++ "!A:Z")] |}.

(** the events a computation added to the trace *)
Definition new_events (w w' : world) : list Event :=
  drop (length (trace w)) (trace w').

Definition is_write (ev : Event) : bool :=
  match ev with SheetsBatchUpdate _ _ => true | _ => false end.

Definition is_set (ev : Event) : bool :=
  match ev with Fetch _ _ (InventorySet _) => true | _ => false end.

(** item, quantity and precondition of every mutation posted *)
Definition pushed (evs : list Event) : list (string * Z * Z) :=
  flat_map (fun ev =>
    match ev with
    | Fetch _ _ (InventorySet input) =>
        [(Shop.in_inventoryItemId input, Shop.in_quantity input,
          Shop.in_compareQuantity input)]
    | _ => []
    end) evs.

(** some bulk write carries an ERROR value *)
Definition is_error_value (v : JS.value) : bool :=
  match v with
  | JS.VStr s => String.eqb s "ERROR"
  | _ => false
  end.

Definition wrote_error (evs : list Event) : bool :=
  existsb (fun ev =>
    match ev with
    | SheetsBatchUpdate _ data =>
        existsb (fun u => is_error_value (Sheet.vr_value u)) data
    | _ => false
    end) evs.

(** the rows a bulk write touches *)
Definition written_rows (ev : Event) : list nat :=
  match ev with
  | SheetsBatchUpdate _ data => map Sheet.vr_row data
  | _ => []
  end.

End WithOutside.

(** the cell in sheet row [r] (1-based) and column [c] (0-based) *)
Definition cell_at (g : Sheet.grid) (r c : nat) : JS.value :=
  match r with
  | O => JS.VUndefined
  | S i => match g !! i with
           | Some row => Sheet.cell row c
           | None => JS.VUndefined
           end
  end.

(** an update is addressed to the cell in row [r], column [c] *)
Definition targets (u : Sheet.ValueRange) (r c : nat) : Prop :=
  Sheet.vr_row u = r /\ Sheet.col_index (Sheet.vr_col u) = c.

(** an update addresses a cell that exists in the grid *)
Definition in_grid (g : Sheet.grid) (u : Sheet.ValueRange) : Prop :=
  exists i row, Sheet.vr_row u = S i /\ g !! i = Some row /\
                Sheet.col_index (Sheet.vr_col u) < length row.

(** the variables a push requires, in the order it checks them *)
Definition push_variables : list string :=
  ["SHOPIFY_STORE_DOMAIN"; "SHOPIFY_ADMIN_TOKEN"; "SHOPIFY_LOCATION_ID"].

(** a call to the shop made for the push of quantity [qty] for [item] at
    [loc]: a mutation with exactly these (whatever its precondition), or
    a level query for the item at the location *)
Definition call_for (item : string) (loc : option string) (qty : Z)
  (ev : Event) : Prop :=
  match ev with
  | Fetch _ _ (InventorySet i) =>
      i = set_input item loc qty (Shop.in_compareQuantity i)
  | Fetch _ _ (GetInventoryLevel it l) => it = item /\ l = loc
  | _ => False
  end.

(** the precondition of the first call, when it is a mutation *)
Definition first_precondition (evs : list Event) : option Z :=
  match evs with
  | Fetch _ _ (InventorySet i) :: _ => Some (Shop.in_compareQuantity i)
  | _ => None
  end.

Definition is_call (ev : Event) : bool :=
  match ev with Fetch _ _ _ => true | _ => false end.

(** the calls made for one candidate of a run: at most three, each for
    the candidate's item and desired quantity at the configured location,
    the first one guarded by the row's available quantity *)
Definition candidate_calls (env : gmap string string) (c : Candidate)
  (evs : list Event) : Prop :=
  length evs <= 3 /\
  Forall (call_for (c_inventoryItemId c) (locationId (CONFIG env)) (c_desired c)) evs /\
  (evs <> [] -> first_precondition evs = Some (c_available c)).

(** every character of the text is a decimal digit *)
Fixpoint all_digits (s : string) : bool :=
  match s with
  | EmptyString => true
  | String c r => JS.is_digit c && all_digits r
  end.

(** the text is made of bytes below 128, none of them white space *)
Fixpoint no_space (s : string) : bool :=
  match s with
  | EmptyString => true
  | String c r =>
      (JS.byte c <? 128)%N && negb (JS.is_space (JS.byte c)) && no_space r
  end.

(** the text begins with no continuation byte: put after another text, it
    completes none of its characters *)
Definition clean (z : string) : Prop :=
  match z with
  | String c _ => JS.is_cont c = false
  | EmptyString => True
  end.

End Terms.

(* ===================================================================== *)
(** ** Sample sheets, environments and worlds *)
(* ===================================================================== *)

Module Samples.
Import World ReverseSync Outsides.

(** a sheet with one data row whose desired cell reads 7.9 *)
Definition fractional_sheet : Sheet.grid :=
  [header; data_row (JS.VStr "7.9") (int 10) "gid://A"].

(** that sheet in front of a shop holding 10 of the item *)
Definition fractional_world : @world Cas :=
  @Build_world Cas ({["gid://A" := 10%Z]} : gmap string Z) fractional_sheet [].

(** two eligible rows *)
Definition two_row_sheet : Sheet.grid :=
  [header; data_row (int 7) (int 10) "gid://A"; data_row (int 4) (int 5) "gid://B"].

Definition two_row_world : @world Cas :=
  @Build_world Cas (<["gid://A" := 10%Z]> {["gid://B" := 5%Z]} : gmap string Z)
    two_row_sheet [].



(** a row store that serves the read and rejects the next call *)
Definition rejecting_world : @world Scripted :=
  @Build_world Scripted
    {| set_answers := []; level_answers := [];
       sheets_answers := [None; Some (JS.Error "Quota exceeded")];
       time := "2025-01-01T00:00:00.000Z" |}
    [header; data_row (int 7) (int 10) "gid://A"] [].

(** a shop that rejects the mutation for a reason other than staleness *)
Definition failing_world : @world Scripted :=
  @Build_world Scripted
    {| set_answers := [rejected "INVALID_INVENTORY_ITEM" "The inventory item does not exist."];
       level_answers := []; sheets_answers := [];
       time := "2025-01-01T00:00:00.000Z" |}
    [header; data_row (int 7) (int 10) "gid://A"] [].

(** what the push of the only candidate comes to in that world *)
Definition failing_push : (JS.Exn + option Shop.SetPayload) * @world Scripted :=
  @shopifyInventorySetAvailable Scripted env0 "gid://A"
    (Some "gid://shopify/Location/66678325498") 7 10 failing_world.

Definition failing_error : JS.Exn :=
  match fst failing_push with
  | inl e => e
  | inr _ => JS.Error EmptyString
  end.

Definition candidate_A : Candidate :=
  {| rowIndex1Based := 2; c_inventoryItemId := "gid://A";
     c_desired := 7; c_available := 10 |}.

(** the scenarios of the specification: one row with available 10 and
    desired 7, in front of a shop whose live quantity is 10 (A), has
    drifted to 8 (B), or that does not know the item (C) *)
Definition scenario_sheet : Sheet.grid :=
  [header; data_row (int 7) (int 10) "gid://A"].

Definition scenario_world (live : gmap string Z) : @world Cas :=
  @Build_world Cas live scenario_sheet [].

Definition scenario_A : @world Cas := scenario_world {["gid://A" := 10%Z]}.
Definition scenario_B : @world Cas := scenario_world {["gid://A" := 8%Z]}.
Definition scenario_C : @world Cas := scenario_world ∅.

(** the deployed environment without the access token *)
Definition env_no_token : gmap string string :=
  delete "SHOPIFY_ADMIN_TOKEN" env0.

(** a row store that serves the read and the PENDING batch and rejects
    the outcome batch; the shop accepts the mutation *)
Definition stranded_world : @world Scripted :=
  @Build_world Scripted
    {| set_answers := []; level_answers := [];
       sheets_answers := [None; None; Some (JS.Error "Quota exceeded")];
       time := "2025-01-01T00:00:00.000Z" |}
    [header; data_row (int 7) (int 10) "gid://A"] [].

(** a sheet that holds its header row only *)
Definition header_only_world : @world Cas :=
  @Build_world Cas ∅ [header] [].

(** three eligible rows *)
Definition three_row_sheet : Sheet.grid :=
  [header; data_row (int 7) (int 10) "gid://A"; data_row (int 4) (int 5) "gid://B";
   data_row (int 1) (int 2) "gid://C"].

(** the deployed environment with an explicit per-run maximum *)
Definition env_max (n : string) : gmap string string :=
  <["MAX_ROWS_PER_RUN" := n]> env0.

(** a text from its bytes *)
Definition of_bytes (l : list nat) : string :=
  fold_right (fun n acc => String (ascii_of_nat n) acc) EmptyString l.

(** white space outside ASCII: U+00A0 (as its UTF-8 sequence, and as the
    lone byte 160), U+FEFF, U+2003, U+2028, U+3000 *)
Definition nbsp : string := of_bytes [194; 160].
Definition nbsp_unit : string := of_bytes [160].
Definition bom : string := of_bytes [239; 187; 191].
Definition em_space : string := of_bytes [226; 128; 131].
Definition line_separator : string := of_bytes [226; 128; 168].
Definition ideographic_space : string := of_bytes [227; 128; 128].

(** characters that are not white space: U+200B (zero width space),
    U+0085 (next line), U+00E9, and U+1F600, which is two code units *)
Definition zero_width_space : string := of_bytes [226; 128; 139].
Definition next_line : string := of_bytes [194; 133].
Definition e_acute : string := of_bytes [195; 169].
Definition grinning_face : string := of_bytes [240; 159; 152; 128].

End Samples.

(* ===================================================================== *)
(** ** The candidate scan *)
(* ===================================================================== *)

Import World ReverseSync Terms Samples.

Lemma candidate_of_row_index i row c :
  candidate_of i row = Some c -> rowIndex1Based c = i + 1.
Proof.
  unfold candidate_of.
  destruct (JS.truthy (Sheet.cell row 9)); [|discriminate].
  destruct (JS.trim _); [discriminate|].
  destruct (normalizeInt (Sheet.cell row 4)); [|discriminate].
  destruct (normalizeInt (Sheet.cell row 5)); [|discriminate].
  destruct (z =? z0)%Z; [discriminate|].
  intros [= <-]. reflexivity.
Qed.

(** what makes a row contribute a candidate *)
Lemma candidate_of_iff i row c :
  candidate_of i row = Some c <->
  JS.truthy (Sheet.cell row 9) = true /\
  c_inventoryItemId c <> EmptyString /\
  c_inventoryItemId c = JS.trim (JS.String_ (Sheet.cell row 9)) /\
  normalizeInt (Sheet.cell row 4) = Some (c_desired c) /\
  normalizeInt (Sheet.cell row 5) = Some (c_available c) /\
  c_desired c <> c_available c /\
  rowIndex1Based c = i + 1.
Proof.
  unfold candidate_of. split.
  - destruct (JS.truthy (Sheet.cell row 9)); [|discriminate].
    destruct (JS.trim _) eqn:Et; [discriminate|].
    destruct (normalizeInt (Sheet.cell row 4)); [|discriminate].
    destruct (normalizeInt (Sheet.cell row 5)); [|discriminate].
    destruct (Z.eqb_spec z z0); [discriminate|].
    intros [= <-]. cbn. repeat split; try reflexivity; try assumption.
    discriminate.
  - intros (Ht & Hne & Hid & Hd & Ha & Hda & Hi).
    rewrite Ht, <- Hid, Hd, Ha.
    destruct (c_inventoryItemId c) eqn:Eg; [contradiction|].
    destruct (Z.eqb_spec (c_desired c) (c_available c)); [contradiction|].
    destruct c; cbn in *; subst. reflexivity.
Qed.

Lemma Qle_bool_ceiling q (k : nat) :
  Qle_bool q (inject_Z (Z.of_nat k)) = true <-> (Qceiling q <= Z.of_nat k)%Z.
Proof.
  rewrite Qle_bool_iff. split.
  - intros H.
    assert (L : (inject_Z (Qceiling q - 1) < inject_Z (Z.of_nat k))%Q).
    { eapply Qlt_le_trans; [apply Qceiling_lt | exact H]. }
    rewrite <- Zlt_Qlt in L. lia.
  - intros H. eapply Qle_trans; [apply Qle_ceiling|].
    rewrite <- Zle_Qle. exact H.
Qed.

(** the break test in terms of the effective cap *)
Lemma length_ge_effective_cap maxRows k :
  1 <= k ->
  (JS.length_ge k maxRows = true <->
   exists n, effective_cap maxRows = Some n /\ n <= k).
Proof.
  intros Hk. destruct maxRows as [| | |q]; cbn.
  - split; [discriminate | intros (n & [=] & _)].
  - split; [discriminate | intros (n & [=] & _)].
  - split; [intros _; exists 1; split; [reflexivity | lia] | reflexivity].
  - rewrite Qle_bool_ceiling. split.
    + intros H. eexists; split; [reflexivity | lia].
    + intros (n & [= <-] & Hn). lia.
Qed.

Lemma length_ge_false_cap maxRows k :
  1 <= k ->
  (JS.length_ge k maxRows = false <->
   match effective_cap maxRows with Some n => k < n | None => True end).
Proof.
  intros Hk. pose proof (length_ge_effective_cap maxRows k Hk) as H.
  destruct (JS.length_ge k maxRows).
  - split; [discriminate|]. destruct H as [H _].
    destruct (H eq_refl) as (n & -> & Hn). lia.
  - split; [|reflexivity]. intros _.
    destruct (effective_cap maxRows) as [n|]; [|exact I].
    destruct (le_lt_dec n k) as [Hle|Hlt]; [|exact Hlt].
    destruct H as [_ H]. discriminate H. eauto.
Qed.

Lemma cap_open_iff maxRows k :
  cap_open maxRows k <->
  match effective_cap maxRows with Some n => k < n | None => True end.
Proof.
  unfold cap_open. split.
  - intros H. destruct k as [|k].
    + destruct (effective_cap maxRows) as [n|] eqn:E; [|exact I].
      destruct maxRows as [| | |q]; cbn in E; inversion E; lia.
    + apply length_ge_false_cap; [lia|]. apply H. lia.
  - intros H j Hj. apply length_ge_false_cap; [lia|].
    destruct (effective_cap maxRows); [lia | exact I].
Qed.

(** the scan loop pushes the eligible rows in order until the cap *)
Lemma scan_from_spec maxRows rows : forall i acc,
  (length acc = 0 \/ JS.length_ge (length acc) maxRows = false) ->
  scan_from maxRows i rows acc =
  (acc ++ take_opt (option_map (fun n => n - length acc) (effective_cap maxRows))
                   (eligible_from i rows))%list.
Proof.
  induction rows as [|row rest IH]; intros i acc Hacc; cbn [scan_from eligible_from].
  - destruct (effective_cap maxRows); cbn; [rewrite take_nil|]; now rewrite app_nil_r.
  - destruct (candidate_of i row) as [c|]; [|apply IH; exact Hacc].
    assert (Hlen : length (acc ++ [c]) = S (length acc))
      by (rewrite length_app; cbn; lia).
    rewrite Hlen.
    assert (Hopen : match effective_cap maxRows with
                    | Some n => length acc < n | None => True end).
    { destruct Hacc as [H0|Hf].
      - rewrite H0. destruct maxRows; cbn; try exact I; lia.
      - destruct (length acc) eqn:El.
        + destruct maxRows; cbn; try exact I; lia.
        + apply length_ge_false_cap in Hf; [exact Hf | lia]. }
    destruct (JS.length_ge (S (length acc)) maxRows) eqn:Hge.
    + apply length_ge_effective_cap in Hge; [|lia].
      destruct Hge as (n & En & Hn). rewrite En in *. cbn.
      replace (n - length acc) with 1 by lia. reflexivity.
    + rewrite IH by (right; rewrite Hlen; exact Hge).
      rewrite Hlen, <- app_assoc. f_equal.
      apply length_ge_false_cap in Hge; [|lia].
      destruct (effective_cap maxRows) as [n|]; cbn; [|reflexivity].
      replace (n - length acc) with (S (n - S (length acc))) by lia.
      reflexivity.
Qed.

Lemma scan_spec maxRows rows :
  scan maxRows rows = take_opt (effective_cap maxRows) (eligible rows).
Proof.
  unfold scan, eligible. rewrite scan_from_spec by (left; reflexivity).
  cbn. destruct (effective_cap maxRows); cbn; [|reflexivity].
  now rewrite Nat.sub_0_r.
Qed.

(** X1.  For a per-run maximum that is a whole number [N >= 1], the scan
    returns exactly the first [N] eligible rows, in row order (all of
    them when fewer than [N] are eligible). *)
Lemma scan_first_N (N : nat) rows :
  1 <= N ->
  scan (JS.Fin (inject_Z (Z.of_nat N))) rows = take N (eligible rows).
Proof.
  intros HN. rewrite scan_spec. cbn.
  replace (Qceiling (inject_Z (Z.of_nat N))) with (Z.of_nat N).
  - rewrite Nat2Z.id. now replace (Nat.max 1 N) with N by lia.
  - unfold Qceiling, Qfloor. cbn. rewrite Z.div_1_r. lia.
Qed.

Lemma In_take_eligible rows : forall i n c,
  In c (take n (eligible_from i rows)) <->
  exists j row, rows !! j = Some row /\ candidate_of (i + j) row = Some c /\
                length (eligible_from i (take j rows)) < n.
Proof.
  induction rows as [|r rest IH]; intros i n c.
  - cbn. rewrite take_nil. split; [contradiction|].
    intros (j & row & H & _). discriminate H.
  - cbn [eligible_from]. destruct (candidate_of i r) as [c0|] eqn:E0.
    + destruct n as [|n].
      * cbn. split; [contradiction | intros (j & row & _ & _ & H); lia].
      * cbn [take In]. rewrite IH. split.
        -- intros [<- | (j & row & Hj & Hc & Hl)].
           ++ exists 0, r. rewrite Nat.add_0_r. cbn. repeat split; [assumption|lia].
           ++ exists (S j), row. cbn. rewrite E0. cbn.
              replace (i + S j) with (S i + j) by lia. repeat split; [assumption..|lia].
        -- intros (j & row & Hj & Hc & Hl). destruct j as [|j].
           ++ cbn in Hj. injection Hj as <-. rewrite Nat.add_0_r in Hc.
              left. congruence.
           ++ right. exists j, row. cbn in Hj, Hl. rewrite E0 in Hl. cbn in Hl.
              replace (S i + j) with (i + S j) by lia.
              repeat split; [assumption..|lia].
    + rewrite IH. split.
      * intros (j & row & Hj & Hc & Hl). exists (S j), row. cbn. rewrite E0.
        replace (i + S j) with (S i + j) by lia. repeat split; assumption.
      * intros (j & row & Hj & Hc & Hl). destruct j as [|j].
        -- cbn in Hj. injection Hj as <-. rewrite Nat.add_0_r in Hc. congruence.
        -- exists j, row. cbn in Hj, Hl. rewrite E0 in Hl.
           replace (S i + j) with (i + S j) by lia. repeat split; assumption.
Qed.

Lemma length_eligible_from_le rows : forall i,
  length (eligible_from i rows) <= length rows.
Proof.
  induction rows as [|r rest IH]; intros i; cbn; [lia|].
  destruct (candidate_of i r); cbn; specialize (IH (S i)); lia.
Qed.

Lemma In_take_opt_eligible o rows i c :
  In c (take_opt o (eligible_from i rows)) <->
  exists j row, rows !! j = Some row /\ candidate_of (i + j) row = Some c /\
                match o with
                | Some n => length (eligible_from i (take j rows)) < n
                | None => True
                end.
Proof.
  destruct o as [n|]; cbn; [apply In_take_eligible|].
  rewrite <- (take_ge (eligible_from i rows) (S (length rows)))
    by (pose proof (length_eligible_from_le rows i); lia).
  rewrite In_take_eligible. split.
  - intros (j & row & ? & ? & _). eauto.
  - intros (j & row & Hj & Hc & _). exists j, row. repeat split; [assumption..|].
    pose proof (length_eligible_from_le (take j rows) i).
    pose proof (length_take_le rows j). rewrite length_take in *. lia.
Qed.

Lemma scan_unbounded_prefix i rows :
  1 <= i ->
  scan JS.PosInf (take i rows) = eligible_from 1 (take (i - 1) (drop 1 rows)).
Proof.
  intros Hi. rewrite scan_spec. cbn. unfold eligible.
  now rewrite skipn_firstn_comm.
Qed.

(** membership in the scan, row by row *)
Lemma In_scan maxRows rows c :
  In c (scan maxRows rows) <->
  exists i row, 1 <= i /\ rows !! i = Some row /\ candidate_of i row = Some c /\
                cap_open maxRows (length (scan JS.PosInf (take i rows))).
Proof.
  rewrite scan_spec. unfold eligible. rewrite In_take_opt_eligible. split.
  - intros (j & row & Hj & Hc & Hn). exists (1 + j), row.
    rewrite lookup_drop in Hj. repeat split; [lia | assumption..|].
    rewrite cap_open_iff, scan_unbounded_prefix by lia.
    replace (1 + j - 1) with j by lia. exact Hn.
  - intros (i & row & Hi & Hr & Hc & Hn). exists (i - 1), row.
    rewrite lookup_drop. replace (1 + (i - 1)) with i by lia.
    repeat split; [assumption..|].
    rewrite cap_open_iff, scan_unbounded_prefix in Hn by lia. exact Hn.
Qed.

(** every candidate of a scan sits on a data row of the snapshot that
    holds at least ten cells *)
Lemma scan_candidate_row maxRows rows c :
  In c (scan maxRows rows) ->
  exists i row, rowIndex1Based c = S i /\ rows !! i = Some row /\
                candidate_of i row = Some c /\ 9 < length row.
Proof.
  rewrite In_scan. intros (i & row & Hi & Hr & Hc & _).
  exists i, row. repeat split; try assumption.
  - rewrite (candidate_of_row_index _ _ _ Hc). lia.
  - apply candidate_of_iff in Hc as (Ht & _).
    unfold Sheet.cell in Ht. destruct (row !! 9) eqn:E; [|discriminate].
    apply lookup_lt_Some in E. exact E.
Qed.

(** the Sheets API leaves out the empty cells that end a row; the scan
    reads an absent cell and an empty one alike *)
Lemma cell_pad n (row : Sheet.row) k :
  Sheet.cell (Sheet.pad n row) k = Sheet.cell row k \/
  (Sheet.cell (Sheet.pad n row) k = Sheet.blank /\
   Sheet.cell row k = JS.VUndefined).
Proof.
  unfold Sheet.pad, Sheet.cell.
  destruct (decide (k < length row)) as [Hlt|Hge].
  - left. now rewrite lookup_app_l.
  - rewrite lookup_app_r by lia.
    rewrite (lookup_ge_None_2 row k) by lia.
    destruct (replicate _ _ !! _) as [v|] eqn:E; [|now left].
    apply lookup_replicate in E as [-> _]. now right.
Qed.

Lemma candidate_of_pad i n (row : Sheet.row) :
  candidate_of i (Sheet.pad n row) = candidate_of i row.
Proof.
  unfold candidate_of.
  destruct (cell_pad n row 4) as [-> | [-> ->]];
    destruct (cell_pad n row 5) as [-> | [-> ->]];
    destruct (cell_pad n row 9) as [-> | [-> ->]]; try reflexivity;
    destruct (JS.truthy _); try reflexivity;
    destruct (JS.trim _); try reflexivity;
    destruct (normalizeInt _); reflexivity.
Qed.

(** a per-run maximum of zero or less is where the late test of the cap
    shows; above zero (or when the maximum is not a number) the loop has
    not broken before a row iff fewer rows than the maximum were found
    eligible above it *)
Lemma cap_open_positive maxRows k :
  JS.length_ge 0 maxRows = false ->
  (cap_open maxRows k <-> JS.length_ge k maxRows = false).
Proof.
  intros H0. destruct k as [|k].
  - split; [intros _; exact H0 | intros _ j Hj; lia].
  - rewrite cap_open_iff. symmetry. apply length_ge_false_cap. lia.
Qed.

Lemma scan_unbounded rows : scan JS.PosInf rows = eligible rows.
Proof. rewrite scan_spec. reflexivity. Qed.

(** C2 (as amended).  For a per-run maximum that is not zero or negative,
    and every data row of the snapshot (index [i >= 1], sheet row
    [i + 1]): the scan selects the row iff its item-id cell is truthy and
    non-empty once trimmed, [normalizeInt] gives a number for both the
    desired and the available cell (any finite number, truncated toward
    zero; not only well-formed integers), the two numbers differ, and the
    number of eligible rows above it has not reached the maximum. *)
Theorem scan_selects_iff maxRows (rows : Sheet.grid) i (row : Sheet.row) :
  JS.length_ge 0 maxRows = false ->
  rows !! i = Some row ->
  1 <= i ->
  ((exists c, In c (scan maxRows rows) /\ rowIndex1Based c = i + 1) <->
   JS.truthy (Sheet.cell row 9) = true /\
   JS.trim (JS.String_ (Sheet.cell row 9)) <> EmptyString /\
   (exists d a, normalizeInt (Sheet.cell row 4) = Some d /\
                normalizeInt (Sheet.cell row 5) = Some a /\ d <> a) /\
   JS.length_ge (length (eligible (take i rows))) maxRows = false).
Proof.
  intros Hmax Hrow Hi.
  rewrite <- scan_unbounded, <- (cap_open_positive maxRows _ Hmax). split.
  - intros (c & Hin & Hidx). apply In_scan in Hin.
    destruct Hin as (i' & row' & Hi' & Hr' & Hc' & Hcap).
    pose proof (candidate_of_row_index _ _ _ Hc') as Hidx'.
    assert (i' = i) by lia. subst i'.
    assert (row' = row) by congruence. subst row'.
    apply candidate_of_iff in Hc' as (Ht & Hne & Hid & Hd & Ha & Hda & _).
    repeat split; try assumption.
    + rewrite <- Hid. exact Hne.
    + eauto.
  - intros (Ht & Hne & (d & a & Hd & Ha & Hda) & Hcap).
    set (c := {| rowIndex1Based := i + 1;
                 c_inventoryItemId := JS.trim (JS.String_ (Sheet.cell row 9));
                 c_desired := d; c_available := a |}).
    exists c. split; [|reflexivity].
    apply In_scan. exists i, row. repeat split; try assumption.
    apply candidate_of_iff. cbn. repeat split; assumption.
Qed.

Lemma scan_selects_iff_witness :
  (exists c, In c (scan (JS.Fin 50) fractional_sheet) /\ rowIndex1Based c = 1 + 1) <->
  JS.truthy (JS.VStr "gid://A") = true /\
  JS.trim "gid://A" <> EmptyString /\
  (exists d a, normalizeInt (JS.VStr "7.9") = Some d /\
               normalizeInt (Outsides.int 10) = Some a /\ d <> a) /\
  JS.length_ge (length (eligible (take 1 fractional_sheet))) (JS.Fin 50) = false.
Proof.
  apply (scan_selects_iff (JS.Fin 50) fractional_sheet 1
           (Outsides.data_row (JS.VStr "7.9") (Outsides.int 10) "gid://A")).
  - reflexivity.
  - reflexivity.
  - lia.
Defined.

(** C2 (as stated) fails: the row whose desired cell is the text 7.9 is
    selected, although that cell is not a well-formed integer. *)
Lemma scan_selects_fractional_row :
  ~ ((exists c, In c (scan (JS.Fin 50) fractional_sheet) /\ rowIndex1Based c = 2) <->
     spec_candidate
       (Outsides.data_row (JS.VStr "7.9") (Outsides.int 10) "gid://A") = true).
Proof.
  intros [H _].
  assert (Hsel : exists c, In c (scan (JS.Fin 50) fractional_sheet) /\
                           rowIndex1Based c = 2).
  { exists {| rowIndex1Based := 2; c_inventoryItemId := "gid://A";
              c_desired := 7; c_available := 10 |}.
    split; [|reflexivity]. vm_compute. left. reflexivity. }
  specialize (H Hsel). vm_compute in H. discriminate H.
Qed.

(** ** [normalizeInt] *)

Lemma normalizeInt_null_iff v :
  normalizeInt v = None <->
  v = JS.VNull \/ v = JS.VUndefined \/
  JS.trim (JS.String_ v) = EmptyString \/
  JS.isFinite (JS.Number (JS.trim (JS.String_ v))) = false.
Proof.
  unfold normalizeInt. split.
  - destruct v; auto;
      (destruct (JS.trim _) eqn:Et; [auto|];
       destruct (JS.Number _) eqn:En; cbn; auto; discriminate).
  - intros [-> | [-> | [H | H]]]; try reflexivity.
    + destruct v; try reflexivity; now rewrite H.
    + destruct v; try reflexivity;
        (destruct (JS.trim _); [reflexivity|];
         destruct (JS.Number _); try reflexivity; discriminate).
Qed.

Lemma normalizeInt_finite v q :
  v <> JS.VNull -> v <> JS.VUndefined ->
  JS.trim (JS.String_ v) <> EmptyString ->
  JS.Number (JS.trim (JS.String_ v)) = JS.Fin q ->
  normalizeInt v = Some (JS.trunc q).
Proof.
  intros Hn Hu Ht Hq. unfold normalizeInt.
  destruct v; try contradiction;
    (destruct (JS.trim _) eqn:Et; [contradiction|]; now rewrite Hq).
Qed.

(** C10.  [normalizeInt] returns null exactly for null, undefined, a
    value that is empty once trimmed and a value whose [Number] is not
    finite; every other value gives its number truncated toward zero.  So
    the cell text 7.9 is not excluded: it becomes 7, the row is a
    candidate, and 7 is the quantity pushed to the shop.  Trimming strips
    every WhiteSpace and LineTerminator character, U+00A0, U+FEFF and the
    other non-ASCII ones included: 7.9 between such characters is read as
    7, and a cell made of them only as null. *)
Theorem normalizeInt_truncates :
  (forall v,
     normalizeInt v = None <->
     v = JS.VNull \/ v = JS.VUndefined \/
     JS.trim (JS.String_ v) = EmptyString \/
     JS.isFinite (JS.Number (JS.trim (JS.String_ v))) = false) /\
  (forall s q,
     JS.trim s <> EmptyString -> JS.Number (JS.trim s) = JS.Fin q ->
     normalizeInt (JS.VStr s) = Some (JS.trunc q)) /\
  JS.Number "7.9" = JS.Fin (4447304632028365 # 562949953421312) /\
  normalizeInt (JS.VStr "7.9") = Some 7%Z /\
  normalizeInt (JS.VStr "-7.9") = Some (-7)%Z /\
  normalizeInt (JS.VStr (nbsp ++ " 7.9" ++ em_space ++ nbsp_unit)) = Some 7%Z /\
  normalizeInt (JS.VStr (nbsp ++ bom ++ line_separator)) = None /\
  scan (JS.Fin 50) fractional_sheet =
    [ {| rowIndex1Based := 2; c_inventoryItemId := "gid://A";
         c_desired := 7; c_available := 10 |} ] /\
  pushed (trace (snd (@run Outsides.Cas Outsides.env0 fractional_world))) =
    [ ("gid://A", 7%Z, 10%Z) ].
Proof.
  split; [exact normalizeInt_null_iff|].
  split.
  { intros s q Ht Hq. apply normalizeInt_finite; try discriminate; assumption. }
  repeat apply conj; vm_compute; reflexivity.
Qed.

(** ** The per-run cap *)

(** C6 at the failing input.  With [MAX_ROWS_PER_RUN=0] and two eligible
    rows, more rows are eligible than the maximum allows, yet the scan
    selects one row, not none, and the job pushes it and writes to its
    sheet row: the cap is only tested after a candidate has been
    pushed. *)
Theorem cap_zero_still_selects_one :
  maxRowsPerRun (CONFIG (env_max "0")) = JS.Fin 0 /\
  length (eligible two_row_sheet) = 2 /\
  scan (maxRowsPerRun (CONFIG (env_max "0"))) two_row_sheet =
    [ {| rowIndex1Based := 2; c_inventoryItemId := "gid://A";
         c_desired := 7; c_available := 10 |} ] /\
  pushed (trace (snd (@run Outsides.Cas (env_max "0") two_row_world))) =
    [ ("gid://A", 7%Z, 10%Z) ] /\
  flat_map written_rows (trace (snd (@run Outsides.Cas (env_max "0") two_row_world))) =
    [2; 2; 2; 2; 2].
Proof.
  repeat apply conj; vm_compute; reflexivity.
Qed.

(* ===================================================================== *)
(** ** The push of one candidate *)
(* ===================================================================== *)

Section Push.
Context {O : Outside}.
Variable env : gmap string string.

Lemma requireEnv_has name v (w : world) :
  env_has env name v -> requireEnv env name w = (inr v, w).
Proof.
  intros [H Hne]. unfold requireEnv. rewrite H.
  destruct v; [contradiction | reflexivity].
Qed.

Lemma requireEnv_lacks name (w : world) :
  env_lacks env name ->
  requireEnv env name w = (inl (JS.Error ("Missing env var: " ++ name)), w).
Proof. intros [H | H]; unfold requireEnv; rewrite H; reflexivity. Qed.

Lemma env_has_or_lacks name :
  (exists v, env_has env name v) \/ env_lacks env name.
Proof.
  unfold env_has, env_lacks. destruct (env !! name) as [[|a s]|].
  - right. right. reflexivity.
  - left. eexists. split; [reflexivity | discriminate].
  - right. left. reflexivity.
Qed.

Lemma new_events_app (w w' : world) evs :
  trace w' = (trace w ++ evs)%list -> new_events w w' = evs.
Proof. intros H. unfold new_events. rewrite H. apply drop_app_length. Qed.

(** *** Computations that only talk to the shop *)

Lemma fetch_only_ret {A} (a : A) : fetch_only (ret a).
Proof.
  intros w res w' [= <- <-]. split; [reflexivity|].
  exists []. now rewrite app_nil_r.
Qed.

Lemma fetch_only_lift {A} (r : JS.Exn + A) : fetch_only (lift r).
Proof.
  intros w res w' [= <- <-]. split; [reflexivity|].
  exists []. now rewrite app_nil_r.
Qed.

Lemma fetch_only_throw {A} e : fetch_only (@throw O A e).
Proof. apply (fetch_only_lift (inl e)). Qed.

Lemma fetch_only_bind {A B} (c : M A) (k : A -> M B) :
  fetch_only c -> (forall a, fetch_only (k a)) -> fetch_only (bind c k).
Proof.
  intros Hc Hk w res w'. unfold bind.
  destruct (c w) as [[e|a] w1] eqn:Ec; intros H.
  - injection H as <- <-. exact (Hc _ _ _ Ec).
  - destruct (Hc _ _ _ Ec) as (Hs1 & evs1 & Ht1 & Hf1).
    destruct (Hk a _ _ _ H) as (Hs2 & evs2 & Ht2 & Hf2).
    split; [congruence|]. exists (evs1 ++ evs2)%list. split.
    + rewrite Ht2, Ht1. now rewrite app_assoc.
    + apply Forall_app. now split.
Qed.

Lemma fetch_only_try_catch {A} (c : M A) (h : JS.Exn -> M A) :
  fetch_only c -> (forall e, fetch_only (h e)) -> fetch_only (try_catch c h).
Proof.
  intros Hc Hh w res w'. unfold try_catch.
  destruct (c w) as [[e|a] w1] eqn:Ec; intros H.
  - destruct (Hc _ _ _ Ec) as (Hs1 & evs1 & Ht1 & Hf1).
    destruct (Hh e _ _ _ H) as (Hs2 & evs2 & Ht2 & Hf2).
    split; [congruence|]. exists (evs1 ++ evs2)%list. split.
    + rewrite Ht2, Ht1. now rewrite app_assoc.
    + apply Forall_app. now split.
  - injection H as <- <-. exact (Hc _ _ _ Ec).
Qed.

Lemma fetch_only_requireEnv name : fetch_only (requireEnv env name).
Proof.
  unfold requireEnv. destruct (env !! name) as [[|a s]|];
    first [apply fetch_only_ret | apply fetch_only_throw].
Qed.

Lemma fetch_only_nowIso : fetch_only nowIso.
Proof.
  intros w res w' [= <- <-]. split; [reflexivity|].
  exists []. now rewrite app_nil_r.
Qed.

Lemma fetch_only_post_set url tok input : fetch_only (post_set url tok input).
Proof.
  intros w res w'. unfold post_set.
  destruct (fetch_set (out w) url tok input) as [o r].
  intros [= <- <-]. split; [reflexivity|]. cbn.
  eexists. split; [reflexivity|]. repeat constructor.
Qed.

Lemma fetch_only_post_level url tok item loc :
  fetch_only (post_level url tok item loc).
Proof.
  intros w res w'. unfold post_level.
  destruct (fetch_level (out w) url tok item loc) as [o r].
  intros [= <- <-]. split; [reflexivity|]. cbn.
  eexists. split; [reflexivity|]. repeat constructor.
Qed.

Lemma fetch_only_shopifyGraphql {D} (post : string -> string -> M (Shop.Http D)) :
  (forall url tok, fetch_only (post url tok)) ->
  fetch_only (shopifyGraphql env post).
Proof.
  intros Hp. unfold shopifyGraphql.
  repeat (apply fetch_only_bind; [auto using fetch_only_requireEnv | intros ?]).
  apply fetch_only_lift.
Qed.

Lemma fetch_only_runOnce item loc qty cmp :
  fetch_only (runOnce env item loc qty cmp).
Proof.
  unfold runOnce. apply fetch_only_bind.
  - apply fetch_only_shopifyGraphql. intros. apply fetch_only_post_set.
  - intros. apply fetch_only_ret.
Qed.

Lemma fetch_only_getCurrent item loc :
  fetch_only (getCurrentAvailableQuantity env item loc).
Proof.
  unfold getCurrentAvailableQuantity. apply fetch_only_bind.
  - apply fetch_only_shopifyGraphql. intros. apply fetch_only_post_level.
  - intros d. destruct (Shop.available_of d);
      [apply fetch_only_ret | apply fetch_only_throw].
Qed.

Lemma fetch_only_setAvailable item loc qty cmp :
  fetch_only (shopifyInventorySetAvailable env item loc qty cmp).
Proof.
  unfold shopifyInventorySetAvailable.
  do 3 (apply fetch_only_bind; [apply fetch_only_requireEnv | intros ?]).
  apply fetch_only_bind; [apply fetch_only_runOnce | intros r1].
  apply fetch_only_bind.
  - destruct (snd r1); [apply fetch_only_ret|].
    destruct (find is_stale _); [|apply fetch_only_ret].
    apply fetch_only_bind; [apply fetch_only_getCurrent | intros ?].
    apply fetch_only_runOnce.
  - intros r. destruct (snd r); [apply fetch_only_ret | apply fetch_only_throw].
Qed.

(** *** One exchange, once the environment is in place *)

Variables dom tok : string.
Hypothesis Hdom : env_has env "SHOPIFY_STORE_DOMAIN" dom.
Hypothesis Htok : env_has env "SHOPIFY_ADMIN_TOKEN" tok.

Lemma runOnce_eq item loc qty cmp (w : world) :
  runOnce env item loc qty cmp w =
  let '(o, r) := fetch_set (out w) (graphql_url dom) tok (set_input item loc qty cmp) in
  (match response_data r with
   | inl e => inl e
   | inr d => inr (Shop.payload_of d, Shop.userErrors_of (Shop.payload_of d))
   end,
   {| out := o; sheet := sheet w;
      trace := trace w ++
        [Fetch (graphql_url dom) tok (InventorySet (set_input item loc qty cmp))] |}).
Proof.
  unfold runOnce, shopifyGraphql, bind.
  rewrite (requireEnv_has _ _ _ Hdom), (requireEnv_has _ _ _ Htok).
  unfold post_set.
  destruct (fetch_set _ _ _ _) as [o r]. unfold lift.
  destruct (response_data r); reflexivity.
Qed.

Lemma getCurrent_eq item loc (w : world) :
  getCurrentAvailableQuantity env item loc w =
  let '(o, r) := fetch_level (out w) (graphql_url dom) tok item loc in
  (match response_data r with
   | inl e => inl e
   | inr d =>
       match Shop.available_of d with
       | Some q => inr q
       | None => inl (JS.Error
           "Could not read current Shopify available quantity (inventoryLevel/quantities).")
       end
   end,
   {| out := o; sheet := sheet w;
      trace := trace w ++
        [Fetch (graphql_url dom) tok (GetInventoryLevel item loc)] |}).
Proof.
  unfold getCurrentAvailableQuantity, shopifyGraphql, bind.
  rewrite (requireEnv_has _ _ _ Hdom), (requireEnv_has _ _ _ Htok).
  unfold post_level.
  destruct (fetch_level _ _ _ _ _) as [o r]. unfold lift.
  destruct (response_data r) as [e|d]; [reflexivity|].
  destruct (Shop.available_of d); reflexivity.
Qed.

End Push.



(* ===================================================================== *)
(** ** The outcome records *)
(* ===================================================================== *)

Section Outcomes.
Context {O : Outside}.
Variable env : gmap string string.

Lemma process_one_success c p (w w1 : world) :
  shopifyInventorySetAvailable env (c_inventoryItemId c) (locationId (CONFIG env))
    (c_desired c) (c_available c) w = (inr p, w1) ->
  process_one env c w = (inr (success_updates env c (clock (out w1))), w1).
Proof. intros H. unfold process_one, try_catch, bind. rewrite H. reflexivity. Qed.

Lemma process_one_failure c err (w w1 : world) :
  shopifyInventorySetAvailable env (c_inventoryItemId c) (locationId (CONFIG env))
    (c_desired c) (c_available c) w = (inl err, w1) ->
  process_one env c w = (inr (error_updates env c err), w1).
Proof. intros H. unfold process_one, try_catch, bind. rewrite H. reflexivity. Qed.

(** the [try]/[catch] never lets an error through, and leaves one of the
    two groups of records *)
Lemma process_one_outcome c (w : world) :
  exists g w', process_one env c w = (inr g, w') /\ outcome env c g.
Proof.
  destruct (shopifyInventorySetAvailable env (c_inventoryItemId c)
              (locationId (CONFIG env)) (c_desired c) (c_available c) w)
    as [[err|p] w1] eqn:E.
  - eexists _, _. split; [apply (process_one_failure _ _ _ _ E)|].
    right. exists w, err, w1. split; [exact E | reflexivity].
  - eexists _, _. split; [apply (process_one_success _ _ _ _ E)|].
    left. exists w, p, w1. split; [exact E | reflexivity].
Qed.

Lemma fetch_only_process_one c : fetch_only (process_one env c).
Proof.
  unfold process_one. apply fetch_only_try_catch.
  - apply fetch_only_bind; [apply fetch_only_setAvailable | intros ?].
    apply fetch_only_bind; [apply fetch_only_nowIso | intros ?].
    apply fetch_only_ret.
  - intros. apply fetch_only_ret.
Qed.

(** the loop over the candidates returns the records of every candidate,
    in order, and only talks to the shop *)
Lemma process_spec candidates : forall acc (w : world),
  exists groups w',
    process env candidates acc w = (inr (acc ++ concat groups)%list, w') /\
    Forall2 (outcome env) candidates groups /\
    sheet w' = sheet w /\
    exists evs, trace w' = (trace w ++ evs)%list /\ Forall is_fetch_ev evs.
Proof.
  induction candidates as [|c rest IH]; intros acc w.
  - exists [], w. cbn. rewrite !app_nil_r. repeat split; [constructor|].
    exists []. now rewrite app_nil_r.
  - destruct (process_one_outcome c w) as (g & w1 & E1 & Hg).
    destruct (fetch_only_process_one c _ _ _ E1) as (Hs1 & evs1 & Ht1 & Hf1).
    destruct (IH (acc ++ g)%list w1) as (groups & w2 & E2 & HF & Hs2 & evs2 & Ht2 & Hf2).
    exists (g :: groups), w2. cbn [process]. unfold bind at 1. rewrite E1, E2.
    cbn [concat]. rewrite app_assoc. repeat split.
    + constructor; assumption.
    + congruence.
    + exists (evs1 ++ evs2)%list. split.
      * rewrite Ht2, Ht1. now rewrite app_assoc.
      * apply Forall_app. now split.
Qed.

End Outcomes.



(* ===================================================================== *)
(** ** Bulk writes on the grid *)
(* ===================================================================== *)

Lemma write_cell_in_grid g u i row :
  Sheet.vr_row u = S i -> g !! i = Some row ->
  Sheet.col_index (Sheet.vr_col u) < length row ->
  Sheet.write_cell g u =
  <[i := <[Sheet.col_index (Sheet.vr_col u) := Sheet.vr_value u]> row]> g.
Proof.
  intros Hr Hg Hc. unfold Sheet.write_cell. rewrite Hr.
  pose proof (lookup_lt_Some _ _ _ Hg) as Hi.
  replace (S i - length g) with 0 by lia. cbn [replicate]. rewrite app_nil_r, Hg.
  unfold Sheet.write_row, Sheet.pad.
  replace (S (Sheet.col_index (Sheet.vr_col u)) - length row) with 0 by lia.
  cbn [replicate]. now rewrite app_nil_r.
Qed.

(** a write inside the grid changes the addressed cell and no other *)
Lemma cell_at_write_cell g u r c :
  in_grid g u ->
  cell_at (Sheet.write_cell g u) r c =
  if decide (Sheet.vr_row u = r /\ Sheet.col_index (Sheet.vr_col u) = c)
  then Sheet.vr_value u else cell_at g r c.
Proof.
  intros (i & row & Hr & Hg & Hc).
  rewrite (write_cell_in_grid g u i row Hr Hg Hc).
  pose proof (lookup_lt_Some _ _ _ Hg) as Hi.
  destruct r as [|j].
  { cbn. destruct (decide _) as [[H _]|]; [congruence | reflexivity]. }
  cbn [cell_at]. destruct (decide (i = j)) as [<-|Hij].
  - rewrite list_lookup_insert_eq by exact Hi. rewrite Hg. unfold Sheet.cell.
    destruct (decide (Sheet.col_index (Sheet.vr_col u) = c)) as [<-|Hc'].
    + rewrite list_lookup_insert_eq by exact Hc.
      destruct (decide _) as [|n]; [reflexivity | exfalso; apply n; now split].
    + rewrite list_lookup_insert_ne by exact Hc'.
      destruct (decide _) as [[_ H]|]; [contradiction | reflexivity].
  - rewrite list_lookup_insert_ne by exact Hij.
    destruct (decide _) as [[H _]|]; [congruence | reflexivity].
Qed.

Lemma in_grid_write_cell g u u' :
  in_grid g u -> in_grid g u' -> in_grid (Sheet.write_cell g u) u'.
Proof.
  intros (i & row & Hr & Hg & Hc) (i' & row' & Hr' & Hg' & Hc').
  rewrite (write_cell_in_grid g u i row Hr Hg Hc).
  pose proof (lookup_lt_Some _ _ _ Hg) as Hi.
  destruct (decide (i = i')) as [<-|Hne].
  - eexists i, _. split; [exact Hr'|]. split.
    + apply list_lookup_insert_eq. exact Hi.
    + rewrite length_insert. congruence.
  - exists i', row'. split; [exact Hr'|]. split; [|exact Hc'].
    rewrite list_lookup_insert_ne by exact Hne. exact Hg'.
Qed.

Lemma length_write_cell g u :
  in_grid g u -> length (Sheet.write_cell g u) = length g.
Proof.
  intros (i & row & Hr & Hg & Hc).
  rewrite (write_cell_in_grid g u i row Hr Hg Hc). apply length_insert.
Qed.

Lemma in_grid_apply_updates us : forall g u',
  Forall (in_grid g) us -> in_grid g u' ->
  in_grid (Sheet.apply_updates g us) u'.
Proof.
  induction us as [|u us IH]; intros g u' HF Hu'; [exact Hu'|].
  inversion HF as [|? ? Hu HF']; subst.
  change (Sheet.apply_updates g (u :: us))
    with (Sheet.apply_updates (Sheet.write_cell g u) us).
  apply IH.
  - eapply Forall_impl; [exact HF'|]. intros x Hx. now apply in_grid_write_cell.
  - now apply in_grid_write_cell.
Qed.

Lemma length_apply_updates us : forall g,
  Forall (in_grid g) us -> length (Sheet.apply_updates g us) = length g.
Proof.
  induction us as [|u us IH]; intros g HF; [reflexivity|].
  inversion HF as [|? ? Hu HF']; subst.
  change (Sheet.apply_updates g (u :: us))
    with (Sheet.apply_updates (Sheet.write_cell g u) us).
  rewrite IH.
  - now apply length_write_cell.
  - eapply Forall_impl; [exact HF'|]. intros x Hx. now apply in_grid_write_cell.
Qed.

(** after a bulk write inside the grid, a cell either was addressed by no
    entry and is unchanged, or holds the value of an entry addressed to
    it *)
Lemma cell_at_apply_updates us : forall g r c,
  Forall (in_grid g) us ->
  (Forall (fun u => ~ targets u r c) us /\
   cell_at (Sheet.apply_updates g us) r c = cell_at g r c) \/
  (exists u, In u us /\ targets u r c /\
             cell_at (Sheet.apply_updates g us) r c = Sheet.vr_value u).
Proof.
  induction us as [|u us IH]; intros g r c HF.
  - left. split; [constructor | reflexivity].
  - inversion HF as [|? ? Hu HF']; subst.
    change (Sheet.apply_updates g (u :: us))
      with (Sheet.apply_updates (Sheet.write_cell g u) us).
    assert (HF1 : Forall (in_grid (Sheet.write_cell g u)) us).
    { eapply Forall_impl; [exact HF'|]. intros x Hx. now apply in_grid_write_cell. }
    destruct (IH (Sheet.write_cell g u) r c HF1) as [[Hno Heq] | (u' & Hin & Ht & Heq)].
    + rewrite Heq, (cell_at_write_cell g u r c Hu).
      destruct (decide _) as [Ht|Hn].
      * right. exists u. split; [now left|]. split; [exact Ht | reflexivity].
      * left. split; [|reflexivity]. constructor; assumption.
    + right. exists u'. split; [now right|]. split; assumption.
Qed.

Lemma candidate_of_ext i row row' :
  Sheet.cell row 4 = Sheet.cell row' 4 ->
  Sheet.cell row 5 = Sheet.cell row' 5 ->
  Sheet.cell row 9 = Sheet.cell row' 9 ->
  candidate_of i row = candidate_of i row'.
Proof. intros H4 H5 H9. unfold candidate_of. now rewrite H4, H5, H9. Qed.

Lemma eligible_from_nil rows : forall i,
  (forall j row, rows !! j = Some row -> candidate_of (i + j) row = None) ->
  eligible_from i rows = [].
Proof.
  induction rows as [|r rest IH]; intros i H; [reflexivity|].
  cbn. rewrite <- (Nat.add_0_r i) at 1. rewrite (H 0 r eq_refl).
  apply IH. intros j row Hj. replace (S i + j) with (i + S j) by lia.
  apply H. exact Hj.
Qed.

(* ===================================================================== *)
(** ** A run of [main] *)
(* ===================================================================== *)

Section Run.
Context {O : Outside}.
Variable env : gmap string string.

Local Abbreviation sid := (spreadsheetId (CONFIG env)).
Local Abbreviation cap := (maxRowsPerRun (CONFIG env)).
Local Abbreviation read_ev := (SheetsGet sid (sheetName (CONFIG env) ++ "!A:Z")).

Lemma env_ready_or_missing :
  env_ready env \/ exists n, In n required /\ env_lacks env n.
Proof.
  unfold env_ready, required.
  destruct (env_has_or_lacks env "SPREADSHEET_ID") as [H1|H1];
    [|right; eexists; split; [|exact H1]; cbn; tauto].
  destruct (env_has_or_lacks env "SHOPIFY_STORE_DOMAIN") as [H2|H2];
    [|right; eexists; split; [|exact H2]; cbn; tauto].
  destruct (env_has_or_lacks env "SHOPIFY_LOCATION_ID") as [H3|H3];
    [|right; eexists; split; [|exact H3]; cbn; tauto].
  destruct (env_has_or_lacks env "SHOPIFY_ADMIN_TOKEN") as [H4|H4];
    [|right; eexists; split; [|exact H4]; cbn; tauto].
  left. repeat constructor; assumption.
Qed.

Lemma env_has_not_lacks name v : env_has env name v -> ~ env_lacks env name.
Proof. intros [H Hne] [H' | H']; rewrite H in H'; congruence. Qed.

(** the first required variable that is missing stops the run before any
    call leaves the process *)
Lemma main_missing (w : world) :
  (exists n, In n required /\ env_lacks env n) ->
  exists n, In n required /\ env_lacks env n /\
    main env w = (inl (JS.Error ("Missing env var: " ++ n)), w).
Proof.
  intros _Hex. unfold main, bind.
  destruct (env_has_or_lacks env "SPREADSHEET_ID") as [[v1 H1]|H1].
  2:{ eexists. split; [|split; [exact H1|]]; [cbn; tauto|].
      now rewrite (requireEnv_lacks env _ w H1). }
  rewrite (requireEnv_has env _ _ w H1).
  destruct (env_has_or_lacks env "SHOPIFY_STORE_DOMAIN") as [[v2 H2]|H2].
  2:{ eexists. split; [|split; [exact H2|]]; [cbn; tauto|].
      now rewrite (requireEnv_lacks env _ w H2). }
  rewrite (requireEnv_has env _ _ w H2).
  destruct (env_has_or_lacks env "SHOPIFY_LOCATION_ID") as [[v3 H3]|H3].
  2:{ eexists. split; [|split; [exact H3|]]; [cbn; tauto|].
      now rewrite (requireEnv_lacks env _ w H3). }
  rewrite (requireEnv_has env _ _ w H3).
  destruct (env_has_or_lacks env "SHOPIFY_ADMIN_TOKEN") as [[v4 H4]|H4].
  2:{ eexists. split; [|split; [exact H4|]]; [cbn; tauto|].
      now rewrite (requireEnv_lacks env _ w H4). }
  exfalso. destruct _Hex as (n & Hin & Hl). cbn in Hin.
  destruct Hin as [<-|[<-|[<-|[<-|[]]]]].
  - exact (env_has_not_lacks _ _ H1 Hl).
  - exact (env_has_not_lacks _ _ H2 Hl).
  - exact (env_has_not_lacks _ _ H3 Hl).
  - exact (env_has_not_lacks _ _ H4 Hl).
Qed.

Lemma scan_short rows : length rows < 2 -> scan cap rows = [].
Proof.
  intros H. unfold scan. destruct rows as [|r [|r' rest]]; cbn in *; try reflexivity; lia.
Qed.

(** past the pre-flight checks, [main] is the read followed by the rest *)
Lemma main_ready (w : world) :
  env_ready env ->
  main env w =
  match sheets_call (out w) with
  | (o1, Some e) => (inl e, after_get env w o1)
  | (o1, None) =>
      match scan cap (sheet w) with
      | [] => (inr tt, after_get env w o1)
      | c :: cs =>
          bind (values_batchUpdate sid (pending_updates env (c :: cs)))
            (fun _ => bind (process env (c :: cs) [])
               (fun updates => values_batchUpdate sid updates))
            (after_get env w o1)
      end
  end.
Proof.
  intros Hr. unfold env_ready, required in Hr.
  inversion Hr as [|? ? [v1 H1] Hr1]; subst.
  inversion Hr1 as [|? ? [v2 H2] Hr2]; subst.
  inversion Hr2 as [|? ? [v3 H3] Hr3]; subst.
  inversion Hr3 as [|? ? [v4 H4] _]; subst.
  unfold main. unfold bind at 1 2 3 4.
  rewrite (requireEnv_has env _ _ w H1), (requireEnv_has env _ _ w H2),
          (requireEnv_has env _ _ w H3), (requireEnv_has env _ _ w H4).
  unfold bind at 1. unfold values_get. cbn [out sheet trace].
  destruct (sheets_call (out w)) as [o1 [e|]]; [reflexivity|].
  unfold after_get.
  destruct (sheet w) as [|r g] eqn:Eg; [reflexivity|].
  cbn [Sheet.values].
  destruct (length (r :: g) <? 2) eqn:El.
  - apply Nat.ltb_lt in El. rewrite (scan_short _ El). reflexivity.
  - destruct (scan cap (r :: g)); reflexivity.
Qed.

Lemma new_events_after_get (w : world) o : new_events w (after_get env w o) = [read_ev].
Proof. apply new_events_app. reflexivity. Qed.

(** a run that found candidates: the PENDING batch, then only calls to
    the shop, then the outcome batch *)
Lemma main_candidates (w : world) o1 c cs :
  env_ready env ->
  sheets_call (out w) = (o1, None) ->
  scan cap (sheet w) = c :: cs ->
  let pending := pending_updates env (c :: cs) in
  match sheets_call o1 with
  | (o2, Some e) =>
      main env w =
      (inl e, {| out := o2; sheet := sheet w;
                 trace := trace w ++ [read_ev; SheetsBatchUpdate sid pending] |})
  | (o2, None) =>
      exists groups fetches o3,
        Forall2 (outcome env) (c :: cs) groups /\
        Forall is_fetch_ev fetches /\
        let tr := (trace w ++ [read_ev; SheetsBatchUpdate sid pending] ++ fetches ++
                   [SheetsBatchUpdate sid (concat groups)])%list in
        match sheets_call o3 with
        | (o4, Some e) =>
            main env w =
            (inl e, {| out := o4; sheet := Sheet.apply_updates (sheet w) pending;
                       trace := tr |})
        | (o4, None) =>
            main env w =
            (inr tt,
             {| out := o4;
                sheet := Sheet.apply_updates (Sheet.apply_updates (sheet w) pending)
                           (concat groups);
                trace := tr |})
        end
  end.
Proof.
  intros Hr Hget Hscan pending.
  pose proof (main_ready w Hr) as Hm. rewrite Hget, Hscan in Hm. fold pending in Hm.
  unfold bind at 1 in Hm. unfold values_batchUpdate at 1 in Hm.
  unfold after_get in Hm. cbn [out sheet trace] in Hm.
  destruct (sheets_call o1) as [o2 [e|]].
  { rewrite Hm. f_equal. f_equal. now rewrite <- app_assoc. }
  unfold bind in Hm.
  match type of Hm with
  | context [process env (c :: cs) [] ?w1] =>
      destruct (process_spec env (c :: cs) [] w1)
        as (groups & w2 & E2 & HF & Hs2 & evs & Ht2 & Hf2)
  end.
  rewrite E2 in Hm. cbn [app] in Hm.
  unfold values_batchUpdate in Hm. cbn [out sheet trace] in *.
  rewrite Hs2, Ht2 in Hm.
  exists groups, evs, (out w2). split; [exact HF|]. split; [exact Hf2|].
  cbn zeta.
  destruct (sheets_call (out w2)) as [o4 [e|]];
    (rewrite Hm; f_equal; f_equal; rewrite <- !app_assoc; reflexivity).
Qed.

(** the pre-flight checks the required variables in order and stops at
    the first one that is missing *)
Lemma main_missing_first (w : world) :
  (exists n, In n required /\ env_lacks env n) ->
  exists before n after,
    required = (before ++ n :: after)%list /\
    Forall (fun m => exists v, env_has env m v) before /\
    env_lacks env n /\
    main env w = (inl (JS.Error ("Missing env var: " ++ n)), w).
Proof.
  intros Hex. unfold main, bind.
  destruct (env_has_or_lacks env "SPREADSHEET_ID") as [[v1 H1]|H1].
  2:{ exists [], "SPREADSHEET_ID". eexists. split; [reflexivity|].
      split; [constructor|]. split; [exact H1|].
      now rewrite (requireEnv_lacks env _ w H1). }
  rewrite (requireEnv_has env _ _ w H1).
  destruct (env_has_or_lacks env "SHOPIFY_STORE_DOMAIN") as [[v2 H2]|H2].
  2:{ exists ["SPREADSHEET_ID"], "SHOPIFY_STORE_DOMAIN". eexists.
      split; [reflexivity|]. split; [repeat constructor; eauto|].
      split; [exact H2|]. now rewrite (requireEnv_lacks env _ w H2). }
  rewrite (requireEnv_has env _ _ w H2).
  destruct (env_has_or_lacks env "SHOPIFY_LOCATION_ID") as [[v3 H3]|H3].
  2:{ exists ["SPREADSHEET_ID"; "SHOPIFY_STORE_DOMAIN"], "SHOPIFY_LOCATION_ID".
      eexists. split; [reflexivity|]. split; [repeat constructor; eauto|].
      split; [exact H3|]. now rewrite (requireEnv_lacks env _ w H3). }
  rewrite (requireEnv_has env _ _ w H3).
  destruct (env_has_or_lacks env "SHOPIFY_ADMIN_TOKEN") as [[v4 H4]|H4].
  2:{ exists ["SPREADSHEET_ID"; "SHOPIFY_STORE_DOMAIN"; "SHOPIFY_LOCATION_ID"],
        "SHOPIFY_ADMIN_TOKEN".
      eexists. split; [reflexivity|]. split; [repeat constructor; eauto|].
      split; [exact H4|]. now rewrite (requireEnv_lacks env _ w H4). }
  exfalso. destruct Hex as (n & Hin & Hl). cbn in Hin.
  destruct Hin as [<-|[<-|[<-|[<-|[]]]]].
  - exact (env_has_not_lacks _ _ H1 Hl).
  - exact (env_has_not_lacks _ _ H2 Hl).
  - exact (env_has_not_lacks _ _ H3 Hl).
  - exact (env_has_not_lacks _ _ H4 Hl).
Qed.

(** with the four required variables set, the run gets past the
    pre-flight: its first call is the read of the configured tab *)
Lemma main_proceeds (w : world) :
  env_ready env ->
  exists rest, new_events w (snd (main env w)) = read_ev :: rest.
Proof.
  intros Hr.
  destruct (sheets_call (out w)) as [o1 f1] eqn:Eget.
  pose proof (main_ready w Hr) as Hm. rewrite Eget in Hm.
  destruct f1 as [e|].
  { exists []. rewrite Hm. apply new_events_after_get. }
  destruct (scan cap (sheet w)) as [|c cs] eqn:Es.
  { exists []. rewrite Hm. apply new_events_after_get. }
  clear Hm. pose proof (main_candidates w o1 c cs Hr Eget Es) as Hc.
  cbn zeta in Hc.
  destruct (sheets_call o1) as [o2 [e|]].
  - eexists. rewrite Hc. cbn [snd]. apply new_events_app. reflexivity.
  - destruct Hc as (groups & fetches & o3 & _ & _ & Hc).
    destruct (sheets_call o3) as [o4 [e|]]; eexists; rewrite Hc; cbn [snd];
      apply new_events_app; reflexivity.
Qed.

(** a run whose PENDING batch was accepted: the pushes run in the world
    that batch left, and the run ends with the outcome batch, whose
    result is the result of the run *)
Lemma main_outcome_call (w : world) o1 o2 c cs :
  env_ready env ->
  sheets_call (out w) = (o1, None) ->
  scan cap (sheet w) = c :: cs ->
  sheets_call o1 = (o2, None) ->
  let pending := pending_updates env (c :: cs) in
  let marked := snd (values_batchUpdate sid pending (after_get env w o1)) in
  sheet marked = Sheet.apply_updates (sheet w) pending /\
  trace marked = (trace w ++ [read_ev; SheetsBatchUpdate sid pending])%list /\
  exists groups w2 fetches,
    process env (c :: cs) [] marked = (inr (concat groups), w2) /\
    Forall2 (outcome env) (c :: cs) groups /\
    sheet w2 = sheet marked /\
    trace w2 = (trace marked ++ fetches)%list /\
    Forall is_fetch_ev fetches /\
    main env w = values_batchUpdate sid (concat groups) w2.
Proof.
  intros Hr Hget Hscan Hpend pending marked.
  assert (Em : values_batchUpdate sid pending (after_get env w o1) = (inr tt, marked)).
  { subst marked. unfold values_batchUpdate, after_get. cbn [out sheet trace].
    rewrite Hpend. reflexivity. }
  assert (Hsheet : sheet marked = Sheet.apply_updates (sheet w) pending).
  { subst marked. unfold values_batchUpdate, after_get. cbn [out sheet trace].
    rewrite Hpend. reflexivity. }
  assert (Htrace : trace marked =
                   (trace w ++ [read_ev; SheetsBatchUpdate sid pending])%list).
  { subst marked. unfold values_batchUpdate, after_get. cbn [out sheet trace].
    rewrite Hpend. cbn [snd trace]. now rewrite <- app_assoc. }
  split; [exact Hsheet|]. split; [exact Htrace|].
  destruct (process_spec env (c :: cs) [] marked)
    as (groups & w2 & E2 & HF & Hs2 & evs & Ht2 & Hf2).
  cbn [app] in E2.
  exists groups, w2, evs. repeat split; try assumption.
  pose proof (main_ready w Hr) as Hm. rewrite Hget, Hscan in Hm.
  fold pending in Hm. rewrite Hm.
  unfold bind at 1. rewrite Em. unfold bind at 1. rewrite E2. reflexivity.
Qed.

End Run.

(* ===================================================================== *)
(** ** What a run writes *)
(* ===================================================================== *)

Section Writes.
Context {O : Outside}.
Variable env : gmap string string.

Local Abbreviation sid := (spreadsheetId (CONFIG env)).
Local Abbreviation cap := (maxRowsPerRun (CONFIG env)).
Local Abbreviation read_ev := (SheetsGet sid (sheetName (CONFIG env) ++ "!A:Z")).

(** every record of a processed candidate is on the candidate's row and
    addresses its status (G), last-pushed (H), last-error (I) or desired
    (E) cell *)
Lemma outcome_entry c g u :
  outcome env c g -> In u g ->
  Sheet.vr_row u = rowIndex1Based c /\
  ((Sheet.col_index (Sheet.vr_col u) = 6 /\
    (Sheet.vr_value u = Sheet.blank \/ Sheet.vr_value u = JS.VStr "ERROR")) \/
   Sheet.col_index (Sheet.vr_col u) = 7 \/
   Sheet.col_index (Sheet.vr_col u) = 8 \/
   (Sheet.col_index (Sheet.vr_col u) = 4 /\ Sheet.vr_value u = Sheet.blank /\
    exists now, g = success_updates env c now)).
Proof.
  intros [(w & p & w1 & _ & ->) | (w & err & w1 & _ & ->)] Hin; cbn in Hin.
  - destruct Hin as [<-|[<-|[<-|[<-|[]]]]]; cbn; (split; [reflexivity|]).
    + left. auto.
    + right. left. reflexivity.
    + right. right. left. reflexivity.
    + right. right. right. repeat split. eauto.
  - destruct Hin as [<-|[<-|[]]]; cbn; (split; [reflexivity|]).
    + left. auto.
    + right. right. left. reflexivity.
Qed.

Lemma outcome_status c g :
  outcome env c g ->
  exists v, In (at_cell env "G" c v) g /\ (v = Sheet.blank \/ v = JS.VStr "ERROR").
Proof.
  intros [(w & p & w1 & _ & ->) | (w & err & w1 & _ & ->)].
  - exists Sheet.blank. split; [now left | now left].
  - exists (JS.VStr "ERROR"). split; [now left | now right].
Qed.

Lemma groups_entry cs groups u :
  Forall2 (outcome env) cs groups -> In u (concat groups) ->
  exists k c g, cs !! k = Some c /\ groups !! k = Some g /\
                outcome env c g /\ In u g.
Proof.
  intros HF Hin. apply in_concat in Hin as (g & Hg & Hu).
  apply list_elem_of_In, list_elem_of_lookup in Hg as (k & Hk).
  destruct (Forall2_lookup_r _ _ _ _ _ HF Hk) as (c & Hc & Ho).
  exists k, c, g. repeat split; assumption.
Qed.

Lemma groups_of_candidate cs groups c :
  Forall2 (outcome env) cs groups -> In c cs ->
  exists k g, cs !! k = Some c /\ groups !! k = Some g /\ outcome env c g /\
              forall u, In u g -> In u (concat groups).
Proof.
  intros HF Hin.
  apply list_elem_of_In, list_elem_of_lookup in Hin as (k & Hk).
  destruct (Forall2_lookup_l _ _ _ _ _ HF Hk) as (g & Hg & Ho).
  exists k, g. repeat split; try assumption.
  intros u Hu. apply in_concat. exists g. split; [|exact Hu].
  apply list_elem_of_In, list_elem_of_lookup. eauto.
Qed.

Lemma pending_entry cs u :
  In u (pending_updates env cs) ->
  exists c, In c cs /\ u = at_cell env "G" c (JS.VStr "PENDING").
Proof.
  unfold pending_updates. rewrite in_map_iff. intros (c & <- & Hc). eauto.
Qed.

(** a record on a candidate's row, in one of the first ten columns,
    addresses a cell of the snapshot *)
Lemma candidate_in_grid (g : Sheet.grid) c u :
  In c (scan cap g) ->
  Sheet.vr_row u = rowIndex1Based c ->
  Sheet.col_index (Sheet.vr_col u) < 10 ->
  in_grid g u.
Proof.
  intros Hc Hr Hcol.
  destruct (scan_candidate_row _ _ _ Hc) as (i & row & Hi & Hrow & _ & Hlen).
  exists i, row. repeat split; [congruence | assumption | lia].
Qed.

Lemma pending_in_grid (g : Sheet.grid) :
  Forall (in_grid g) (pending_updates env (scan cap g)).
Proof.
  apply Forall_forall. intros u Hu.
  apply list_elem_of_In, pending_entry in Hu as (c & Hc & ->).
  apply (candidate_in_grid g c); [assumption | reflexivity |].
  change (6 < 10). lia.
Qed.

Lemma outcomes_in_grid (g : Sheet.grid) groups :
  Forall2 (outcome env) (scan cap g) groups ->
  Forall (in_grid g) (concat groups).
Proof.
  intros HF. apply Forall_forall. intros u Hu. apply list_elem_of_In in Hu.
  destruct (groups_entry _ _ _ HF Hu) as (k & c & gr & Hk & _ & Ho & Hin).
  destruct (outcome_entry _ _ _ Ho Hin) as (Hr & Hcol).
  apply (candidate_in_grid g c).
  - apply list_elem_of_In, list_elem_of_lookup. eauto.
  - exact Hr.
  - destruct Hcol as [[-> _]|[->|[->|[-> _]]]]; lia.
Qed.

(** a run that returns after finding candidates *)
Lemma main_returns (w w' : world) :
  main env w = (inr tt, w') ->
  scan cap (sheet w) <> [] ->
  exists groups fetches,
    Forall2 (outcome env) (scan cap (sheet w)) groups /\
    Forall is_fetch_ev fetches /\
    trace w' =
      (trace w ++ [read_ev; SheetsBatchUpdate sid (pending_updates env (scan cap (sheet w)))]
       ++ fetches ++ [SheetsBatchUpdate sid (concat groups)])%list /\
    sheet w' =
      Sheet.apply_updates
        (Sheet.apply_updates (sheet w) (pending_updates env (scan cap (sheet w))))
        (concat groups).
Proof.
  intros Hm Hne.
  destruct (env_ready_or_missing env) as [Hr|Hmiss].
  2:{ destruct (main_missing env w Hmiss) as (n & _ & _ & E). congruence. }
  destruct (sheets_call (out w)) as [o1 f1] eqn:Eget.
  destruct f1 as [e|].
  { pose proof (main_ready env w Hr) as E. rewrite Eget in E. congruence. }
  destruct (scan cap (sheet w)) as [|c cs] eqn:Es; [contradiction|].
  pose proof (main_candidates env w o1 c cs Hr Eget Es) as Hc. cbn zeta in Hc.
  destruct (sheets_call o1) as [o2 [e|]]; [congruence|].
  destruct Hc as (groups & fetches & o3 & HF & Hf & Hc).
  exists groups, fetches. split; [exact HF|]. split; [exact Hf|].
  destruct (sheets_call o3) as [o4 [e|]]; [congruence|].
  rewrite Hc in Hm. injection Hm as <-. cbn. split; reflexivity.
Qed.

(** a run that returns without candidates only read the sheet *)
Lemma main_returns_idle (w : world) res w' :
  main env w = (res, w') ->
  env_ready env ->
  scan cap (sheet w) = [] ->
  sheet w' = sheet w /\ new_events w w' = [read_ev].
Proof.
  intros Hm Hr Hs. rewrite (main_ready env w Hr), Hs in Hm.
  destruct (sheets_call (out w)) as [o1 [e|]]; injection Hm as <- <-;
    (split; [reflexivity | apply new_events_after_get]).
Qed.

End Writes.

(* ===================================================================== *)
(** ** Pre-flight, batching and the PENDING mark *)
(* ===================================================================== *)

(** C7 (as amended).  Four run parameters are required: the spreadsheet
    identifier, the shop domain, the location identifier and the access
    token.  When one of them is absent (or empty) the run fails with the
    error naming the first missing one, before any call leaves the
    process: the world is unchanged, no row is read or written, and the
    exit code is 1.  The other two are not required: an absent sheet name
    is replaced by Truth_Table and an absent per-run maximum by 50, and a
    run that has the four required parameters gets past the pre-flight
    whether or not these two are set: its first call is the read of the
    configured (or default) tab. *)
Theorem missing_parameter_is_fatal {O : Outside} (env : gmap string string)
  (w : world) :
  ((exists n, In n required /\ env_lacks env n) ->
   (exists before n after,
      required = (before ++ n :: after)%list /\
      Forall (fun m => exists v, env_has env m v) before /\
      env_lacks env n /\
      main env w = (inl (JS.Error ("Missing env var: " ++ n)), w)) /\
   run env w = (1%Z, w)) /\
  (env_lacks env "SHEET_NAME" -> sheetName (CONFIG env) = "Truth_Table") /\
  (env_lacks env "MAX_ROWS_PER_RUN" ->
   maxRowsPerRun (CONFIG env) = JS.Fin (inject_Z 50)) /\
  (env_ready env ->
   exists rest,
     new_events w (snd (main env w)) =
     SheetsGet (spreadsheetId (CONFIG env)) (sheetName (CONFIG env) ++ "!A:Z") :: rest).
Proof.
  split; [|split; [|split]].
  - intros Hmiss.
    destruct (main_missing_first env w Hmiss) as (before & n & after & Hreq & Hb & Hl & E).
    split; [eauto 10|]. unfold run. rewrite E. reflexivity.
  - intros [H | H]; unfold CONFIG; cbn; rewrite H; reflexivity.
  - intros [H | H]; unfold CONFIG; cbn; rewrite H; reflexivity.
  - apply main_proceeds.
Qed.

Lemma missing_parameter_is_fatal_witness :
  ((exists before n after,
      required = (before ++ n :: after)%list /\
      Forall (fun m => exists v, env_has env_no_token m v) before /\
      env_lacks env_no_token n /\
      @main Outsides.Cas env_no_token fractional_world =
        (inl (JS.Error ("Missing env var: " ++ n)), fractional_world)) /\
   @run Outsides.Cas env_no_token fractional_world = (1%Z, fractional_world)) /\
  sheetName (CONFIG Outsides.env0) = "Truth_Table" /\
  maxRowsPerRun (CONFIG Outsides.env0) = JS.Fin (inject_Z 50) /\
  (exists rest,
     new_events fractional_world (snd (@main Outsides.Cas Outsides.env0 fractional_world)) =
     SheetsGet (spreadsheetId (CONFIG Outsides.env0))
       (sheetName (CONFIG Outsides.env0) ++ "!A:Z") :: rest).
Proof.
  destruct (@missing_parameter_is_fatal Outsides.Cas env_no_token fractional_world)
    as (Hfatal & _).
  destruct (@missing_parameter_is_fatal Outsides.Cas Outsides.env0 fractional_world)
    as (_ & Hsheet & Hmax & Hgo).
  split; [|split; [|split]].
  - apply Hfatal. exists "SHOPIFY_ADMIN_TOKEN". split; [cbn; tauto | left; reflexivity].
  - apply Hsheet. left. reflexivity.
  - apply Hmax. left. reflexivity.
  - apply Hgo. repeat constructor; eexists; (split; [reflexivity | discriminate]).
Defined.

(** C7 (as stated) fails: with neither a sheet name nor a per-run maximum
    in the environment the run is not stopped; it reads the Truth_Table
    tab, pushes the candidate and returns. *)
Lemma defaults_are_not_fatal :
  env_lacks Outsides.env0 "SHEET_NAME" /\
  env_lacks Outsides.env0 "MAX_ROWS_PER_RUN" /\
  fst (@run Outsides.Cas Outsides.env0 fractional_world) = 0%Z /\
  head (trace (snd (@run Outsides.Cas Outsides.env0 fractional_world))) =
    Some (SheetsGet (Some "sheet-1") "Truth_Table!A:Z") /\
  pushed (trace (snd (@run Outsides.Cas Outsides.env0 fractional_world))) =
    [ ("gid://A", 7%Z, 10%Z) ].
Proof.
  split; [left; reflexivity|]. split; [left; reflexivity|].
  repeat apply conj; vm_compute; reflexivity.
Qed.

(** C8 (as amended).  In a run that found at least one candidate, the
    row store is written through bulk calls only, at most two of them.
    The first carries the PENDING mark of every candidate and is issued
    right after the read, before any call to the shop.  If that call is
    rejected the run stops there: one bulk call, no push.  Otherwise
    only calls to the shop follow, and then exactly one more bulk call
    that carries the outcome records of all candidates, in order: two
    bulk calls in all, and no write per candidate. *)
Theorem two_bulk_writes {O : Outside} (env : gmap string string)
  (w : world) o1 c cs :
  env_ready env ->
  sheets_call (out w) = (o1, None) ->
  scan (maxRowsPerRun (CONFIG env)) (sheet w) = c :: cs ->
  let sid := spreadsheetId (CONFIG env) in
  let read := SheetsGet sid (sheetName (CONFIG env) ++ "!A:Z") in
  let pending := SheetsBatchUpdate sid (pending_updates env (c :: cs)) in
  let evs := new_events w (snd (main env w)) in
  match snd (sheets_call o1) with
  | Some e =>
      fst (main env w) = inl e /\ evs = [read; pending]
  | None =>
      exists fetches groups,
        Forall is_fetch_ev fetches /\
        Forall2 (outcome env) (c :: cs) groups /\
        evs = ([read; pending] ++ fetches ++
               [SheetsBatchUpdate sid (concat groups)])%list /\
        length (filter is_write evs) = 2
  end.
Proof.
  intros Hr Hget Hscan sid read pending evs.
  pose proof (main_candidates env w o1 c cs Hr Hget Hscan) as Hc. cbn zeta in Hc.
  destruct (sheets_call o1) as [o2 [e|]]; cbn [snd].
  - subst evs. rewrite Hc. cbn [fst snd]. split; [reflexivity|].
    apply new_events_app. reflexivity.
  - destruct Hc as (groups & fetches & o3 & HF & Hf & Hc).
    exists fetches, groups. split; [exact Hf|]. split; [exact HF|].
    assert (Hev : evs = ([read; pending] ++ fetches ++
                         [SheetsBatchUpdate sid (concat groups)])%list).
    { subst evs. destruct (sheets_call o3) as [o4 [e|]]; rewrite Hc;
        apply new_events_app; reflexivity. }
    split; [exact Hev|]. rewrite Hev.
    rewrite !filter_app. cbn.
    assert (Hnone : filter is_write fetches = []).
    { clear -Hf. induction Hf as [|ev l Hev _ IH]; [reflexivity|].
      destruct ev; try contradiction. cbn. exact IH. }
    rewrite Hnone. reflexivity.
Qed.

Lemma two_bulk_writes_witness :
  let sid := Some "sheet-1" in
  let read := SheetsGet sid "Truth_Table!A:Z" in
  let cands := [ {| rowIndex1Based := 2; c_inventoryItemId := "gid://A";
                    c_desired := 7; c_available := 10 |};
                 {| rowIndex1Based := 3; c_inventoryItemId := "gid://B";
                    c_desired := 4; c_available := 5 |} ] in
  let pending := SheetsBatchUpdate sid (pending_updates Outsides.env0 cands) in
  let evs := new_events two_row_world
               (snd (@main Outsides.Cas Outsides.env0 two_row_world)) in
  exists fetches groups,
    Forall is_fetch_ev fetches /\
    Forall2 (@outcome Outsides.Cas Outsides.env0) cands groups /\
    evs = ([read; pending] ++ fetches ++
           [SheetsBatchUpdate sid (concat groups)])%list /\
    length (filter is_write evs) = 2.
Proof.
  apply (@two_bulk_writes Outsides.Cas Outsides.env0 two_row_world
           (out two_row_world)).
  - repeat constructor; eexists; (split; [reflexivity | discriminate]).
  - reflexivity.
  - vm_compute. reflexivity.
Defined.

(** C8 (as stated) fails: when the row store rejects the PENDING batch,
    the run found a candidate and yet issued one bulk call, not two, and
    pushed nothing. *)
Lemma rejected_pending_single_write :
  scan (maxRowsPerRun (CONFIG Outsides.env0)) (sheet rejecting_world) = [candidate_A] /\
  filter is_write (trace (snd (@run Outsides.Scripted Outsides.env0 rejecting_world))) =
    [ SheetsBatchUpdate (Some "sheet-1")
        [ {| Sheet.vr_sheet := "Truth_Table"; Sheet.vr_col := "G";
             Sheet.vr_row := 2; Sheet.vr_value := JS.VStr "PENDING" |} ] ] /\
  length (filter is_write
            (trace (snd (@run Outsides.Scripted Outsides.env0 rejecting_world)))) <> 2 /\
  pushed (trace (snd (@run Outsides.Scripted Outsides.env0 rejecting_world))) = [] /\
  fst (@run Outsides.Scripted Outsides.env0 rejecting_world) = 1%Z.
Proof.
  repeat apply conj; try (vm_compute; reflexivity).
  vm_compute. discriminate.
Qed.

(** C9.  In a run that completes normally, every candidate gets its
    PENDING mark in the first bulk write, and the outcome batch, which is
    the last call of the run, holds a status record for the same row
    whose value is empty or ERROR; once the batch is applied the status
    cell of the row is empty or ERROR, never PENDING. *)
Theorem pending_is_overwritten {O : Outside} (env : gmap string string)
  (w w' : world) c :
  main env w = (inr tt, w') ->
  In c (scan (maxRowsPerRun (CONFIG env)) (sheet w)) ->
  let sid := spreadsheetId (CONFIG env) in
  let status v :=
    {| Sheet.vr_sheet := sheetName (CONFIG env); Sheet.vr_col := "G";
       Sheet.vr_row := rowIndex1Based c; Sheet.vr_value := v |} in
  (exists marks, In (SheetsBatchUpdate sid marks) (new_events w w') /\
                 In (status (JS.VStr "PENDING")) marks) /\
  (exists updates v,
     last (trace w') = Some (SheetsBatchUpdate sid updates) /\
     In (status v) updates /\
     (v = JS.VStr EmptyString \/ v = JS.VStr "ERROR")) /\
  (cell_at (sheet w') (rowIndex1Based c) 6 = JS.VStr EmptyString \/
   cell_at (sheet w') (rowIndex1Based c) 6 = JS.VStr "ERROR").
Proof.
  intros Hm Hc sid status.
  assert (Hne : scan (maxRowsPerRun (CONFIG env)) (sheet w) <> [])
    by (intros E; rewrite E in Hc; exact Hc).
  destruct (main_returns env w w' Hm Hne) as (groups & fetches & HF & Hf & Ht & Hs).
  destruct (groups_of_candidate env _ _ c HF Hc) as (k & g & Hk & Hg & Ho & Hsub).
  destruct (outcome_status env c g Ho) as (v & Hv & Hval).
  split; [|split].
  - eexists. split.
    + rewrite (new_events_app w w' _ Ht). right. left. reflexivity.
    + unfold pending_updates. apply in_map_iff. exists c. split; [reflexivity | exact Hc].
  - exists (concat groups), v. split; [|split; [exact (Hsub _ Hv) | exact Hval]].
    rewrite Ht. rewrite !app_assoc. apply last_snoc.
  - rewrite Hs.
    set (g1 := Sheet.apply_updates (sheet w) _).
    assert (HG : Forall (in_grid g1) (concat groups)).
    { pose proof (outcomes_in_grid env (sheet w) groups HF) as H0.
      eapply Forall_impl; [exact H0|]. intros u Hu.
      apply in_grid_apply_updates; [apply pending_in_grid | exact Hu]. }
    destruct (cell_at_apply_updates (concat groups) g1 (rowIndex1Based c) 6 HG)
      as [[Hno _] | (u & Hu & [Hr Hcol] & ->)].
    + exfalso. rewrite Forall_forall in Hno.
      apply (Hno (at_cell env "G" c v)).
      * apply list_elem_of_In. exact (Hsub _ Hv).
      * split; reflexivity.
    + destruct (groups_entry env _ _ u HF Hu) as (k' & c' & g' & _ & _ & Ho' & Hin').
      destruct (outcome_entry env c' g' u Ho' Hin') as (_ & Hcase).
      destruct Hcase as [[_ H]|[H|[H|[H _]]]]; [exact H | lia..].
Qed.

Lemma pending_is_overwritten_witness :
  let w' := snd (@main Outsides.Cas Outsides.env0 two_row_world) in
  let status v :=
    {| Sheet.vr_sheet := "Truth_Table"; Sheet.vr_col := "G";
       Sheet.vr_row := 3; Sheet.vr_value := v |} in
  (exists marks, In (SheetsBatchUpdate (Some "sheet-1") marks)
                    (new_events two_row_world w') /\
                 In (status (JS.VStr "PENDING")) marks) /\
  (exists updates v,
     last (trace w') = Some (SheetsBatchUpdate (Some "sheet-1") updates) /\
     In (status v) updates /\
     (v = JS.VStr EmptyString \/ v = JS.VStr "ERROR")) /\
  (cell_at (sheet w') 3 6 = JS.VStr EmptyString \/
   cell_at (sheet w') 3 6 = JS.VStr "ERROR").
Proof.
  apply (@pending_is_overwritten Outsides.Cas Outsides.env0 two_row_world
           (snd (@main Outsides.Cas Outsides.env0 two_row_world))
           {| rowIndex1Based := 3; c_inventoryItemId := "gid://B";
              c_desired := 4; c_available := 5 |}).
  - vm_compute. reflexivity.
  - vm_compute. right. left. reflexivity.
Defined.

(* ===================================================================== *)
(** ** The sheet after a run *)
(* ===================================================================== *)

Lemma eligible_from_lb rows i c :
  In c (eligible_from i rows) -> i < rowIndex1Based c.
Proof.
  intros H. apply (In_take_opt_eligible None) in H as (j & row & _ & Hc & _).
  rewrite (candidate_of_row_index _ _ _ Hc). lia.
Qed.




Lemma candidate_of_blank_desired i row :
  Sheet.cell row 4 = Sheet.blank -> candidate_of i row = None.
Proof.
  intros H. unfold candidate_of. rewrite H.
  destruct (JS.truthy _); [|reflexivity]. destruct (JS.trim _); reflexivity.
Qed.

Section After.
Context {O : Outside}.
Variable env : gmap string string.

Local Abbreviation sid := (spreadsheetId (CONFIG env)).
Local Abbreviation cap := (maxRowsPerRun (CONFIG env)).
Local Abbreviation read_ev := (SheetsGet sid (sheetName (CONFIG env) ++ "!A:Z")).

Lemma main_returns_ready (w w' : world) :
  main env w = (inr tt, w') -> env_ready env.
Proof.
  intros Hm. destruct (env_ready_or_missing env) as [Hr|Hmiss]; [exact Hr|].
  destruct (main_missing env w Hmiss) as (n & _ & _ & E). congruence.
Qed.

(** the PENDING marks do not reach a cell outside the status column *)
Lemma pending_keeps_cell (g : Sheet.grid) r k :
  k <> 6 ->
  cell_at (Sheet.apply_updates g (pending_updates env (scan cap g))) r k =
  cell_at g r k.
Proof.
  intros Hk.
  destruct (cell_at_apply_updates _ g r k (pending_in_grid env g))
    as [[_ H] | (u & Hu & [_ Hcol] & _)]; [exact H|].
  apply pending_entry in Hu as (c & _ & ->).
  assert (E : Sheet.col_index
                (Sheet.vr_col (at_cell env "G" c (JS.VStr "PENDING"))) = 6)
    by reflexivity.
  lia.
Qed.

(** a cell outside the status column after both bulk writes: untouched
    by the outcome batch and unchanged, or written by a record of the
    group of some candidate *)
Lemma final_cell_cases (g : Sheet.grid) groups r k :
  k <> 6 ->
  Forall2 (outcome env) (scan cap g) groups ->
  let g2 := Sheet.apply_updates
              (Sheet.apply_updates g (pending_updates env (scan cap g)))
              (concat groups) in
  (Forall (fun u => ~ targets u r k) (concat groups) /\
   cell_at g2 r k = cell_at g r k) \/
  (exists pos c gr u,
     scan cap g !! pos = Some c /\ groups !! pos = Some gr /\
     outcome env c gr /\ In u gr /\ targets u r k /\
     cell_at g2 r k = Sheet.vr_value u).
Proof.
  intros Hk HF g2. subst g2.
  set (g1 := Sheet.apply_updates g _).
  assert (HG : Forall (in_grid g1) (concat groups)).
  { pose proof (outcomes_in_grid env g groups HF) as H0.
    eapply Forall_impl; [exact H0|]. intros u Hu.
    apply in_grid_apply_updates; [apply pending_in_grid | exact Hu]. }
  destruct (cell_at_apply_updates (concat groups) g1 r k HG)
    as [[Hno Heq] | (u & Hu & Ht & Heq)].
  - left. split; [exact Hno|]. rewrite Heq. subst g1.
    apply pending_keeps_cell. exact Hk.
  - right. destruct (groups_entry env _ _ u HF Hu) as (pos & c & gr & Hc & Hg & Ho & Hin).
    exists pos, c, gr, u. repeat split; try assumption; apply Ht.
Qed.

Lemma length_final (g : Sheet.grid) groups :
  Forall2 (outcome env) (scan cap g) groups ->
  length (Sheet.apply_updates
            (Sheet.apply_updates g (pending_updates env (scan cap g)))
            (concat groups)) = length g.
Proof.
  intros HF. rewrite length_apply_updates.
  - apply length_apply_updates, pending_in_grid.
  - pose proof (outcomes_in_grid env g groups HF) as H0.
    eapply Forall_impl; [exact H0|]. intros u Hu.
    apply in_grid_apply_updates; [apply pending_in_grid | exact Hu].
Qed.



End After.



(** the message recorded for the rejected push of the sample world *)
Example failing_error_message :
  JS.slice0 40 (JS.message_or_self failing_error) =
  "Shopify userErrors: [{" ++ String JS.dquote "code" ++ String JS.dquote ":" ++
  String JS.dquote "INVALID_IN".
Proof. vm_compute. reflexivity. Qed.

(* ===================================================================== *)
(** ** Two runs in a row *)
(* ===================================================================== *)

Lemma wrote_error_false (evs : list Event) s data u :
  wrote_error evs = false ->
  In (SheetsBatchUpdate s data) evs -> In u data ->
  Sheet.vr_value u <> JS.VStr "ERROR".
Proof.
  intros Hw Hev Hu Hval.
  assert (wrote_error evs = true); [|congruence].
  apply existsb_exists. eexists. split; [exact Hev|].
  apply existsb_exists. exists u. split; [exact Hu|]. now rewrite Hval.
Qed.

(** C5 (as amended).  If a run completes, selected every eligible row
    (the cap did not cut the scan short) and recorded no ERROR, so that
    every candidate succeeded, then the sheet it leaves has no candidate:
    a second run right after it, whatever the cap, the shop and the row
    store do, only reads the sheet and writes and pushes nothing. *)
Theorem second_run_finds_nothing {O : Outside} (env : gmap string string)
  (w w1 : world) :
  main env w = (inr tt, w1) ->
  scan (maxRowsPerRun (CONFIG env)) (sheet w) = eligible (sheet w) ->
  wrote_error (new_events w w1) = false ->
  (forall maxRows, scan maxRows (sheet w1) = []) /\
  (forall res w2,
     main env w1 = (res, w2) ->
     sheet w2 = sheet w1 /\
     new_events w1 w2 =
       [SheetsGet (spreadsheetId (CONFIG env)) (sheetName (CONFIG env) ++ "!A:Z")]).
Proof.
  intros Hm Hall Hok.
  pose proof (main_returns_ready env w w1 Hm) as Hr.
  assert (Hnone : eligible (sheet w1) = []).
  { destruct (scan (maxRowsPerRun (CONFIG env)) (sheet w)) as [|c0 cs0] eqn:Es.
    { destruct (main_returns_idle env w _ _ Hm Hr Es) as (Hs & _).
      rewrite Hs. symmetry. exact Hall. }
    assert (Hne : scan (maxRowsPerRun (CONFIG env)) (sheet w) <> [])
      by (rewrite Es; discriminate).
    destruct (main_returns env w w1 Hm Hne) as (groups & fetches & HF & Hf & Ht & Hs).
    rewrite <- Es in *. clear Es c0 cs0.
    assert (Hval : forall u, In u (concat groups) ->
                             Sheet.vr_value u <> JS.VStr "ERROR").
    { intros u Hu. eapply (wrote_error_false _ _ _ u Hok); [|exact Hu].
      rewrite (new_events_app w w1 _ Ht). rewrite !in_app_iff. right. right.
      left. reflexivity. }
    assert (Hlen : length (sheet w1) = length (sheet w)).
    { rewrite Hs. apply length_final. exact HF. }
    unfold eligible. apply eligible_from_nil. intros j row2 Hj.
    rewrite lookup_drop in Hj.
    destruct (sheet w !! (1 + j)) as [row0|] eqn:Hrow0.
    2:{ apply lookup_ge_None in Hrow0. apply lookup_lt_Some in Hj. lia. }
    assert (Hcell : forall k, Sheet.cell row2 k = cell_at (sheet w1) (S (1 + j)) k).
    { intros k. cbn [cell_at]. now rewrite Hj. }
    assert (Hcell0 : forall k, Sheet.cell row0 k = cell_at (sheet w) (S (1 + j)) k).
    { intros k. cbn [cell_at]. now rewrite Hrow0. }
    destruct (candidate_of (1 + j) row0) as [c|] eqn:Hc0.
    - (* a candidate of the first run: its desired cell was cleared *)
      assert (Hin : In c (scan (maxRowsPerRun (CONFIG env)) (sheet w))).
      { rewrite Hall. unfold eligible. apply (In_take_opt_eligible None).
        exists j, row0. rewrite lookup_drop. repeat split; assumption. }
      pose proof (candidate_of_row_index _ _ _ Hc0) as Hidx.
      apply candidate_of_blank_desired. rewrite Hcell, Hs.
      destruct (final_cell_cases env (sheet w) groups (S (1 + j)) 4
                  ltac:(lia) HF)
        as [[Hno _] | (pos & c' & gr & u & _ & _ & Ho & Hu & Htg & ->)].
      + exfalso.
        destruct (groups_of_candidate env _ _ c HF Hin) as (k & g & _ & _ & Ho & Hsub).
        destruct Ho as [(w0 & p & w0' & _ & ->) | (w0 & err & w0' & _ & ->)].
        * rewrite Forall_forall in Hno.
          apply (Hno (at_cell env "E" c Sheet.blank)).
          -- apply list_elem_of_In, Hsub. cbn. tauto.
          -- split; [cbn; lia | reflexivity].
        * apply (Hval (at_cell env "G" c (JS.VStr "ERROR"))); [|reflexivity].
          apply Hsub. cbn. tauto.
      + destruct (outcome_entry env c' gr u Ho Hu) as (_ & Hcase).
        destruct Htg as [_ Hcol].
        destruct Hcase as [[H _]|[H|[H|[_ [H _]]]]]; try lia. exact H.
    - (* not a candidate: no record reaches the row *)
      assert (Hkeep : forall k, k <> 6 ->
                cell_at (sheet w1) (S (1 + j)) k = cell_at (sheet w) (S (1 + j)) k).
      { intros k Hk. rewrite Hs.
        destruct (final_cell_cases env (sheet w) groups (S (1 + j)) k Hk HF)
          as [[_ H] | (pos & c' & gr & u & Hpos & _ & Ho & Hu & [Hrow Hcol] & _)];
          [exact H | exfalso].
        destruct (outcome_entry env c' gr u Ho Hu) as (Hr' & _).
        assert (Hin' : In c' (scan (maxRowsPerRun (CONFIG env)) (sheet w)))
          by (apply list_elem_of_In, list_elem_of_lookup; eauto).
        destruct (scan_candidate_row _ _ _ Hin') as (i' & row' & Hi' & Hrow' & Hc' & _).
        assert (i' = 1 + j) by lia. subst i'. congruence. }
      rewrite <- Hc0.
      apply candidate_of_ext; rewrite Hcell, Hcell0; apply Hkeep; lia. }
  split.
  - intros maxRows. rewrite scan_spec, Hnone.
    destruct (effective_cap maxRows); cbn; [apply take_nil | reflexivity].
  - intros res w2 Hm2. apply (main_returns_idle env w1 res w2 Hm2 Hr).
    rewrite scan_spec, Hnone.
    destruct (effective_cap _); cbn; [apply take_nil | reflexivity].
Qed.

Lemma second_run_finds_nothing_witness :
  let w1 := snd (@main Outsides.Cas Outsides.env0 two_row_world) in
  (forall maxRows, scan maxRows (sheet w1) = []) /\
  (forall res w2,
     @main Outsides.Cas Outsides.env0 w1 = (res, w2) ->
     sheet w2 = sheet w1 /\
     new_events w1 w2 = [SheetsGet (Some "sheet-1") "Truth_Table!A:Z"]).
Proof.
  apply (@second_run_finds_nothing Outsides.Cas Outsides.env0 two_row_world
           (snd (@main Outsides.Cas Outsides.env0 two_row_world))).
  - vm_compute. reflexivity.
  - vm_compute. reflexivity.
  - vm_compute. reflexivity.
Defined.

(** C5 (as stated) fails: with a per-run maximum of 1 and two eligible
    rows, the only candidate of the first run succeeds, and the second
    run, started on the sheet the first one leaves, still finds the other
    row and pushes it. *)
Lemma capped_run_leaves_a_candidate :
  let env := env_max "1" in
  let w1 := snd (@main Outsides.Cas env two_row_world) in
  @main Outsides.Cas env two_row_world = (inr tt, w1) /\
  wrote_error (new_events two_row_world w1) = false /\
  scan (maxRowsPerRun (CONFIG env)) (sheet w1) =
    [ {| rowIndex1Based := 3; c_inventoryItemId := "gid://B";
         c_desired := 4; c_available := 5 |} ] /\
  pushed (new_events w1 (snd (@main Outsides.Cas env w1))) = [ ("gid://B", 4%Z, 5%Z) ].
Proof.
  repeat apply conj; vm_compute; reflexivity.
Qed.

(** ** Rows a run leaves alone *)

(** X9.  Whatever happens, a run only writes to rows of its candidates:
    the rows the scan did not select, those beyond the cap among them,
    receive no write. *)
Lemma writes_only_candidate_rows {O : Outside} (env : gmap string string)
  (w : world) ev r :
  In ev (new_events w (snd (main env w))) ->
  In r (written_rows ev) ->
  exists c, In c (scan (maxRowsPerRun (CONFIG env)) (sheet w)) /\
            rowIndex1Based c = r.
Proof.
  intros Hev Hr.
  destruct (env_ready_or_missing env) as [Hready|Hmiss].
  2:{ destruct (main_missing env w Hmiss) as (n & _ & _ & E).
      rewrite E in Hev. cbn in Hev. unfold new_events in Hev.
      rewrite drop_all in Hev. contradiction. }
  destruct (sheets_call (out w)) as [o1 f1] eqn:Eget.
  pose proof (main_ready env w Hready) as Hm. rewrite Eget in Hm.
  destruct f1 as [e|].
  { rewrite Hm in Hev. cbn [snd] in Hev. rewrite new_events_after_get in Hev.
    destruct Hev as [<-|[]]. contradiction. }
  destruct (scan (maxRowsPerRun (CONFIG env)) (sheet w)) as [|c cs] eqn:Es.
  { rewrite Hm in Hev. cbn [snd] in Hev. rewrite new_events_after_get in Hev.
    destruct Hev as [<-|[]]. contradiction. }
  clear Hm.
  assert (Hpend : forall u, In u (pending_updates env (c :: cs)) ->
            exists c', In c' (c :: cs) /\ rowIndex1Based c' = Sheet.vr_row u).
  { intros u Hu. apply pending_entry in Hu as (c' & Hc' & ->). eauto. }
  pose proof (main_candidates env w o1 c cs Hready Eget Es) as Hc. cbn zeta in Hc.
  destruct (sheets_call o1) as [o2 [e|]].
  { rewrite Hc in Hev. cbn [snd] in Hev.
    erewrite new_events_app in Hev by reflexivity.
    destruct Hev as [<-|[<-|[]]]; [contradiction|].
    cbn [written_rows] in Hr. apply in_map_iff in Hr as (u & <- & Hu). auto. }
  destruct Hc as (groups & fetches & o3 & HF & Hf & Hc).
  assert (Hevs : new_events w (snd (main env w)) =
                 ([SheetsGet (spreadsheetId (CONFIG env)) (sheetName (CONFIG env) ++ "!A:Z");
                   SheetsBatchUpdate (spreadsheetId (CONFIG env)) (pending_updates env (c :: cs))]
                  ++ fetches ++
                  [SheetsBatchUpdate (spreadsheetId (CONFIG env)) (concat groups)])%list).
  { destruct (sheets_call o3) as [o4 [e|]]; rewrite Hc; apply new_events_app; reflexivity. }
  rewrite Hevs in Hev. rewrite !in_app_iff in Hev.
  destruct Hev as [[<-|[<-|[]]] | [Hfe | [<-|[]]]].
  - contradiction.
  - cbn [written_rows] in Hr. apply in_map_iff in Hr as (u & <- & Hu). auto.
  - rewrite Forall_forall in Hf. apply list_elem_of_In, Hf in Hfe.
    destruct ev; cbn in Hfe; contradiction.
  - cbn [written_rows] in Hr. apply in_map_iff in Hr as (u & <- & Hu).
    rewrite <- Es in HF.
    destruct (groups_entry env _ _ u HF Hu) as (k & c' & gr & Hk & _ & Ho & Hin).
    destruct (outcome_entry env c' gr u Ho Hin) as (Hrow & _).
    exists c'. split; [|congruence].
    rewrite <- Es. apply list_elem_of_In, list_elem_of_lookup. eauto.
Qed.

(* ===================================================================== *)
(** ** The end-to-end scenarios of the specification *)
(* ===================================================================== *)

(** A: the live quantity equals the baseline; one conditional set with
    precondition 10; desired and status emptied, available left at 10 *)
Example scenario_A_run :
  let r := @run Outsides.Cas Outsides.env0 scenario_A in
  fst r = 0%Z /\
  pushed (trace (snd r)) = [ ("gid://A", 7%Z, 10%Z) ] /\
  out (snd r) !! "gid://A" = Some 7%Z /\
  map (cell_at (sheet (snd r)) 2) [4; 5; 6; 7; 8] =
    [ JS.VStr EmptyString; Outsides.int 10; JS.VStr EmptyString;
      JS.VStr "2025-01-01T00:00:00.000Z"; JS.VStr EmptyString ].
Proof. repeat apply conj; vm_compute; reflexivity. Qed.

(** B: the live quantity has drifted to 8; the first set is stale, the
    quantity is read again and the set retried with precondition 8 *)
Example scenario_B_run :
  let r := @run Outsides.Cas Outsides.env0 scenario_B in
  fst r = 0%Z /\
  pushed (trace (snd r)) = [ ("gid://A", 7%Z, 10%Z); ("gid://A", 7%Z, 8%Z) ] /\
  out (snd r) !! "gid://A" = Some 7%Z /\
  sheet (snd r) = sheet (snd (@run Outsides.Cas Outsides.env0 scenario_A)).
Proof. repeat apply conj; vm_compute; reflexivity. Qed.

(** C: the shop rejects the item; no retry, status ERROR, the message in
    the last-error cell, desired untouched, the row still eligible *)
Example scenario_C_run :
  let r := @run Outsides.Cas Outsides.env0 scenario_C in
  fst r = 0%Z /\
  pushed (trace (snd r)) = [ ("gid://A", 7%Z, 10%Z) ] /\
  map (cell_at (sheet (snd r)) 2) [4; 5; 6; 7] =
    [ Outsides.int 7; Outsides.int 10; JS.VStr "ERROR"; JS.VStr EmptyString ] /\
  (exists msg, cell_at (sheet (snd r)) 2 8 = JS.VStr msg /\
               JS.slice0 19 msg = "Shopify userErrors:") /\
  eligible (sheet (snd r)) = [candidate_A].
Proof.
  intros r.
  split; [vm_compute; reflexivity|]. split; [vm_compute; reflexivity|].
  split; [vm_compute; reflexivity|]. split; [|vm_compute; reflexivity].
  eexists. split; [vm_compute; reflexivity|]. vm_compute. reflexivity.
Qed.

(** the range text of a PENDING mark, as the template literal builds it *)
Example pending_range_text :
  Sheet.range_a1 (at_cell Outsides.env0 "G" candidate_A (JS.VStr "PENDING")) =
  "Truth_Table!G2".
Proof. vm_compute. reflexivity. Qed.

(* ===================================================================== *)
(** ** More on the candidate scan *)
(* ===================================================================== *)

Lemma scan_first_N_witness :
  scan (JS.Fin (inject_Z (Z.of_nat 2))) three_row_sheet =
  take 2 (eligible three_row_sheet).
Proof. apply (scan_first_N 2 three_row_sheet). lia. Defined.

(** X2.  A per-run maximum that does not read as a number (its [Number]
    is NaN) switches the cap off: [candidates.length >= NaN] is never
    true, so every eligible row is selected. *)
Theorem scan_cap_not_a_number (env : gmap string string) v (rows : Sheet.grid) :
  env !! "MAX_ROWS_PER_RUN" = Some v ->
  JS.Number v = JS.NaN ->
  scan (maxRowsPerRun (CONFIG env)) rows = eligible rows.
Proof.
  intros Hv Hn. unfold CONFIG. cbn [maxRowsPerRun]. rewrite Hv.
  destruct v as [|a r]; [discriminate Hn|].
  cbn [or_default]. rewrite Hn. now rewrite scan_spec.
Qed.

Lemma scan_cap_not_a_number_witness :
  scan (maxRowsPerRun (CONFIG (env_max "abc"))) three_row_sheet =
  eligible three_row_sheet.
Proof.
  apply (scan_cap_not_a_number (env_max "abc") "abc" three_row_sheet).
  - reflexivity.
  - vm_compute. reflexivity.
Defined.

Lemma eligible_from_increasing rows : forall i a b ca cb,
  eligible_from i rows !! a = Some ca ->
  eligible_from i rows !! b = Some cb ->
  a < b -> rowIndex1Based ca < rowIndex1Based cb.
Proof.
  induction rows as [|r rest IH]; intros i a b ca cb Ha Hb Hab; [discriminate Ha|].
  cbn [eligible_from] in Ha, Hb.
  destruct (candidate_of i r) as [c|] eqn:E; [|exact (IH _ _ _ _ _ Ha Hb Hab)].
  destruct b as [|b]; [lia|]. cbn in Hb.
  destruct a as [|a].
  - cbn in Ha. injection Ha as <-.
    assert (Hin : In cb (eligible_from (S i) rest))
      by (apply list_elem_of_In, list_elem_of_lookup; eauto).
    apply eligible_from_lb in Hin.
    rewrite (candidate_of_row_index _ _ _ E). lia.
  - cbn in Ha. apply (IH _ _ _ _ _ Ha Hb). lia.
Qed.

(** X3.  The candidates come out in sheet order: their row numbers are
    strictly increasing, every one lies between 2 (the header row is never
    a candidate) and the number of rows read, and there are no more
    candidates than data rows. *)
Theorem scan_rows_increasing maxRows (rows : Sheet.grid) :
  (forall a b ca cb,
     scan maxRows rows !! a = Some ca -> scan maxRows rows !! b = Some cb ->
     a < b -> rowIndex1Based ca < rowIndex1Based cb) /\
  Forall (fun c => 2 <= rowIndex1Based c <= length rows) (scan maxRows rows) /\
  length (scan maxRows rows) <= length rows - 1.
Proof.
  split; [|split].
  - intros a b ca cb Ha Hb Hab. rewrite scan_spec in Ha, Hb. unfold eligible in *.
    destruct (effective_cap maxRows) as [n|]; cbn in Ha, Hb.
    + apply lookup_take_Some in Ha as [Ha _]. apply lookup_take_Some in Hb as [Hb _].
      exact (eligible_from_increasing _ _ _ _ _ _ Ha Hb Hab).
    + exact (eligible_from_increasing _ _ _ _ _ _ Ha Hb Hab).
  - apply Forall_forall. intros c Hc. apply list_elem_of_In in Hc.
    destruct (scan_candidate_row _ _ _ Hc) as (i & row & Hi & Hrow & Hcand & _).
    apply In_scan in Hc as (i' & row' & Hi' & _ & Hc' & _).
    pose proof (candidate_of_row_index _ _ _ Hc').
    apply lookup_lt_Some in Hrow. lia.
  - rewrite scan_spec. unfold eligible.
    pose proof (length_eligible_from_le (drop 1 rows) 1) as H.
    rewrite length_drop in H.
    destruct (effective_cap maxRows) as [n|]; cbn; [|exact H].
    rewrite length_take. lia.
Qed.

(* ===================================================================== *)
(** ** Texts and their characters; whole-number cells *)
(* ===================================================================== *)

Lemma append_empty_r s : s ++ EmptyString = s.
Proof.
  induction s as [|c s IH]; [reflexivity|].
  change (String c (s ++ EmptyString) = String c s). now rewrite IH.
Qed.

Lemma append_cons c (a b : string) : String c a ++ b = String c (a ++ b).
Proof. reflexivity. Qed.

Lemma append_nil (b : string) : EmptyString ++ b = b.
Proof. reflexivity. Qed.

Lemma str_app_assoc (a b c : string) : (a ++ b) ++ c = a ++ (b ++ c).
Proof.
  induction a as [|x a IH]; [reflexivity|].
  rewrite !append_cons. now rewrite IH.
Qed.

Lemma str_length_app (a b : string) :
  String.length (a ++ b) = String.length a + String.length b.
Proof.
  induction a as [|x a IH]; [reflexivity|].
  rewrite append_cons. cbn [String.length]. now rewrite IH.
Qed.

Lemma text_app (a b : list (string * N)) : JS.text (a ++ b)%list = JS.text a ++ JS.text b.
Proof.
  induction a as [|x a IH]; [reflexivity|].
  cbn [app JS.text]. now rewrite IH, str_app_assoc.
Qed.

Lemma width_cases b0 r0 :
  JS.width b0 r0 = 1 \/
  (JS.width b0 r0 = 2 /\ exists b1 r1, r0 = String b1 r1) \/
  (JS.width b0 r0 = 3 /\ exists b1 b2 r2, r0 = String b1 (String b2 r2)) \/
  (JS.width b0 r0 = 4 /\ exists b1 b2 b3 r3, r0 = String b1 (String b2 (String b3 r3))).
Proof.
  unfold JS.width.
  destruct r0 as [|b1 [|b2 [|b3 r3]]];
    repeat match goal with
           | |- context [if ?c then _ else _] => destruct c
           end; eauto 12.
Qed.

(** One character is read off the front of a text, and what follows it
    does not matter once its width is known. *)
Lemma chars_step b0 r0 :
  exists pre s' p,
    r0 = pre ++ s' /\
    String.length pre = JS.width b0 r0 - 1 /\
    JS.chars (String b0 r0) = (String b0 pre, p) :: JS.chars s' /\
    (forall x, JS.width b0 (pre ++ x) = JS.width b0 r0 ->
               JS.chars (String b0 (pre ++ x)) = (String b0 pre, p) :: JS.chars x).
Proof.
  destruct (width_cases b0 r0) as [W|[[W (b1 & r1 & ->)]|[[W (b1 & b2 & r2 & ->)]|[W (b1 & b2 & b3 & r3 & ->)]]]].
  - exists EmptyString, r0, (JS.byte b0). repeat split.
    + now rewrite W.
    + cbn [JS.chars]. rewrite W. now destruct r0 as [|? [|? [|? ?]]].
    + intros x Hx. rewrite ?append_cons, ?append_nil in *. cbn [JS.chars]. rewrite Hx, W.
      now destruct x as [|? [|? [|? ?]]].
  - exists (String b1 EmptyString), r1, (JS.point2 b0 b1). repeat split.
    + now rewrite W.
    + cbn [JS.chars]. now rewrite W.
    + intros x Hx. rewrite ?append_cons, ?append_nil in *. cbn [JS.chars]. now rewrite Hx, W.
  - exists (String b1 (String b2 EmptyString)), r2, (JS.point3 b0 b1 b2). repeat split.
    + now rewrite W.
    + cbn [JS.chars]. now rewrite W.
    + intros x Hx. rewrite ?append_cons, ?append_nil in *. cbn [JS.chars]. now rewrite Hx, W.
  - exists (String b1 (String b2 (String b3 EmptyString))), r3, (JS.point4 b0 b1 b2 b3).
    repeat split.
    + now rewrite W.
    + cbn [JS.chars]. now rewrite W.
    + intros x Hx. rewrite ?append_cons, ?append_nil in *. cbn [JS.chars]. now rewrite Hx, W.
Qed.

Lemma width_stable b0 pre y t z :
  clean z ->
  String.length pre = JS.width b0 (pre ++ y ++ t) - 1 ->
  JS.width b0 (pre ++ y ++ z) = JS.width b0 (pre ++ y ++ t).
Proof.
  intros Hz Hlen.
  destruct (width_cases b0 (pre ++ y ++ t)) as [W|[[W _]|[[W _]|[W _]]]];
    rewrite W in Hlen |- *.
  - destruct pre; [|discriminate]. rewrite !append_nil in *.
    revert W. unfold JS.width.
    destruct y as [|y0 [|y1 [|y2 y3]]], z as [|z0 [|z1 [|z2 z3]]];
      rewrite ?append_cons, ?append_nil; cbn [clean] in Hz; rewrite ?Hz;
      rewrite ?andb_false_r; cbn [andb];
      try (destruct t as [|t0 [|t1 [|t2 t3]]]);
      repeat match goal with
             | |- context [if ?c then _ else _] => destruct c
             end; try reflexivity; try discriminate.
  - destruct pre as [|b1 [|? ?]]; try discriminate. rewrite !append_cons in *.
    revert W. unfold JS.width.
    repeat match goal with
           | |- context [if ?c then _ else _] => destruct c
           | |- context [match ?s with EmptyString => _ | String _ _ => _ end] => destruct s
           end; try reflexivity; try discriminate.
  - destruct pre as [|b1 [|b2 [|? ?]]]; try discriminate. rewrite !append_cons in *.
    revert W. unfold JS.width.
    repeat match goal with
           | |- context [if ?c then _ else _] => destruct c
           | |- context [match ?s with EmptyString => _ | String _ _ => _ end] => destruct s
           end; try reflexivity; try discriminate.
  - destruct pre as [|b1 [|b2 [|b3 [|? ?]]]]; try discriminate. rewrite !append_cons in *.
    revert W. unfold JS.width.
    repeat match goal with
           | |- context [if ?c then _ else _] => destruct c
           | |- context [match ?s with EmptyString => _ | String _ _ => _ end] => destruct s
           end; try reflexivity; try discriminate.
Qed.

Lemma text_chars_le n : forall s, String.length s <= n -> JS.text (JS.chars s) = s.
Proof.
  induction n as [|n IH]; intros [|b0 r0] Hn; try reflexivity; cbn in Hn; [lia|].
  destruct (chars_step b0 r0) as (pre & s' & p & Hr & _ & Hc & _).
  rewrite Hc. cbn [JS.text fst]. rewrite IH.
  - rewrite append_cons. now rewrite Hr.
  - rewrite Hr, str_length_app in Hn. lia.
Qed.

Lemma text_chars s : JS.text (JS.chars s) = s.
Proof. now apply (text_chars_le (String.length s)). Qed.

(** Cutting a text between two of its characters, and putting after the
    cut a text that does not begin with a continuation byte, leaves the
    characters before the cut as they were. *)
Lemma chars_take_le n : forall s k z,
  String.length s <= n -> clean z ->
  JS.chars (JS.text (take k (JS.chars s)) ++ z) =
  (take k (JS.chars s) ++ JS.chars z)%list.
Proof.
  induction n as [|n IH]; intros [|b0 r0] k z Hn Hz; cbn in Hn; try lia.
  - now destruct k.
  - now destruct k.
  - destruct k as [|k]; [reflexivity|].
    destruct (chars_step b0 r0) as (pre & s' & p & Hr & Hlen & Hc & Hstable).
    rewrite Hc. cbn [take JS.text fst app].
    assert (Hs' : String.length s' <= n).
    { rewrite Hr, str_length_app in Hn. lia. }
    rewrite <- (IH s' k z Hs' Hz).
    rewrite str_app_assoc, append_cons. apply Hstable.
    assert (Ht : s' = JS.text (take k (JS.chars s')) ++ JS.text (drop k (JS.chars s'))).
    { now rewrite <- text_app, take_drop, text_chars. }
    assert (Hr' : r0 = pre ++ JS.text (take k (JS.chars s')) ++
                         JS.text (drop k (JS.chars s'))) by now rewrite <- Ht.
    rewrite Hr' at 1. apply width_stable; [exact Hz|]. now rewrite <- Hr'.
Qed.

Lemma chars_take s k z :
  clean z ->
  JS.chars (JS.text (take k (JS.chars s)) ++ z) =
  (take k (JS.chars s) ++ JS.chars z)%list.
Proof. now apply (chars_take_le (String.length s)). Qed.

Lemma chars_surrogate x y :
  (x < 64)%N -> (y < 64)%N ->
  JS.chars (String (ascii_of_N 237)
              (String (ascii_of_N (128 + x)) (String (ascii_of_N (128 + y)) EmptyString))) =
  [ (String (ascii_of_N 237)
       (String (ascii_of_N (128 + x)) (String (ascii_of_N (128 + y)) EmptyString)),
     (53248 + x * 64 + y)%N) ].
Proof.
  intros Hx Hy.
  assert (W : JS.width (ascii_of_N 237)
                (String (ascii_of_N (128 + x)) (String (ascii_of_N (128 + y)) EmptyString)) = 3).
  { unfold JS.width, JS.is_cont, JS.point3, JS.byte.
    rewrite !N_ascii_embedding by lia.
    replace (128 <=? 128 + x)%N with true by (symmetry; apply N.leb_le; lia).
    replace (128 + x <=? 191)%N with true by (symmetry; apply N.leb_le; lia).
    replace (128 <=? 128 + y)%N with true by (symmetry; apply N.leb_le; lia).
    replace (128 + y <=? 191)%N with true by (symmetry; apply N.leb_le; lia).
    replace (2048 <=? _)%N with true by (symmetry; apply N.leb_le; lia).
    reflexivity. }
  cbn [JS.chars]. rewrite W. unfold JS.point3, JS.byte.
  rewrite !N_ascii_embedding by lia.
  do 2 f_equal. lia.
Qed.

Lemma high_surrogate_char p :
  clean (JS.high_surrogate p) /\
  JS.count_units (JS.chars (JS.high_surrogate p)) = 1.
Proof.
  unfold JS.high_surrogate.
  set (h := (55296 + ((p - 65536) / 1024) mod 1024)%N).
  assert (Hh : (55296 <= h < 56320)%N).
  { unfold h. clear h. generalize (N.mod_lt ((p - 65536) / 1024) 1024).
    generalize (((p - 65536) / 1024) mod 1024)%N. intros m Hm.
    specialize (Hm ltac:(discriminate)). lia. }
  assert (H13 : (h / 4096 = 13)%N).
  { symmetry. apply (N.div_unique h 4096 13 (h - 53248)); lia. }
  rewrite H13. change (224 + 13)%N with 237%N.
  assert (Hx : ((h / 64) mod 64 < 64)%N) by (apply N.mod_lt; discriminate).
  assert (Hy : (h mod 64 < 64)%N) by (apply N.mod_lt; discriminate).
  split.
  - reflexivity.
  - rewrite (chars_surrogate ((h / 64) mod 64) (h mod 64) Hx Hy). cbn [JS.count_units]. unfold JS.units. cbn [snd].
    match goal with
    | |- context [(?a <? 65536)%N] => replace (a <? 65536)%N with true; [reflexivity|]
    end.
    symmetry; apply N.ltb_lt.
    clearbody h. revert Hx Hy.
    generalize ((h / 64) mod 64)%N, (h mod 64)%N. intros; lia.
Qed.

Lemma count_units_app a b :
  JS.count_units (a ++ b)%list = JS.count_units a + JS.count_units b.
Proof. induction a as [|x a IH]; cbn [app JS.count_units]; lia. Qed.

Lemma take_units_shape : forall cs n,
  exists k z,
    JS.take_units n cs = JS.text (take k cs) ++ z /\
    clean z /\
    JS.count_units (take k cs) + JS.count_units (JS.chars z) <= n.
Proof.
  induction cs as [|c r IH]; intros n.
  - exists 0, EmptyString. destruct n; repeat split; cbn; lia.
  - destruct n as [|n].
    + exists 0, EmptyString. repeat split; cbn; lia.
    + cbn [JS.take_units]. unfold JS.units at 1.
      destruct (snd c <? 65536)%N eqn:Ec.
      * destruct (IH n) as (k & z & E & Hz & Hn).
        exists (S k), z. cbn [take JS.text JS.count_units]. rewrite E, str_app_assoc.
        unfold JS.units. rewrite Ec. repeat split; [exact Hz | lia].
      * destruct n as [|n].
        -- exists 0, (JS.high_surrogate (snd c)).
           destruct (high_surrogate_char (snd c)) as [Hz Hu].
           cbn [take JS.text JS.count_units]. rewrite Hu. repeat split; [exact Hz | lia].
        -- destruct (IH n) as (k & z & E & Hz & Hn).
           exists (S k), z. cbn [take JS.text JS.count_units]. rewrite E, str_app_assoc.
           unfold JS.units. rewrite Ec. repeat split; [exact Hz | lia].
Qed.

(** [slice(0, n)] is at most [n] code units long. *)
Lemma length_slice0 n s : JS.length (JS.slice0 n s) <= n.
Proof.
  unfold JS.length, JS.slice0.
  destruct (take_units_shape (JS.chars s) n) as (k & z & E & Hz & Hn).
  rewrite E, (chars_take s k z Hz), count_units_app. exact Hn.
Qed.

Lemma width_low b0 r : (JS.byte b0 < 194)%N -> JS.width b0 r = 1.
Proof.
  intros H.
  assert (E2 : (194 <=? JS.byte b0)%N = false) by (apply N.leb_gt; lia).
  assert (E3 : (224 <=? JS.byte b0)%N = false) by (apply N.leb_gt; lia).
  assert (E4 : (240 <=? JS.byte b0)%N = false) by (apply N.leb_gt; lia).
  unfold JS.width. destruct r as [|b1 [|b2 [|b3 r3]]]; rewrite ?E2, ?E3, ?E4; reflexivity.
Qed.

Lemma chars_low b0 r :
  (JS.byte b0 < 194)%N ->
  JS.chars (String b0 r) = (String b0 EmptyString, JS.byte b0) :: JS.chars r.
Proof.
  intros H. cbn [JS.chars]. rewrite (width_low b0 r H).
  now destruct r as [|? [|? [|? ?]]].
Qed.

Lemma chars_no_space s :
  no_space s = true -> Forall (fun c => JS.is_space (snd c) = false) (JS.chars s).
Proof.
  induction s as [|c r IH]; cbn [no_space]; intros H; [constructor|].
  apply andb_true_iff in H as [H Hr]. apply andb_true_iff in H as [Hlow Hsp].
  apply N.ltb_lt in Hlow. apply negb_true_iff in Hsp.
  rewrite chars_low by lia. constructor; [exact Hsp | exact (IH Hr)].
Qed.

Lemma drop_spaces_none cs :
  Forall (fun c => JS.is_space (snd c) = false) cs -> JS.drop_spaces cs = cs.
Proof. intros [|c r Hc _]; [reflexivity|]. cbn [JS.drop_spaces]. now rewrite Hc. Qed.

(** text of bytes below 128 without white space is its own trim *)
Lemma trim_no_space s : no_space s = true -> JS.trim s = s.
Proof.
  intros H. apply chars_no_space in H. unfold JS.trim.
  rewrite (drop_spaces_none _ H).
  rewrite drop_spaces_none by (apply Forall_rev; exact H).
  rewrite rev_involutive. apply text_chars.
Qed.

Lemma digit_not_space c :
  JS.is_digit c = true ->
  (JS.byte c <? 128)%N && negb (JS.is_space (JS.byte c)) = true.
Proof.
  intros H. destruct c as [[] [] [] [] [] [] [] []]; try discriminate H; reflexivity.
Qed.

Lemma all_digits_no_space ds : all_digits ds = true -> no_space ds = true.
Proof.
  induction ds as [|c r IH]; cbn [all_digits no_space]; [reflexivity|]. intros H.
  apply andb_true_iff in H as [Hc Hr].
  now rewrite (digit_not_space c Hc), (IH Hr).
Qed.

Lemma span_digits_all ds :
  all_digits ds = true -> JS.span_digits ds = (ds, EmptyString).
Proof.
  induction ds as [|c r IH]; cbn; [reflexivity|]. intros H.
  apply andb_true_iff in H as [Hc Hr]. now rewrite Hc, (IH Hr).
Qed.

Lemma round_half_even_1 a : JS.round_half_even a 1 = a.
Proof.
  unfold JS.round_half_even. rewrite Z.div_1_r, Z.mod_1_r. reflexivity.
Qed.

(** a positive whole number below 2^53 is a binary64 value *)
Lemma round64_pos_exact n :
  (0 < n < 2 ^ 53)%Z -> JS.round64_pos n 1 = Some (inject_Z n).
Proof.
  intros [Hpos Hlt]. unfold JS.round64_pos, JS.ilog2.
  change (Z.log2 1) with 0%Z. rewrite Z.sub_0_r.
  pose proof (Z.log2_nonneg n) as Hl0.
  pose proof (Z.log2_spec n Hpos) as [Hlo _].
  assert (Hl52 : (Z.log2 n < 53)%Z) by (apply Z.log2_lt_pow2; assumption).
  destruct (Z.leb_spec 0 (Z.log2 n)) as [_|]; [|lia].
  rewrite Z.mul_1_l.
  destruct (Z.leb_spec (2 ^ Z.log2 n) n) as [_|]; [|lia].
  rewrite Z.max_l by lia.
  destruct (Z.leb_spec 0 (Z.log2 n - 52)) as [Hp|Hp].
  - assert (Hz : (Z.log2 n - 52 = 0)%Z) by lia. rewrite Hz.
    change (2 ^ 0)%Z with 1%Z. rewrite Z.mul_1_l, round_half_even_1, Z.mul_1_r.
    assert (H1024 : (2 ^ 53 <= 2 ^ 1024)%Z) by (apply Z.pow_le_mono_r; lia).
    destruct (Z.leb_spec (2 ^ 1024) n) as [|_]; [lia|]. cbn [andb].
    unfold JS.scale2. cbn [Z.leb Z.compare]. now rewrite Z.mul_1_r.
  - cbn [andb]. rewrite round_half_even_1. unfold JS.scale2.
    destruct (Z.leb_spec 0 (Z.log2 n - 52)) as [|_]; [lia|].
    f_equal. rewrite <- (inject_Z_Qred n). apply Qred_complete.
    unfold Qeq. cbn [Qnum Qden inject_Z].
    rewrite Z2Pos.id by (apply Z.pow_pos_nonneg; lia). lia.
Qed.

Lemma round64_int v :
  (0 <= v < 2 ^ 53)%Z ->
  JS.round64 (inject_Z v) = JS.Fin (inject_Z v) /\
  JS.round64 (Qopp (inject_Z v)) = JS.Fin (Qopp (inject_Z v)).
Proof.
  intros [H0 Hlt]. destruct v as [|p|p]; [split; reflexivity | | lia].
  unfold JS.round64. cbn [Qnum Qden inject_Z Qopp].
  change (- Z.pos p)%Z with (Z.neg p). cbv iota.
  rewrite (round64_pos_exact (Zpos p)) by lia. split; reflexivity.
Qed.

Lemma trunc_int v : JS.trunc (inject_Z v) = v /\ JS.trunc (Qopp (inject_Z v)) = (- v)%Z.
Proof. unfold JS.trunc. cbn. rewrite !Z.quot_1_r. split; reflexivity. Qed.

(** a literal made of digits only is read as its decimal value *)
Lemma parse_unsigned_digits ds :
  ds <> EmptyString -> all_digits ds = true ->
  JS.parse_unsigned_decimal ds = Some (inject_Z (JS.digits_value ds 0)).
Proof.
  intros Hne Hd. unfold JS.parse_unsigned_decimal.
  rewrite (span_digits_all ds Hd).
  destruct ds as [|c r]; [contradiction|].
  cbn [JS.parse_exponent String.length]. rewrite append_empty_r.
  unfold JS.scale10. cbn [Z.of_nat Z.sub Z.opp Z.add Z.leb Z.compare].
  now rewrite Z.mul_1_r.
Qed.

Lemma digit_first_decimal c r :
  JS.is_digit c = true ->
  JS.parse_decimal (String c r) =
  match JS.parse_unsigned_decimal (String c r) with
  | Some q => JS.round64 q
  | None => JS.NaN
  end.
Proof.
  intros H.
  destruct c as [[] [] [] [] [] [] [] []]; try discriminate H; reflexivity.
Qed.

Lemma digit_first_not_infinity c r :
  JS.is_digit c = true -> String.eqb (String c r) "Infinity" = false.
Proof.
  intros H.
  destruct c as [[] [] [] [] [] [] [] []]; try discriminate H; reflexivity.
Qed.

(** a text that starts with a digit followed by a digit (or nothing), or
    with a sign, is not a binary, octal or hex literal *)
Lemma Number_decimal_digits c r :
  JS.trim (String c r) = String c r ->
  JS.is_digit c = true ->
  match r with String c2 _ => JS.is_digit c2 = true | EmptyString => True end ->
  JS.Number (String c r) = JS.parse_decimal (String c r).
Proof.
  intros Ht Hc Hr. unfold JS.Number. rewrite Ht.
  destruct c as [[] [] [] [] [] [] [] []]; try discriminate Hc; try reflexivity.
  destruct r as [|c2 r2]; [reflexivity|].
  destruct c2 as [[] [] [] [] [] [] [] []]; try discriminate Hr; reflexivity.
Qed.

Lemma digits_value_nonneg ds : forall acc,
  (0 <= acc)%Z -> (0 <= JS.digits_value ds acc)%Z.
Proof.
  induction ds as [|c r IH]; intros acc H; cbn; [exact H|].
  apply IH. unfold JS.digit_val. lia.
Qed.

(** [Number] on an optionally signed run of digits below 2^53 *)
Lemma Number_whole ds :
  ds <> EmptyString -> all_digits ds = true ->
  (JS.digits_value ds 0 < 2 ^ 53)%Z ->
  JS.Number ds = JS.Fin (inject_Z (JS.digits_value ds 0)) /\
  JS.Number (String "+" ds) = JS.Fin (inject_Z (JS.digits_value ds 0)) /\
  JS.Number (String "-" ds) = JS.Fin (Qopp (inject_Z (JS.digits_value ds 0))).
Proof.
  intros Hne Hd Hlt.
  pose proof (digits_value_nonneg ds 0 ltac:(lia)) as H0.
  destruct (round64_int (JS.digits_value ds 0) (conj H0 Hlt)) as [Hr Hrn].
  pose proof (parse_unsigned_digits ds Hne Hd) as Hp.
  pose proof (all_digits_no_space ds Hd) as Hns.
  destruct ds as [|c r]; [contradiction|].
  pose proof Hd as Hd'. cbn [all_digits] in Hd'.
  apply andb_true_iff in Hd' as [Hc Hrd].
  split; [|split].
  - rewrite Number_decimal_digits.
    + rewrite (digit_first_decimal c r Hc), Hp. exact Hr.
    + apply trim_no_space. exact Hns.
    + exact Hc.
    + destruct r as [|c2 r2]; [exact I|]. cbn [all_digits] in Hrd.
      now apply andb_true_iff in Hrd as [? _].
  - unfold JS.Number. rewrite (trim_no_space (String "+" (String c r)) Hns).
    cbv iota beta. unfold JS.parse_decimal. cbv iota beta.
    rewrite (digit_first_not_infinity c r Hc), Hp. exact Hr.
  - unfold JS.Number. rewrite (trim_no_space (String "-" (String c r)) Hns).
    cbv iota beta. unfold JS.parse_decimal. cbv iota beta.
    rewrite (digit_first_not_infinity c r Hc), Hp. exact Hrn.
Qed.

(** X4.  A cell whose text, once trimmed (of ASCII and non-ASCII white
    space alike), is a run of decimal digits with an optional sign, of
    magnitude below 2^53, is read by [normalizeInt] as exactly that whole
    number: no rounding, no truncation. *)
Theorem normalizeInt_reads_whole_numbers s ds :
  ds <> EmptyString ->
  all_digits ds = true ->
  (JS.digits_value ds 0 < 2 ^ 53)%Z ->
  (JS.trim s = ds \/ JS.trim s = String "+" ds ->
   normalizeInt (JS.VStr s) = Some (JS.digits_value ds 0)) /\
  (JS.trim s = String "-" ds ->
   normalizeInt (JS.VStr s) = Some (- JS.digits_value ds 0)%Z).
Proof.
  intros Hne Hd Hlt.
  destruct (Number_whole ds Hne Hd Hlt) as (Hn & Hplus & Hminus).
  destruct (trunc_int (JS.digits_value ds 0)) as [Ht Htn].
  unfold normalizeInt. cbn [JS.String_]. split.
  - intros [E | E]; rewrite E.
    + destruct ds as [|c r]; [contradiction|]. now rewrite Hn, Ht.
    + now rewrite Hplus, Ht.
  - intros E. rewrite E. now rewrite Hminus, Htn.
Qed.

Lemma normalizeInt_reads_whole_numbers_witness :
  (JS.trim (nbsp ++ "42 ") = "42" \/ JS.trim (nbsp ++ "42 ") = String "+" "42" ->
   normalizeInt (JS.VStr (nbsp ++ "42 ")) = Some (JS.digits_value "42" 0)) /\
  (JS.trim (nbsp ++ "42 ") = String "-" "42" ->
   normalizeInt (JS.VStr (nbsp ++ "42 ")) = Some (- JS.digits_value "42" 0)%Z).
Proof.
  apply (normalizeInt_reads_whole_numbers (nbsp ++ "42 ") "42").
  - discriminate.
  - reflexivity.
  - vm_compute. reflexivity.
Defined.

(** White space outside ASCII is stripped like a blank: by [trim], by
    [normalizeInt] and by the scan. *)
Example trim_unicode_space :
  JS.trim (nbsp ++ bom ++ " 7 " ++ em_space ++ line_separator ++
           ideographic_space ++ nbsp_unit) = "7" /\
  JS.trim (zero_width_space ++ " 7" ++ next_line) =
    zero_width_space ++ " 7" ++ next_line /\
  JS.trim (e_acute ++ nbsp) = e_acute.
Proof. repeat apply conj; vm_compute; reflexivity. Qed.

Example normalizeInt_unicode_space :
  normalizeInt (JS.VStr ("7" ++ nbsp)) = Some 7%Z /\
  normalizeInt (JS.VStr ("7" ++ nbsp_unit)) = Some 7%Z /\
  normalizeInt (JS.VStr (bom ++ "-12" ++ line_separator)) = Some (-12)%Z /\
  normalizeInt (JS.VStr nbsp) = None /\
  normalizeInt (JS.VStr ("7" ++ zero_width_space)) = None.
Proof. repeat apply conj; vm_compute; reflexivity. Qed.

Example scan_unicode_space :
  candidate_of 1 (Outsides.data_row (Outsides.int 7) (Outsides.int 10) nbsp) = None /\
  candidate_of 1 (Outsides.data_row (Outsides.int 7) (Outsides.int 10) nbsp_unit) = None /\
  candidate_of 1 (Outsides.data_row (JS.VStr ("7" ++ nbsp)) (Outsides.int 10)
                    (nbsp ++ "gid://A" ++ em_space)) =
    Some {| rowIndex1Based := 2; c_inventoryItemId := "gid://A";
            c_desired := 7; c_available := 10 |}.
Proof. repeat apply conj; vm_compute; reflexivity. Qed.

(** [length] and [slice] count code units: U+1F600 is two of them, and a
    cut between the two keeps the first, which [JSON.stringify] writes as
    an escape. *)
Example slice_code_units :
  JS.length ("a" ++ e_acute ++ grinning_face) = 4 /\
  JS.slice0 2 ("a" ++ e_acute ++ grinning_face) = "a" ++ e_acute /\
  JS.length (JS.slice0 3 ("a" ++ e_acute ++ grinning_face)) = 3 /\
  JS.slice0 4 ("a" ++ e_acute ++ grinning_face) = "a" ++ e_acute ++ grinning_face /\
  JS.json_escape (JS.slice0 3 ("a" ++ e_acute ++ grinning_face)) =
    "a" ++ e_acute ++ String JS.backslash "ud83d".
Proof. repeat apply conj; vm_compute; reflexivity. Qed.

(* ===================================================================== *)
(** ** The calls of a push, whatever the environment *)
(* ===================================================================== *)

Section PushCalls.
Context {O : Outside}.
Variable env : gmap string string.

(** the sequences of calls a push can make *)
Lemma push_call_sequences item loc qty cmp (w : world) :
  let r := shopifyInventorySetAvailable env item loc qty cmp w in
  (exists n, In n push_variables /\ env_lacks env n /\
     r = (inl (JS.Error ("Missing env var: " ++ n)), w)) \/
  (exists dom tok,
     env_has env "SHOPIFY_STORE_DOMAIN" dom /\
     env_has env "SHOPIFY_ADMIN_TOKEN" tok /\
     let attempt c :=
       Fetch (graphql_url dom) tok (InventorySet (set_input item loc qty c)) in
     let reread := Fetch (graphql_url dom) tok (GetInventoryLevel item loc) in
     new_events w (snd r) = [attempt cmp] \/
     new_events w (snd r) = [attempt cmp; reread] \/
     exists q, new_events w (snd r) = [attempt cmp; reread; attempt q]).
Proof.
  intros r. subst r. unfold shopifyInventorySetAvailable, bind.
  destruct (env_has_or_lacks env "SHOPIFY_STORE_DOMAIN") as [[dom Hdom]|H].
  2:{ left. eexists. split; [|split; [exact H|]]; [cbn; tauto|].
      now rewrite (requireEnv_lacks env _ w H). }
  rewrite (requireEnv_has env _ _ w Hdom).
  destruct (env_has_or_lacks env "SHOPIFY_ADMIN_TOKEN") as [[tok Htok]|H].
  2:{ left. eexists. split; [|split; [exact H|]]; [cbn; tauto|].
      now rewrite (requireEnv_lacks env _ w H). }
  rewrite (requireEnv_has env _ _ w Htok).
  destruct (env_has_or_lacks env "SHOPIFY_LOCATION_ID") as [[l Hloc]|H].
  2:{ left. eexists. split; [|split; [exact H|]]; [cbn; tauto|].
      now rewrite (requireEnv_lacks env _ w H). }
  rewrite (requireEnv_has env _ _ w Hloc).
  right. exists dom, tok. split; [exact Hdom|]. split; [exact Htok|]. cbn zeta.
  rewrite (runOnce_eq env dom tok Hdom Htok).
  destruct (fetch_set (out w) _ tok (set_input item loc qty cmp)) as [o1 r1].
  destruct (response_data r1) as [e1|d1]; cbn [fst snd].
  { left. apply new_events_app. reflexivity. }
  destruct (Shop.userErrors_of (Shop.payload_of d1)) as [|u us] eqn:Ees.
  { left. apply new_events_app. reflexivity. }
  destruct (find is_stale (u :: us)) as [s|].
  2:{ left. apply new_events_app. reflexivity. }
  rewrite (getCurrent_eq env dom tok Hdom Htok). cbn [out sheet trace].
  destruct (fetch_level o1 _ tok item loc) as [o2 r2].
  destruct (response_data r2) as [e2|d2]; cbn [fst snd].
  { right. left. apply new_events_app. cbn. now rewrite <- app_assoc. }
  destruct (Shop.available_of d2) as [current|]; cbn [fst snd].
  2:{ right. left. apply new_events_app. cbn. now rewrite <- app_assoc. }
  rewrite (runOnce_eq env dom tok Hdom Htok). cbn [out sheet trace].
  destruct (fetch_set o2 _ tok (set_input item loc qty current)) as [o3 r3].
  right. right. exists current.
  destruct (response_data r3) as [e3|d3]; cbn [fst snd].
  { apply new_events_app. cbn. now rewrite <- !app_assoc. }
  destruct (Shop.userErrors_of (Shop.payload_of d3)); cbn;
    apply new_events_app; cbn; now rewrite <- !app_assoc.
Qed.

End PushCalls.

(** X5.  A push first checks, in this order, that the shop domain, the
    access token and the location identifier are set.  When one of them
    is absent (or empty) the push throws the error that names the first
    missing one (every variable checked before it is set) and makes no
    call: the world is as it was. *)
Theorem push_needs_credentials {O : Outside} (env : gmap string string)
  item loc qty cmp (w : world) :
  (exists n, In n push_variables /\ env_lacks env n) ->
  exists before n after,
    push_variables = (before ++ n :: after)%list /\
    Forall (fun m => exists v, env_has env m v) before /\
    env_lacks env n /\
    shopifyInventorySetAvailable env item loc qty cmp w =
      (inl (JS.Error ("Missing env var: " ++ n)), w).
Proof.
  intros (n0 & Hin & Hl).
  unfold shopifyInventorySetAvailable, bind.
  destruct (env_has_or_lacks env "SHOPIFY_STORE_DOMAIN") as [[dom Hdom]|H].
  2:{ exists [], "SHOPIFY_STORE_DOMAIN". eexists. split; [reflexivity|].
      split; [constructor|]. split; [exact H|].
      now rewrite (requireEnv_lacks env _ w H). }
  rewrite (requireEnv_has env _ _ w Hdom).
  destruct (env_has_or_lacks env "SHOPIFY_ADMIN_TOKEN") as [[tok Htok]|H].
  2:{ exists ["SHOPIFY_STORE_DOMAIN"], "SHOPIFY_ADMIN_TOKEN". eexists.
      split; [reflexivity|]. split; [repeat constructor; eauto|].
      split; [exact H|]. now rewrite (requireEnv_lacks env _ w H). }
  rewrite (requireEnv_has env _ _ w Htok).
  destruct (env_has_or_lacks env "SHOPIFY_LOCATION_ID") as [[l Hloc]|H].
  2:{ exists ["SHOPIFY_STORE_DOMAIN"; "SHOPIFY_ADMIN_TOKEN"], "SHOPIFY_LOCATION_ID".
      eexists. split; [reflexivity|]. split; [repeat constructor; eauto|].
      split; [exact H|]. now rewrite (requireEnv_lacks env _ w H). }
  exfalso. cbn in Hin. destruct Hin as [<-|[<-|[<-|[]]]];
    [exact (env_has_not_lacks env _ _ Hdom Hl)
    |exact (env_has_not_lacks env _ _ Htok Hl)
    |exact (env_has_not_lacks env _ _ Hloc Hl)].
Qed.

Lemma push_needs_credentials_witness :
  exists before n after,
    push_variables = (before ++ n :: after)%list /\
    Forall (fun m => exists v, env_has env_no_token m v) before /\
    env_lacks env_no_token n /\
    @shopifyInventorySetAvailable Outsides.Cas env_no_token "gid://A"
      (Some "gid://shopify/Location/66678325498") 7 10 fractional_world =
      (inl (JS.Error ("Missing env var: " ++ n)), fractional_world).
Proof.
  apply (@push_needs_credentials Outsides.Cas env_no_token "gid://A"
           (Some "gid://shopify/Location/66678325498") 7 10 fractional_world).
  exists "SHOPIFY_ADMIN_TOKEN". split; [cbn; tauto | left; reflexivity].
Defined.

(** X6.  Whatever the environment and whatever the shop answers, one push
    makes at most three calls, of which at most two are mutations; every
    mutation sets the quantity asked for, for the item and location asked
    for, and the level query is for the same item and location; the first
    call, if there is one, is the mutation guarded by the precondition
    the caller gave; and the push writes nothing to the sheet. *)
Theorem push_calls_are_for_the_item {O : Outside} (env : gmap string string)
  item loc qty cmp (w : world) :
  let w' := snd (shopifyInventorySetAvailable env item loc qty cmp w) in
  let evs := new_events w w' in
  length evs <= 3 /\
  length (filter is_set evs) <= 2 /\
  Forall (call_for item loc qty) evs /\
  (evs <> [] -> first_precondition evs = Some cmp) /\
  sheet w' = sheet w.
Proof.
  intros w' evs.
  assert (Hsheet : sheet w' = sheet w).
  { subst w'.
    destruct (shopifyInventorySetAvailable env item loc qty cmp w) as [res w1] eqn:E.
    exact (proj1 (fetch_only_setAvailable env _ _ _ _ _ _ _ E)). }
  destruct (push_call_sequences env item loc qty cmp w)
    as [(n & _ & _ & E) | (dom & tok & _ & _ & H)].
  - assert (Hev : evs = []).
    { subst evs w'. rewrite E. cbn [snd]. unfold new_events. apply drop_all. }
    rewrite Hev. cbn. split; [lia|]. split; [lia|]. split; [constructor|].
    split; [congruence | exact Hsheet].
  - cbn zeta in H. fold w' in H. fold evs in H.
    destruct H as [-> | [-> | (q & ->)]];
      (split; [cbn; lia|]; split; [cbv; lia|];
       split; [|split; [reflexivity | exact Hsheet]];
       repeat constructor).
Qed.

(* ===================================================================== *)
(** ** The calls and the records of a whole run *)
(* ===================================================================== *)

Section RunCalls.
Context {O : Outside}.
Variable env : gmap string string.

Local Abbreviation sid := (spreadsheetId (CONFIG env)).
Local Abbreviation cap := (maxRowsPerRun (CONFIG env)).
Local Abbreviation read_ev := (SheetsGet sid (sheetName (CONFIG env) ++ "!A:Z")).

(** the [try]/[catch] around a push adds no call of its own *)
Lemma process_one_world c (w : world) :
  snd (process_one env c w) = snd (push env c w).
Proof.
  unfold process_one, try_catch, bind, push.
  destruct (shopifyInventorySetAvailable env _ _ _ _ w) as [[e|p] w1]; reflexivity.
Qed.

Lemma process_one_calls c (w : world) :
  exists evs, trace (snd (process_one env c w)) = (trace w ++ evs)%list /\
              candidate_calls env c evs.
Proof.
  rewrite process_one_world. unfold push.
  pose proof (push_call_sequences env (c_inventoryItemId c) (locationId (CONFIG env))
                (c_desired c) (c_available c) w) as Hseq. cbn zeta in Hseq.
  destruct (shopifyInventorySetAvailable env _ _ _ _ w) as [res w1] eqn:E.
  destruct (fetch_only_setAvailable env _ _ _ _ _ _ _ E) as (_ & evs & Ht & _).
  cbn [snd] in *. rewrite (new_events_app w w1 evs Ht) in Hseq.
  exists evs. split; [exact Ht|]. unfold candidate_calls.
  destruct Hseq as [(n & _ & _ & En) | (dom & tok & _ & _ & [-> | [-> | (q & ->)]])].
  - injection En as _ <-. assert (evs = []) as ->.
    { apply (app_inv_head (trace w1)). now rewrite app_nil_r. }
    split; [cbn; lia|]. split; [constructor | congruence].
  - split; [cbn; lia|]. split; [repeat constructor | reflexivity].
  - split; [cbn; lia|]. split; [repeat constructor | reflexivity].
  - split; [cbn; lia|]. split; [repeat constructor | reflexivity].
Qed.

(** the calls of the loop: those of each candidate, in order *)
Lemma process_calls candidates : forall acc (w : world),
  exists evss,
    trace (snd (process env candidates acc w)) = (trace w ++ concat evss)%list /\
    Forall2 (candidate_calls env) candidates evss.
Proof.
  induction candidates as [|c rest IH]; intros acc w.
  - exists []. cbn. rewrite app_nil_r. split; [reflexivity | constructor].
  - destruct (process_one_calls c w) as (evs1 & Ht1 & Hc1).
    destruct (process_one_outcome env c w) as (g & w1 & E1 & _).
    rewrite E1 in Ht1. cbn [snd] in Ht1.
    destruct (IH (acc ++ g)%list w1) as (evss & Ht2 & HF).
    exists (evs1 :: evss). cbn [process]. unfold bind at 1. rewrite E1.
    split; [|constructor; assumption].
    rewrite Ht2, Ht1. cbn [concat]. now rewrite app_assoc.
Qed.

(** a run that got its PENDING batch through: the calls of the candidates
    follow, then the outcome batch *)
Lemma main_candidates_calls (w : world) o1 o2 c cs :
  env_ready env ->
  sheets_call (out w) = (o1, None) ->
  scan cap (sheet w) = c :: cs ->
  sheets_call o1 = (o2, None) ->
  exists groups evss,
    Forall2 (outcome env) (c :: cs) groups /\
    Forall2 (candidate_calls env) (c :: cs) evss /\
    new_events w (snd (main env w)) =
      ([read_ev; SheetsBatchUpdate sid (pending_updates env (c :: cs))] ++
       concat evss ++ [SheetsBatchUpdate sid (concat groups)])%list.
Proof.
  intros Hr Hget Hscan Hpend.
  pose proof (main_ready env w Hr) as Hm. rewrite Hget, Hscan in Hm.
  unfold bind at 1 in Hm. unfold values_batchUpdate at 1 in Hm.
  unfold after_get in Hm. cbn [out sheet trace] in Hm. rewrite Hpend in Hm.
  unfold bind in Hm.
  match type of Hm with
  | context [process env (c :: cs) [] ?w1] =>
      destruct (process_spec env (c :: cs) [] w1)
        as (groups & w2 & E2 & HF & Hs2 & evs & Ht2 & _);
      destruct (process_calls (c :: cs) [] w1) as (evss & Ht3 & HC)
  end.
  rewrite E2 in Ht3. cbn [snd] in Ht3. rewrite Ht2 in Ht3.
  apply app_inv_head in Ht3. subst evs.
  rewrite E2 in Hm. cbn [app] in Hm.
  unfold values_batchUpdate in Hm. cbn [out sheet trace] in *.
  exists groups, evss. split; [exact HF|]. split; [exact HC|].
  rewrite Ht2 in Hm.
  destruct (sheets_call (out w2)) as [o4 [e|]]; rewrite Hm; cbn [snd];
    apply new_events_app; cbn [trace]; rewrite <- !app_assoc; reflexivity.
Qed.

(** the events of a run, in every case *)
Lemma main_events (w : world) :
  let evs := new_events w (snd (main env w)) in
  evs = [] \/ evs = [read_ev] \/
  (scan cap (sheet w) <> [] /\
   (evs = [read_ev; SheetsBatchUpdate sid (pending_updates env (scan cap (sheet w)))] \/
    exists groups evss,
      Forall2 (outcome env) (scan cap (sheet w)) groups /\
      Forall2 (candidate_calls env) (scan cap (sheet w)) evss /\
      evs = ([read_ev; SheetsBatchUpdate sid (pending_updates env (scan cap (sheet w)))] ++
             concat evss ++ [SheetsBatchUpdate sid (concat groups)])%list)).
Proof.
  intros evs. subst evs.
  destruct (env_ready_or_missing env) as [Hready|Hmiss].
  2:{ left. destruct (main_missing env w Hmiss) as (n & _ & _ & E).
      rewrite E. cbn [snd]. unfold new_events. apply drop_all. }
  destruct (sheets_call (out w)) as [o1 f1] eqn:Eget.
  pose proof (main_ready env w Hready) as Hm. rewrite Eget in Hm.
  destruct f1 as [e|].
  { right. left. rewrite Hm. apply new_events_after_get. }
  destruct (scan cap (sheet w)) as [|c cs] eqn:Es.
  { right. left. rewrite Hm. apply new_events_after_get. }
  clear Hm. right. right. split; [discriminate|].
  destruct (sheets_call o1) as [o2 f2] eqn:Epend.
  destruct f2 as [e|].
  - left. pose proof (main_candidates env w o1 c cs Hready Eget Es) as Hc.
    cbn zeta in Hc. rewrite Epend in Hc. rewrite Hc. cbn [snd].
    apply new_events_app. reflexivity.
  - right. destruct (main_candidates_calls w o1 o2 c cs Hready Eget Es Epend)
      as (groups & evss & HF & HC & Hev).
    exists groups, evss. repeat split; assumption.
Qed.

End RunCalls.

Lemma candidate_calls_total (env : gmap string string) cs : forall evss,
  Forall2 (candidate_calls env) cs evss ->
  length (concat evss) <= 3 * length cs.
Proof.
  induction cs as [|c cs IH]; intros evss HF; inversion HF; subst; cbn; [lia|].
  rewrite length_app.
  match goal with H : candidate_calls _ _ _ |- _ => destruct H as (Hl & _) end.
  match goal with H : Forall2 _ cs _ |- _ => specialize (IH _ H) end. lia.
Qed.

Lemma candidate_calls_entry (env : gmap string string) cs evss ev :
  Forall2 (candidate_calls env) cs evss -> In ev (concat evss) ->
  exists c, In c cs /\
    call_for (c_inventoryItemId c) (locationId (CONFIG env)) (c_desired c) ev.
Proof.
  intros HF Hin. apply in_concat in Hin as (evs & Hevs & Hev).
  apply list_elem_of_In, list_elem_of_lookup in Hevs as (k & Hk).
  destruct (Forall2_lookup_r _ _ _ _ _ HF Hk) as (c & Hc & (_ & Hfor & _)).
  exists c. split; [apply list_elem_of_In, list_elem_of_lookup; eauto|].
  rewrite Forall_forall in Hfor. apply Hfor, list_elem_of_In, Hev.
Qed.

Lemma call_for_is_call item loc qty ev : call_for item loc qty ev -> is_call ev = true.
Proof. destruct ev; cbn; [contradiction.. | reflexivity]. Qed.

Lemma filter_calls_only evs :
  Forall (fun ev => is_call ev = true) evs -> filter is_call evs = evs.
Proof.
  induction 1 as [|ev l Hev _ IH]; [reflexivity|].
  rewrite filter_cons. destruct (decide (is_call ev)) as [|n].
  - now rewrite IH.
  - exfalso. apply n. now rewrite Hev.
Qed.

Lemma filter_not_call ev evs :
  is_call ev = false -> filter is_call (ev :: evs) = filter is_call evs.
Proof.
  intros H. rewrite filter_cons. destruct (decide (is_call ev)) as [Ht|_]; [|reflexivity].
  rewrite H in Ht. destruct Ht.
Qed.

(** X7.  In any run, every call that reaches the shop is made for a
    candidate of the scan: a mutation sets that candidate's desired
    quantity for its item at the configured location, a level query asks
    for that item at that location.  A run makes at most three calls to
    the shop per candidate. *)
Theorem run_calls_are_for_candidates {O : Outside} (env : gmap string string)
  (w : world) :
  let evs := new_events w (snd (main env w)) in
  let candidates := scan (maxRowsPerRun (CONFIG env)) (sheet w) in
  (forall ev, In ev evs -> is_call ev = true ->
     exists c, In c candidates /\
       call_for (c_inventoryItemId c) (locationId (CONFIG env)) (c_desired c) ev) /\
  length (filter is_call evs) <= 3 * length candidates.
Proof.
  intros evs candidates. subst evs candidates.
  set (n := length (scan (maxRowsPerRun (CONFIG env)) (sheet w))).
  destruct (main_events env w) as [-> | [-> | (Hne & [-> | (groups & evss & _ & HC & ->)])]].
  - split; [intros ev [] | rewrite filter_nil; cbn [length]; lia].
  - split; [intros ev [<-|[]]; discriminate|].
    rewrite filter_not_call by reflexivity. rewrite filter_nil. cbn [length]. lia.
  - split; [intros ev [<-|[<-|[]]]; discriminate|].
    rewrite !filter_not_call by reflexivity. rewrite filter_nil. cbn [length]. lia.
  - split.
    + intros ev Hin Hcall. rewrite !in_app_iff in Hin.
      destruct Hin as [[<-|[<-|[]]] | [Hin | [<-|[]]]]; try discriminate.
      exact (candidate_calls_entry env _ _ _ HC Hin).
    + rewrite !filter_app.
      assert (Hall : Forall (fun ev => is_call ev = true) (concat evss)).
      { apply Forall_forall. intros ev Hev. apply list_elem_of_In in Hev.
        destruct (candidate_calls_entry env _ _ _ HC Hev) as (c & _ & Hcf).
        exact (call_for_is_call _ _ _ _ Hcf). }
      rewrite (filter_calls_only _ Hall).
      rewrite !filter_not_call by reflexivity. rewrite filter_nil.
      rewrite !length_app. cbn [length].
      pose proof (candidate_calls_total env _ _ HC). fold n in H. lia.
Qed.

Section Records.
Context {O : Outside}.
Variable env : gmap string string.

(** what a record of the outcome batch can be *)
Lemma outcome_record_shape c g u :
  outcome env c g -> In u g ->
  Sheet.vr_sheet u = sheetName (CONFIG env) /\
  ((Sheet.vr_col u = "G" /\
    (Sheet.vr_value u = JS.VStr EmptyString \/ Sheet.vr_value u = JS.VStr "ERROR")) \/
   (Sheet.vr_col u = "H" /\ exists t, Sheet.vr_value u = JS.VStr t) \/
   (Sheet.vr_col u = "I" /\
    exists m, Sheet.vr_value u = JS.VStr m /\ JS.length m <= 450) \/
   (Sheet.vr_col u = "E" /\ Sheet.vr_value u = JS.VStr EmptyString)).
Proof.
  intros [(w & p & w1 & _ & ->) | (w & err & w1 & _ & ->)] Hin;
    unfold success_updates, error_updates in Hin; cbn [In] in Hin.
  - destruct Hin as [<-|[<-|[<-|[<-|[]]]]]; (split; [reflexivity|]).
    + left. split; [reflexivity | now left].
    + right. left. split; [reflexivity | eauto].
    + right. right. left. split; [reflexivity|].
      exists EmptyString. split; [reflexivity | cbn; lia].
    + right. right. right. split; reflexivity.
  - destruct Hin as [<-|[<-|[]]]; (split; [reflexivity|]).
    + left. split; [reflexivity | now right].
    + right. right. left. split; [reflexivity|].
      eexists. split; [reflexivity | apply length_slice0].
Qed.

End Records.

(** X8.  Every record a run writes to the row store, in either batch,
    goes to the configured tab and is one of: a status (column G) set to
    PENDING, empty or ERROR; a last-pushed time (column H); a last-error
    text (column I) of at most 450 code units; the desired quantity
    (column E) emptied.  A run never writes the available quantity, the
    item id or any other column, and never writes a desired quantity. *)
Theorem run_records_shape {O : Outside} (env : gmap string string)
  (w : world) s data u :
  In (SheetsBatchUpdate s data) (new_events w (snd (main env w))) ->
  In u data ->
  s = spreadsheetId (CONFIG env) /\
  Sheet.vr_sheet u = sheetName (CONFIG env) /\
  ((Sheet.vr_col u = "G" /\
    (Sheet.vr_value u = JS.VStr "PENDING" \/
     Sheet.vr_value u = JS.VStr EmptyString \/ Sheet.vr_value u = JS.VStr "ERROR")) \/
   (Sheet.vr_col u = "H" /\ exists t, Sheet.vr_value u = JS.VStr t) \/
   (Sheet.vr_col u = "I" /\
    exists m, Sheet.vr_value u = JS.VStr m /\ JS.length m <= 450) \/
   (Sheet.vr_col u = "E" /\ Sheet.vr_value u = JS.VStr EmptyString)).
Proof.
  intros Hev Hu.
  assert (Hpending : forall cs, In u (pending_updates env cs) ->
            Sheet.vr_sheet u = sheetName (CONFIG env) /\
            Sheet.vr_col u = "G" /\ Sheet.vr_value u = JS.VStr "PENDING").
  { intros cs H. apply pending_entry in H as (c & _ & ->). repeat split. }
  assert (Hfetch : forall evss,
            Forall2 (candidate_calls env) (scan (maxRowsPerRun (CONFIG env)) (sheet w)) evss ->
            ~ In (SheetsBatchUpdate s data) (concat evss)).
  { intros evss HC Hin.
    destruct (candidate_calls_entry env _ _ _ HC Hin) as (c & _ & Hcf).
    exact Hcf. }
  destruct (main_events env w)
    as [E | [E | (Hne & [E | (groups & evss & HF & HC & E)])]];
    rewrite E in Hev.
  - destruct Hev.
  - destruct Hev as [Hev|[]]. discriminate Hev.
  - destruct Hev as [Hev|[Hev|[]]]; [discriminate Hev|].
    injection Hev as <- <-. destruct (Hpending _ Hu) as (Hs & Hc & Hv).
    split; [reflexivity|]. split; [exact Hs|]. left. split; [exact Hc | now left].
  - rewrite !in_app_iff in Hev.
    destruct Hev as [[Hev|[Hev|[]]] | [Hev | [Hev|[]]]].
    + discriminate Hev.
    + injection Hev as <- <-. destruct (Hpending _ Hu) as (Hs & Hc & Hv).
      split; [reflexivity|]. split; [exact Hs|]. left. split; [exact Hc | now left].
    + exfalso. exact (Hfetch evss HC Hev).
    + injection Hev as <- <-. split; [reflexivity|].
      destruct (groups_entry env _ _ u HF Hu) as (k & c & g & _ & _ & Ho & Hin).
      destruct (outcome_record_shape env c g u Ho Hin) as (Hs & Hcase).
      split; [exact Hs|].
      destruct Hcase as [[Hc [Hv|Hv]] | [H | [H | H]]].
      * left. split; [exact Hc | right; now left].
      * left. split; [exact Hc | right; now right].
      * right. left. exact H.
      * right. right. left. exact H.
      * right. right. right. exact H.
Qed.

Lemma run_records_shape_witness :
  let u := at_cell Outsides.env0 "G" candidate_A (JS.VStr "PENDING") in
  Some "sheet-1" = spreadsheetId (CONFIG Outsides.env0) /\
  Sheet.vr_sheet u = sheetName (CONFIG Outsides.env0) /\
  ((Sheet.vr_col u = "G" /\
    (Sheet.vr_value u = JS.VStr "PENDING" \/
     Sheet.vr_value u = JS.VStr EmptyString \/ Sheet.vr_value u = JS.VStr "ERROR")) \/
   (Sheet.vr_col u = "H" /\ exists t, Sheet.vr_value u = JS.VStr t) \/
   (Sheet.vr_col u = "I" /\
    exists m, Sheet.vr_value u = JS.VStr m /\ JS.length m <= 450) \/
   (Sheet.vr_col u = "E" /\ Sheet.vr_value u = JS.VStr EmptyString)).
Proof.
  apply (@run_records_shape Outsides.Cas Outsides.env0 scenario_A (Some "sheet-1")
           (pending_updates Outsides.env0 [candidate_A])).
  - vm_compute. right. left. reflexivity.
  - left. reflexivity.
Defined.

Lemma writes_only_candidate_rows_witness :
  exists c, In c (scan (maxRowsPerRun (CONFIG Outsides.env0)) (sheet scenario_A)) /\
            rowIndex1Based c = 2.
Proof.
  apply (@writes_only_candidate_rows Outsides.Cas Outsides.env0 scenario_A
           (SheetsBatchUpdate (Some "sheet-1")
              (pending_updates Outsides.env0 [candidate_A])) 2).
  - vm_compute. right. left. reflexivity.
  - left. reflexivity.
Defined.

(* ===================================================================== *)
(** ** Exit code, idle runs and the PENDING mark left behind *)
(* ===================================================================== *)

(** X10.  Only the pre-flight and the row store can fail a run: with the
    four required variables in place and a row store that accepts every
    call, [main] returns and the exit code is 0 whatever the shop answers,
    even if every push fails. *)
Theorem shop_failures_do_not_fail_the_run {O : Outside}
  (env : gmap string string) (w : world) :
  env_ready env ->
  (forall o, snd (sheets_call o) = None) ->
  fst (main env w) = inr tt /\ fst (run env w) = 0%Z.
Proof.
  intros Hr Hok.
  assert (Hm : fst (main env w) = inr tt).
  { destruct (sheets_call (out w)) as [o1 f1] eqn:Eget.
    pose proof (Hok (out w)) as H1. rewrite Eget in H1. cbn in H1. subst f1.
    destruct (scan (maxRowsPerRun (CONFIG env)) (sheet w)) as [|c cs] eqn:Es.
    { rewrite (main_ready env w Hr), Eget, Es. reflexivity. }
    pose proof (main_candidates env w o1 c cs Hr Eget Es) as Hc. cbn zeta in Hc.
    destruct (sheets_call o1) as [o2 f2] eqn:Ep.
    pose proof (Hok o1) as H2. rewrite Ep in H2. cbn in H2. subst f2.
    destruct Hc as (groups & fetches & o3 & _ & _ & Hc).
    destruct (sheets_call o3) as [o4 f4] eqn:Ef.
    pose proof (Hok o3) as H3. rewrite Ef in H3. cbn in H3. subst f4.
    rewrite Hc. reflexivity. }
  split; [exact Hm|]. unfold run.
  destruct (main env w) as [[e|[]] w']; [discriminate Hm | reflexivity].
Qed.

Lemma shop_failures_do_not_fail_the_run_witness :
  fst (@main Outsides.Cas Outsides.env0 scenario_C) = inr tt /\
  fst (@run Outsides.Cas Outsides.env0 scenario_C) = 0%Z.
Proof.
  apply (@shop_failures_do_not_fail_the_run Outsides.Cas Outsides.env0 scenario_C).
  - repeat constructor; eexists; (split; [reflexivity | discriminate]).
  - intros o. reflexivity.
Defined.

(** X11.  When the sheet is empty, holds its header row only, or has no
    eligible row, a run reads the sheet once and does nothing else: no
    bulk write, no call to the shop, the sheet unchanged. *)
Theorem idle_run {O : Outside} (env : gmap string string) (w : world) :
  env_ready env ->
  length (sheet w) < 2 \/ eligible (sheet w) = [] ->
  sheet (snd (main env w)) = sheet w /\
  new_events w (snd (main env w)) =
    [SheetsGet (spreadsheetId (CONFIG env)) (sheetName (CONFIG env) ++ "!A:Z")].
Proof.
  intros Hr Hidle.
  assert (Hs : scan (maxRowsPerRun (CONFIG env)) (sheet w) = []).
  { destruct Hidle as [H | H]; [apply scan_short; exact H|].
    rewrite scan_spec, H. destruct (effective_cap _); cbn; [apply take_nil | reflexivity]. }
  destruct (main env w) as [res w'] eqn:E.
  exact (main_returns_idle env w res w' E Hr Hs).
Qed.

Lemma idle_run_witness :
  sheet (snd (@main Outsides.Cas Outsides.env0 header_only_world)) =
    sheet header_only_world /\
  new_events header_only_world (snd (@main Outsides.Cas Outsides.env0 header_only_world)) =
    [SheetsGet (Some "sheet-1") "Truth_Table!A:Z"].
Proof.
  apply (@idle_run Outsides.Cas Outsides.env0 header_only_world).
  - repeat constructor; eexists; (split; [reflexivity | discriminate]).
  - left. cbn. lia.
Defined.

(** X12.  When the row store accepts the read and the PENDING batch but
    the run still fails, it is the outcome batch that was rejected: the
    pushes ran and returned their records, the run ended with the call
    that carries them, and the error of the run is the answer to that
    call.  The exit code is 1, and the sheet is left with PENDING in the
    status cell of every candidate and every other cell as it was: the
    cells of the other columns (the desired quantities included) and the
    status cells of the rows that were not candidates. *)
Theorem rejected_outcome_leaves_pending {O : Outside} (env : gmap string string)
  (w : world) o1 o2 e :
  env_ready env ->
  sheets_call (out w) = (o1, None) ->
  sheets_call o1 = (o2, None) ->
  fst (main env w) = inl e ->
  let cands := scan (maxRowsPerRun (CONFIG env)) (sheet w) in
  let sid := spreadsheetId (CONFIG env) in
  let read := SheetsGet sid (sheetName (CONFIG env) ++ "!A:Z") in
  let pending := SheetsBatchUpdate sid (pending_updates env cands) in
  let marked := snd (values_batchUpdate sid (pending_updates env cands)
                       (after_get env w o1)) in
  fst (run env w) = 1%Z /\
  (exists records w2 fetches,
     process env cands [] marked = (inr records, w2) /\
     values_batchUpdate sid records w2 = (inl e, snd (main env w)) /\
     Forall is_fetch_ev fetches /\
     new_events w (snd (main env w)) =
       ([read; pending] ++ fetches ++ [SheetsBatchUpdate sid records])%list) /\
  (forall c, In c cands ->
     cell_at (sheet (snd (main env w))) (rowIndex1Based c) 6 = JS.VStr "PENDING") /\
  (forall r k,
     k <> 6 \/ (forall c, In c cands -> rowIndex1Based c <> r) ->
     cell_at (sheet (snd (main env w))) r k = cell_at (sheet w) r k).
Proof.
  intros Hr Hget Hpend Hfail cands sid read pending marked.
  split.
  { unfold run. destruct (main env w) as [[e'|u] w']; [reflexivity | discriminate Hfail]. }
  destruct cands as [|c0 cs] eqn:Es.
  { subst cands. rewrite (main_ready env w Hr), Hget, Es in Hfail. discriminate Hfail. }
  destruct (main_outcome_call env w o1 o2 c0 cs Hr Hget Es Hpend)
    as (Hsheet & Htrace & groups & w2 & fetches & Ep & _ & Hs2 & Ht2 & Hf & Hm).
  fold sid in Hsheet, Htrace, Ep, Hs2, Ht2, Hm. fold marked in Hsheet, Htrace, Ep, Hs2, Ht2.
  assert (Hend : values_batchUpdate sid (concat groups) w2 = (inl e, snd (main env w)) /\
                 sheet (snd (main env w)) = sheet w2 /\
                 trace (snd (main env w)) =
                   (trace w2 ++ [SheetsBatchUpdate sid (concat groups)])%list).
  { rewrite Hm in Hfail |- *. unfold values_batchUpdate in Hfail |- *.
    cbn [out sheet trace] in Hfail |- *.
    destruct (sheets_call (out w2)) as [o4 [e'|]]; [|discriminate Hfail].
    cbn [fst] in Hfail. injection Hfail as ->. repeat split. }
  destruct Hend as (Hcall & Hfinal & Htr).
  assert (Hgrid : sheet (snd (main env w)) =
                  Sheet.apply_updates (sheet w) (pending_updates env cands)).
  { rewrite Hfinal, Hs2, Hsheet. subst cands. now rewrite Es. }
  split; [|split].
  - exists (concat groups), w2, fetches. repeat split; try assumption.
    apply new_events_app. rewrite Htr, Ht2, Htrace. now rewrite <- !app_assoc.
  - intros c Hin. rewrite Hgrid. subst cands.
    destruct (cell_at_apply_updates _ (sheet w) (rowIndex1Based c) 6
                (pending_in_grid env (sheet w)))
      as [[Hno _] | (u & Hu & _ & ->)].
    + exfalso. rewrite Forall_forall in Hno.
      apply (Hno (at_cell env "G" c (JS.VStr "PENDING"))).
      * apply list_elem_of_In. unfold pending_updates. apply in_map_iff.
        exists c. split; [reflexivity|]. now rewrite Es.
      * split; reflexivity.
    + apply pending_entry in Hu as (c' & _ & ->). reflexivity.
  - intros r k Hother. rewrite Hgrid. subst cands.
    destruct (cell_at_apply_updates _ (sheet w) r k (pending_in_grid env (sheet w)))
      as [[_ H] | (u & Hu & [Hrow Hcol] & _)]; [exact H|].
    exfalso. apply pending_entry in Hu as (c & Hc & ->).
    assert (E : Sheet.col_index
                  (Sheet.vr_col (at_cell env "G" c (JS.VStr "PENDING"))) = 6)
      by reflexivity.
    destruct Hother as [Hk | Hrows]; [lia|].
    apply (Hrows c); [now rewrite <- Es | exact Hrow].
Qed.

Lemma rejected_outcome_leaves_pending_witness :
  let env := Outsides.env0 in
  let w := stranded_world in
  let o1 := fst (@sheets_call Outsides.Scripted (out w)) in
  let e := JS.Error "Quota exceeded" in
  let cands := scan (maxRowsPerRun (CONFIG env)) (sheet w) in
  let sid := spreadsheetId (CONFIG env) in
  let read := SheetsGet sid (sheetName (CONFIG env) ++ "!A:Z") in
  let pending := SheetsBatchUpdate sid (pending_updates env cands) in
  let marked := snd (@values_batchUpdate Outsides.Scripted sid
                       (pending_updates env cands) (after_get env w o1)) in
  fst (@run Outsides.Scripted env w) = 1%Z /\
  (exists records w2 fetches,
     @process Outsides.Scripted env cands [] marked = (inr records, w2) /\
     values_batchUpdate sid records w2 =
       (inl e, snd (@main Outsides.Scripted env w)) /\
     Forall is_fetch_ev fetches /\
     new_events w (snd (@main Outsides.Scripted env w)) =
       ([read; pending] ++ fetches ++ [SheetsBatchUpdate sid records])%list) /\
  (forall c, In c cands ->
     cell_at (sheet (snd (@main Outsides.Scripted env w))) (rowIndex1Based c) 6 =
     JS.VStr "PENDING") /\
  (forall r k,
     k <> 6 \/ (forall c, In c cands -> rowIndex1Based c <> r) ->
     cell_at (sheet (snd (@main Outsides.Scripted env w))) r k = cell_at (sheet w) r k).
Proof.
  apply (@rejected_outcome_leaves_pending Outsides.Scripted Outsides.env0 stranded_world
           (fst (@sheets_call Outsides.Scripted (out stranded_world)))
           (fst (@sheets_call Outsides.Scripted
                   (fst (@sheets_call Outsides.Scripted (out stranded_world)))))
           (JS.Error "Quota exceeded")).
  - repeat constructor; eexists; (split; [reflexivity | discriminate]).
  - reflexivity.
  - reflexivity.
  - vm_compute. reflexivity.
Defined.

(* ===================================================================== *)
(** ** A push against a shop that enforces the compare-and-set *)
(* ===================================================================== *)

(** X13.  Against a shop that owns the live quantities, enforces the
    compare-and-set and has no other writer ([Outsides.Cas]): a push for
    an item the shop knows always returns and leaves the live quantity at
    the desired one, with a single mutation when the row's available
    quantity was current and with a second one, guarded by the live
    quantity, when it was stale; a push for an item the shop does not
    know throws after a single mutation and changes nothing. *)
Theorem cas_push_converges (env : gmap string string) item loc qty cmp
  (w : @world Outsides.Cas) dom tok l :
  env_has env "SHOPIFY_STORE_DOMAIN" dom ->
  env_has env "SHOPIFY_ADMIN_TOKEN" tok ->
  env_has env "SHOPIFY_LOCATION_ID" l ->
  let r := @shopifyInventorySetAvailable Outsides.Cas env item loc qty cmp w in
  match (out w : gmap string Z) !! item with
  | Some q0 =>
      returns (fst r) /\
      (out (snd r) : gmap string Z) = <[item := qty]> (out w : gmap string Z) /\
      pushed (new_events w (snd r)) =
        if (q0 =? cmp)%Z then [(item, qty, cmp)]
        else [(item, qty, cmp); (item, qty, q0)]
  | None =>
      throws (fst r) /\
      (out (snd r) : gmap string Z) = out w /\
      pushed (new_events w (snd r)) = [(item, qty, cmp)]
  end.
Proof.
  intros Hdom Htok Hloc r. subst r.
  unfold shopifyInventorySetAvailable, bind.
  rewrite (requireEnv_has env _ _ w Hdom), (requireEnv_has env _ _ w Htok),
          (requireEnv_has env _ _ w Hloc).
  rewrite (runOnce_eq env dom tok Hdom Htok).
  cbn [fetch_set Outsides.Cas set_input Shop.in_inventoryItemId
       Shop.in_compareQuantity Shop.in_quantity].
  destruct ((out w : gmap string Z) !! item) as [q0|] eqn:Eq.
  - destruct (q0 =? cmp)%Z eqn:Ecmp.
    + cbn. split; [exact I|]. split; [reflexivity|].
      erewrite new_events_app by reflexivity. reflexivity.
    + cbn -[getCurrentAvailableQuantity runOnce].
      rewrite (getCurrent_eq env dom tok Hdom Htok).
      cbn [fetch_level Outsides.Cas out]. rewrite Eq.
      cbn -[runOnce].
      rewrite (runOnce_eq env dom tok Hdom Htok).
      cbn [fetch_set Outsides.Cas set_input Shop.in_inventoryItemId
           Shop.in_compareQuantity Shop.in_quantity out].
      rewrite Eq, Z.eqb_refl. cbn.
      split; [exact I|]. split; [reflexivity|].
      erewrite new_events_app by (rewrite <- !app_assoc; reflexivity). reflexivity.
  - cbn. split; [exact I|]. split; [reflexivity|].
    erewrite new_events_app by reflexivity. reflexivity.
Qed.

Lemma cas_push_converges_witness :
  let r := @shopifyInventorySetAvailable Outsides.Cas Outsides.env0 "gid://A"
             (Some "gid://shopify/Location/66678325498") 7 10 scenario_B in
  returns (fst r) /\
  (out (snd r) : gmap string Z) = <["gid://A" := 7%Z]> (out scenario_B : gmap string Z) /\
  pushed (new_events scenario_B (snd r)) =
    [("gid://A", 7%Z, 10%Z); ("gid://A", 7%Z, 8%Z)].
Proof.
  apply (cas_push_converges Outsides.env0 "gid://A"
           (Some "gid://shopify/Location/66678325498") 7 10 scenario_B
           "holy-tea-amsterdam.myshopify.com" "shpat_token"
           "gid://shopify/Location/66678325498").
  - split; [reflexivity | discriminate].
  - split; [reflexivity | discriminate].
  - split; [reflexivity | discriminate].
Defined.

(* ===================================================================== *)
(** ** Rows cut short *)
(* ===================================================================== *)

Lemma eligible_from_pad n rows : forall i,
  eligible_from i (map (Sheet.pad n) rows) = eligible_from i rows.
Proof.
  induction rows as [|r rest IH]; intros i; [reflexivity|].
  cbn [map eligible_from]. rewrite candidate_of_pad, IH. reflexivity.
Qed.

(** X14.  The scan does not depend on whether the empty cells that end a
    row are present in the snapshot (the Sheets API leaves them out): a
    row cut short reads [undefined] where the full row reads the empty
    string, and both are skipped alike; filling every row with empty
    cells up to any width gives the same candidates. *)
Theorem scan_ignores_trailing_blanks maxRows n (rows : Sheet.grid) :
  scan maxRows (map (Sheet.pad n) rows) = scan maxRows rows.
Proof.
  rewrite !scan_spec. unfold eligible. f_equal.
  change (drop 1 (map (Sheet.pad n) rows)) with (drop 1 (Sheet.pad n <$> rows)).
  rewrite <- fmap_drop. apply eligible_from_pad.
Qed.
